(** * A shallow embedding of the WebGL filter pipeline

    The development follows [processImageWithPipeline] and the
    [WebGLProcessor] class of the GPU surface module.  The graphics device is
    an explicit state (object ledger, texture contents, draw log) threaded
    through a small state-and-exception monad; everything the browser or the
    driver decides (is WebGL there, does a shader compile, is a framebuffer
    complete, what the clock reads) is a field of a [Device] record. *)

From Stdlib Require Import String Ascii List Bool Arith ZArith NArith QArith Lia.
From Stdlib Require Import DecimalString Qround.
Import ListNotations.
Local Close Scope Q_scope.
Local Open Scope string_scope.

(** ** JavaScript values and objects *)

(** The values that can reach a place where the source expects a shader
    source.  TypeScript types them [string]; at run time an indexed access
    into an object literal can also yield [undefined] or a member inherited
    from [Object.prototype] (a function or an object: truthy, not a string). *)
Inductive JSVal : Type :=
| JUndefined
| JStr (s : string)
| JInherited (name : string).

Definition JSVal_eqb (a b : JSVal) : bool :=
  match a, b with
  | JUndefined, JUndefined => true
  | JStr s, JStr t => String.eqb s t
  | JInherited s, JInherited t => String.eqb s t
  | _, _ => false
  end.

(** JavaScript truthiness, as used by [||]. *)
Definition truthy (v : JSVal) : bool :=
  match v with
  | JUndefined => false
  | JStr s => negb (String.eqb s "")
  | JInherited _ => true
  end.

(** The property names every object literal inherits from
    [Object.prototype]. *)
Definition Object_prototype : list string :=
  [ "constructor"; "__defineGetter__"; "__defineSetter__"; "hasOwnProperty";
    "__lookupGetter__"; "__lookupSetter__"; "isPrototypeOf";
    "propertyIsEnumerable"; "toString"; "valueOf"; "__proto__";
    "toLocaleString" ].

Fixpoint own_property (obj : list (string * string)) (k : string) : option string :=
  match obj with
  | [] => None
  | (k', v) :: rest => if String.eqb k k' then Some v else own_property rest k
  end.

Definition inherited (k : string) : bool :=
  existsb (String.eqb k) Object_prototype.

(** [obj[k]] for an object literal with string-valued own properties: own
    properties first, then the prototype chain, else [undefined]. *)
Definition get_property (obj : list (string * string)) (k : string) : JSVal :=
  match own_property obj k with
  | Some v => JStr v
  | None => if inherited k then JInherited k else JUndefined
  end.

(** [s.split(sep)] for a one-character separator.  The result is never
    empty. *)
Fixpoint split (sep : ascii) (s : string) : list string :=
  match s with
  | EmptyString => [EmptyString]
  | String c rest =>
      if Ascii.eqb c sep then EmptyString :: split sep rest
      else match split sep rest with
           | piece :: pieces => String c piece :: pieces
           | [] => [String c EmptyString]
           end
  end.

(** ** The shader registry *)

Definition basicVertexShader : string :=
"
attribute vec2 a_position;
varying vec2 v_texCoord;

void main() {
  v_texCoord = vec2(a_position.x * 0.5 + 0.5, a_position.y * 0.5 + 0.5);
  gl_Position = vec4(a_position, 0, 1);
}
".

Definition shader_passthrough : string :=
"
    precision mediump float;
    uniform sampler2D u_image;
    varying vec2 v_texCoord;
    void main() {
      gl_FragColor = texture2D(u_image, v_texCoord);
    }
  ".

Definition shader_debug : string :=
"
    precision mediump float;
    uniform sampler2D u_image;
    varying vec2 v_texCoord;
    void main() {
      vec3 color = texture2D(u_image, v_texCoord).rgb;
      color.r = min(color.r + 0.5, 1.0);
      gl_FragColor = vec4(color, 1.0);
    }
  ".

Definition shader_brightness : string :=
"
    precision mediump float;
    uniform sampler2D u_image;
    uniform float u_value;
    varying vec2 v_texCoord;
    void main() {
      vec3 color = texture2D(u_image, v_texCoord).rgb;
      color += u_value * 0.01;
      gl_FragColor = vec4(clamp(color, 0.0, 1.0), 1.0);
    }
  ".

Definition shader_contrast : string :=
"
    precision mediump float;
    uniform sampler2D u_image;
    uniform float u_value;
    varying vec2 v_texCoord;
    void main() {
      vec3 color = texture2D(u_image, v_texCoord).rgb;
      color = (color - 0.5) * u_value + 0.5;
      gl_FragColor = vec4(clamp(color, 0.0, 1.0), 1.0);
    }
  ".

Definition shader_saturation : string :=
"
    precision mediump float;
    uniform sampler2D u_image;
    uniform float u_value;
    varying vec2 v_texCoord;
    void main() {
      vec3 color = texture2D(u_image, v_texCoord).rgb;
      float gray = dot(color, vec3(0.299, 0.587, 0.114));
      vec3 saturated = mix(vec3(gray), color, u_value);
      gl_FragColor = vec4(clamp(saturated, 0.0, 1.0), 1.0);
    }
  ".

Definition shader_blur : string :=
"
    precision mediump float;
    uniform sampler2D u_image;
    uniform float u_radius;
    uniform vec2 u_resolution;
    varying vec2 v_texCoord;
    void main() {
      vec2 texelSize = 1.0 / u_resolution;
      vec3 color = vec3(0.0);
      float totalWeight = 0.0;
      for (int x = -2; x <= 2; x++) {
        for (int y = -2; y <= 2; y++) {
          vec2 offset = vec2(float(x), float(y)) * texelSize * u_radius;
          color += texture2D(u_image, v_texCoord + offset).rgb;
          totalWeight += 1.0;
        }
      }
      gl_FragColor = vec4(color / totalWeight, 1.0);
    }
  ".

Definition shader_sharpen : string :=
"
    precision mediump float;
    uniform sampler2D u_image;
    uniform float u_strength;
    uniform vec2 u_resolution;
    varying vec2 v_texCoord;
    void main() {
      vec2 texelSize = 1.0 / u_resolution;
      vec3 center = texture2D(u_image, v_texCoord).rgb;
      vec3 blur = (
        texture2D(u_image, v_texCoord + vec2(-texelSize.x, 0.0)).rgb +
        texture2D(u_image, v_texCoord + vec2(texelSize.x, 0.0)).rgb +
        texture2D(u_image, v_texCoord + vec2(0.0, -texelSize.y)).rgb +
        texture2D(u_image, v_texCoord + vec2(0.0, texelSize.y)).rgb
      ) * 0.25;
      vec3 sharpened = center + (center - blur) * u_strength;
      gl_FragColor = vec4(clamp(sharpened, 0.0, 1.0), 1.0);
    }
  ".

Definition shader_edge : string :=
"
    precision mediump float;
    uniform sampler2D u_image;
    uniform float u_threshold;
    uniform vec2 u_resolution;
    varying vec2 v_texCoord;
    void main() {
      vec2 texelSize = 1.0 / u_resolution;
      vec3 tl = texture2D(u_image, v_texCoord + vec2(-texelSize.x, -texelSize.y)).rgb;
      vec3 tm = texture2D(u_image, v_texCoord + vec2(0.0, -texelSize.y)).rgb;
      vec3 tr = texture2D(u_image, v_texCoord + vec2(texelSize.x, -texelSize.y)).rgb;
      vec3 ml = texture2D(u_image, v_texCoord + vec2(-texelSize.x, 0.0)).rgb;
      vec3 mr = texture2D(u_image, v_texCoord + vec2(texelSize.x, 0.0)).rgb;
      vec3 bl = texture2D(u_image, v_texCoord + vec2(-texelSize.x, texelSize.y)).rgb;
      vec3 bm = texture2D(u_image, v_texCoord + vec2(0.0, texelSize.y)).rgb;
      vec3 br = texture2D(u_image, v_texCoord + vec2(texelSize.x, texelSize.y)).rgb;
      vec3 gx = -tl + tr - 2.0*ml + 2.0*mr - bl + br;
      vec3 gy = -tl - 2.0*tm - tr + bl + 2.0*bm + br;
      float magnitude = length(gx) + length(gy);
      float edge = step(u_threshold, magnitude);
      gl_FragColor = vec4(vec3(edge), 1.0);
    }
  ".

Definition shader_noise : string :=
"
    precision mediump float;
    uniform sampler2D u_image;
    uniform float u_strength;
    uniform vec2 u_resolution;
    varying vec2 v_texCoord;
    void main() {
      vec2 texelSize = 1.0 / u_resolution;
      vec3 center = texture2D(u_image, v_texCoord).rgb;
      vec3 sum = vec3(0.0);
      sum += texture2D(u_image, v_texCoord + vec2(-texelSize.x, -texelSize.y)).rgb;
      sum += texture2D(u_image, v_texCoord + vec2(0.0, -texelSize.y)).rgb;
      sum += texture2D(u_image, v_texCoord + vec2(texelSize.x, -texelSize.y)).rgb;
      sum += texture2D(u_image, v_texCoord + vec2(-texelSize.x, 0.0)).rgb;
      sum += texture2D(u_image, v_texCoord).rgb;
      sum += texture2D(u_image, v_texCoord + vec2(texelSize.x, 0.0)).rgb;
      sum += texture2D(u_image, v_texCoord + vec2(-texelSize.x, texelSize.y)).rgb;
      sum += texture2D(u_image, v_texCoord + vec2(0.0, texelSize.y)).rgb;
      sum += texture2D(u_image, v_texCoord + vec2(texelSize.x, texelSize.y)).rgb;
      vec3 filtered = sum / 9.0;
      vec3 result = mix(center, filtered, u_strength);
      gl_FragColor = vec4(result, 1.0);
    }
  ".

Definition shader_bilateral : string :=
"
    precision mediump float;
    uniform sampler2D u_image;
    uniform float u_spatial;
    uniform float u_color;
    uniform vec2 u_resolution;
    varying vec2 v_texCoord;
    void main() {
      vec2 texelSize = 1.0 / u_resolution;
      vec3 centerColor = texture2D(u_image, v_texCoord).rgb;
      vec3 sum = vec3(0.0);
      float totalWeight = 0.0;
      for (int x = -2; x <= 2; x++) {
        for (int y = -2; y <= 2; y++) {
          vec2 offset = vec2(float(x), float(y)) * texelSize;
          vec3 sampleColor = texture2D(u_image, v_texCoord + offset).rgb;
          float spatialDist = length(vec2(float(x), float(y)));
          float colorDist = length(sampleColor - centerColor);
          float spatialWeight = exp(-spatialDist * spatialDist / (2.0 * u_spatial * u_spatial));
          float colorWeight = exp(-colorDist * colorDist / (2.0 * u_color * u_color));
          float weight = spatialWeight * colorWeight;
          sum += sampleColor * weight;
          totalWeight += weight;
        }
      }
      if (totalWeight > 0.0) {
        gl_FragColor = vec4(sum / totalWeight, 1.0);
      } else {
        gl_FragColor = vec4(centerColor, 1.0);
      }
    }
  ".

(** The [shaders] object literal, own properties in source order. *)
Definition shaders : list (string * string) :=
  [ ("passthrough", shader_passthrough); ("debug", shader_debug);
    ("brightness", shader_brightness); ("contrast", shader_contrast);
    ("saturation", shader_saturation); ("blur", shader_blur);
    ("sharpen", shader_sharpen); ("edge", shader_edge);
    ("noise", shader_noise); ("bilateral", shader_bilateral) ].

(** [getShaderForFilter]: [shaders[filterId.split('-')[0]] || shaders.passthrough]. *)
Definition baseId_of (filterId : string) : string :=
  hd "" (split "-" filterId).

Definition getShaderForFilter (filterId : string) : JSVal :=
  let baseId := baseId_of filterId in
  let found := get_property shaders baseId in
  if truthy found then found else JStr shader_passthrough.

(** ** Data model *)

Record Filter : Type := {
  id : string;
  name : string;
  type : string;
  parameters : list (string * Q);   (* in [Object.entries] order *)
  enabled : bool
}.

(** A decoded image: its own pixel size and its pixel data. *)
Record Image : Type := {
  naturalWidth : Z;
  naturalHeight : Z;
  pixels : list Z
}.

(** Kinds of device objects the code creates. *)
Inductive ResKind : Type :=
| KBuffer | KShader | KProgram | KTexture | KFramebuffer | KQuery.

Definition ResKind_eqb (a b : ResKind) : bool :=
  match a, b with
  | KBuffer, KBuffer | KShader, KShader | KProgram, KProgram
  | KTexture, KTexture | KFramebuffer, KFramebuffer | KQuery, KQuery => true
  | _, _ => false
  end.

Inductive Stage : Type := VERTEX_SHADER | FRAGMENT_SHADER.

(** Values of the [uniforms] object handed to [renderFilter]. *)
Inductive UVal : Type :=
| UTex (texture : nat)
| UVec2 (x y : Z)
| UNum (q : Q).

(** One call of [gl.drawElements], with what was bound at that moment. *)
Record Pass : Type := {
  pass_input : nat;                         (* texture bound to unit 0 *)
  pass_frag : JSVal;                        (* fragment source of the program *)
  pass_uniforms : list (string * UVal);
  pass_target : option nat;                 (* framebuffer; [None] is the canvas *)
  pass_width : Z;
  pass_height : Z
}.

(** What a surface holds, symbolically: nothing yet, the clear colour, an
    uploaded image, or the output of a fragment program run over the
    content of its input texture at a given viewport size. *)
Inductive Content : Type :=
| Blank
| Black
| Uploaded (img : Image)
| Shaded (frag : JSVal) (uniforms : list (string * UVal)) (w h : Z) (input : Content).

(** The device call log. *)
Inductive Event : Type :=
| EvCreate (k : ResKind) (obj : nat)
| EvDelete (k : ResKind) (obj : nat)
| EvCompile (stage : Stage) (source : JSVal) (shader : nat)
| EvLink (program : nat)
| EvClear
| EvDraw (p : Pass)
| EvFinish.

(** Everything the environment decides. *)
Record Device : Type := {
  dev_decode : string -> option Image;     (* [img.onload] with this image, or [img.onerror] *)
  dev_webgl : bool;                        (* [getContext] returns a context *)
  dev_timer_ext : bool;                    (* a disjoint-timer-query extension exists *)
  dev_creates : ResKind -> nat -> bool;    (* the create call numbered [n] returns an object *)
  dev_compile_log : Stage -> JSVal -> option string;
                                           (* [None]: COMPILE_STATUS holds; [Some log]: it fails with this info log *)
  dev_link_log : JSVal -> JSVal -> option string;
                                           (* the same for LINK_STATUS *)
  dev_fb_complete : Z -> Z -> bool;        (* [checkFramebufferStatus] for a w x h colour attachment *)
  dev_now : nat -> Q;                      (* the n-th reading of [performance.now()] *)
  dev_type_error : string                  (* message of the TypeError that [beginQueryEXT] raises when handed [null] *)
}.

(** The state of the rendering context. *)
Record GL : Type := {
  gl_next : nat;                           (* number of create calls so far *)
  gl_clock : nat;                          (* number of clock readings so far *)
  gl_log : list Event;                     (* oldest first *)
  gl_bound : option nat;                   (* FRAMEBUFFER binding *)
  gl_texture : list (nat * Content);       (* texture contents, latest first *)
  gl_attach : list (nat * nat);            (* framebuffer -> colour attachment *)
  gl_canvas : Content
}.

(** The private fields of [WebGLProcessor]. *)
Record Processor : Type := {
  programs : list (JSVal * nat);           (* the [Map], in insertion order *)
  framebuffers : list nat;
  textures : list nat;
  positionBuffer : option nat;
  indexBuffer : option nat;
  ext : bool
}.

Record St : Type := { gl : GL; this : Processor }.

Definition gl0 : GL :=
  {| gl_next := 0; gl_clock := 0; gl_log := []; gl_bound := None;
     gl_texture := []; gl_attach := []; gl_canvas := Blank |}.

Definition this0 : Processor :=
  {| programs := []; framebuffers := []; textures := [];
     positionBuffer := None; indexBuffer := None; ext := false |}.

Definition st0 : St := {| gl := gl0; this := this0 |}.

Record FBO : Type := { framebuffer : nat; texture : nat }.

Record Encoded : Type := {
  enc_width : Z;
  enc_height : Z;
  enc_content : Content
}.

(** [canvas.width = value] and [canvas.height = value] for an integer
    [value]: the number is converted to an [unsigned long] (modulo 2^32),
    and the attribute keeps what lies in 0 .. 2^31 - 1 and takes its default
    (300 for the width, 150 for the height) otherwise. *)
Definition canvas_dimension (default value : Z) : Z :=
  let n := (value mod 2 ^ 32)%Z in
  if (n <=? 2147483647)%Z then n else default.

(** The double nearest to an integer, ties to even: an integer of magnitude
    up to 2^53 is a double, a larger one keeps its 53 leading bits. *)
Definition binary64 (n : Z) : Z :=
  let a := Z.abs n in
  if (a <=? 2 ^ 53)%Z then n
  else
    let e := (Z.log2 a - 52)%Z in
    let q := (a / 2 ^ e)%Z in
    let r := (a mod 2 ^ e)%Z in
    let half := (2 ^ (e - 1))%Z in
    let q' := if (r <? half)%Z then q
              else if (half <? r)%Z then (q + 1)%Z
              else if Z.even q then q else (q + 1)%Z in
    (Z.sgn n * (q' * 2 ^ e))%Z.

(** [a * b] on two numbers that hold integers. *)
Definition number_mul (a b : Z) : Z := binary64 (a * b).

Record ProcessingResult : Type := {
  success : bool;
  gpuTime : Q;
  totalTime : Q;
  memoryUsage : Q;
  imageDataUrl : option Encoded;
  error : option string
}.

(** ** Effects: state that survives a [throw] *)

Inductive Outcome (A : Type) : Type :=
| Ok (a : A)
| Thrown (message : string).
Arguments Ok {A} a.
Arguments Thrown {A} message.

Definition M (A : Type) : Type := St -> Outcome A * St.

Definition ret {A} (a : A) : M A := fun s => (Ok a, s).

Definition bind {A B} (m : M A) (k : A -> M B) : M B :=
  fun s => match m s with
           | (Ok a, s') => k a s'
           | (Thrown e, s') => (Thrown e, s')
           end.

Definition throw {A} (message : string) : M A := fun s => (Thrown message, s).

Definition get_gl : M GL := fun s => (Ok (gl s), s).
Definition get_this : M Processor := fun s => (Ok (this s), s).
Definition set_gl (f : GL -> GL) : M unit :=
  fun s => (Ok tt, {| gl := f (gl s); this := this s |}).
Definition set_this (f : Processor -> Processor) : M unit :=
  fun s => (Ok tt, {| gl := gl s; this := f (this s) |}).

Declare Scope gl_scope.
Delimit Scope gl_scope with gl.
Notation "x <- m ;; k" := (bind m (fun x => k))
  (at level 61, m at next level, right associativity) : gl_scope.
Notation "m ;; k" := (bind m (fun _ => k))
  (at level 61, right associativity) : gl_scope.
Local Open Scope gl_scope.

Fixpoint forEach {A} (f : A -> M unit) (l : list A) : M unit :=
  match l with
  | [] => ret tt
  | a :: rest => f a ;; forEach f rest
  end.

(** Field updates of the context. *)
Definition log_event (e : Event) (g : GL) : GL :=
  {| gl_next := gl_next g; gl_clock := gl_clock g; gl_log := gl_log g ++ [e];
     gl_bound := gl_bound g; gl_texture := gl_texture g;
     gl_attach := gl_attach g; gl_canvas := gl_canvas g |}.

Definition bump_next (g : GL) : GL :=
  {| gl_next := S (gl_next g); gl_clock := gl_clock g; gl_log := gl_log g;
     gl_bound := gl_bound g; gl_texture := gl_texture g;
     gl_attach := gl_attach g; gl_canvas := gl_canvas g |}.

Definition bump_clock (g : GL) : GL :=
  {| gl_next := gl_next g; gl_clock := S (gl_clock g); gl_log := gl_log g;
     gl_bound := gl_bound g; gl_texture := gl_texture g;
     gl_attach := gl_attach g; gl_canvas := gl_canvas g |}.

Definition bind_fb (fb : option nat) (g : GL) : GL :=
  {| gl_next := gl_next g; gl_clock := gl_clock g; gl_log := gl_log g;
     gl_bound := fb; gl_texture := gl_texture g;
     gl_attach := gl_attach g; gl_canvas := gl_canvas g |}.

Definition store_texture (t : nat) (c : Content) (g : GL) : GL :=
  {| gl_next := gl_next g; gl_clock := gl_clock g; gl_log := gl_log g;
     gl_bound := gl_bound g; gl_texture := (t, c) :: gl_texture g;
     gl_attach := gl_attach g; gl_canvas := gl_canvas g |}.

Definition attach_texture (fb t : nat) (g : GL) : GL :=
  {| gl_next := gl_next g; gl_clock := gl_clock g; gl_log := gl_log g;
     gl_bound := gl_bound g; gl_texture := gl_texture g;
     gl_attach := (fb, t) :: gl_attach g; gl_canvas := gl_canvas g |}.

Definition store_canvas (c : Content) (g : GL) : GL :=
  {| gl_next := gl_next g; gl_clock := gl_clock g; gl_log := gl_log g;
     gl_bound := gl_bound g; gl_texture := gl_texture g;
     gl_attach := gl_attach g; gl_canvas := c |}.

Fixpoint lookup_nat {A} (k : nat) (m : list (nat * A)) : option A :=
  match m with
  | [] => None
  | (k', v) :: rest => if Nat.eqb k k' then Some v else lookup_nat k rest
  end.

Definition texture_content (g : GL) (t : nat) : Content :=
  match lookup_nat t (gl_texture g) with Some c => c | None => Blank end.

(** Writing to the colour buffer of a framebuffer binding: the canvas for
    [None], the attached texture otherwise (nothing when none is attached). *)
Definition write_target (fb : option nat) (c : Content) (g : GL) : GL :=
  match fb with
  | None => store_canvas c g
  | Some f => match lookup_nat f (gl_attach g) with
              | Some t => store_texture t c g
              | None => g
              end
  end.

(** ** [WebGLProcessor] *)

Section Processor.

Variable dev : Device.

(** [gl.createX()]: the object, or [null]. *)
Definition create (k : ResKind) : M (option nat) :=
  g <- get_gl ;;
  let n := gl_next g in
  set_gl bump_next ;;
  if dev_creates dev k n
  then set_gl (log_event (EvCreate k n)) ;; ret (Some n)
  else ret None.

(** [gl.deleteX(obj)]. *)
Definition delete (k : ResKind) (obj : nat) : M unit :=
  set_gl (log_event (EvDelete k obj)).

(** [performance.now()]. *)
Definition now : M Q :=
  g <- get_gl ;;
  set_gl bump_clock ;;
  ret (dev_now dev (gl_clock g)).

(** The constructor: context, timer extension, then [setupGeometry], whose
    two [createBuffer] results are stored unchecked. *)
Definition setupGeometry : M unit :=
  pb <- create KBuffer ;;
  set_this (fun p =>
    {| programs := programs p; framebuffers := framebuffers p;
       textures := textures p; positionBuffer := pb;
       indexBuffer := indexBuffer p; ext := ext p |}) ;;
  ib <- create KBuffer ;;
  set_this (fun p =>
    {| programs := programs p; framebuffers := framebuffers p;
       textures := textures p; positionBuffer := positionBuffer p;
       indexBuffer := ib; ext := ext p |}).

Definition new_WebGLProcessor : M unit :=
  if negb (dev_webgl dev) then throw "WebGL not supported"
  else
    set_this (fun p =>
      {| programs := programs p; framebuffers := framebuffers p;
         textures := textures p; positionBuffer := positionBuffer p;
         indexBuffer := indexBuffer p; ext := dev_timer_ext dev |}) ;;
    setupGeometry.

Definition compileShader (source : JSVal) (stage : Stage) : M nat :=
  created <- create KShader ;;
  match created with
  | None => throw "Failed to create shader"
  | Some shader =>
      set_gl (log_event (EvCompile stage source shader)) ;;
      match dev_compile_log dev stage source with
      | Some info =>
          delete KShader shader ;;
          throw ("Shader compilation error: " ++ info)
      | None => ret shader
      end
  end.

Definition createProgram (vertexSource fragmentSource : JSVal) : M nat :=
  vertexShader <- compileShader vertexSource VERTEX_SHADER ;;
  fragmentShader <- compileShader fragmentSource FRAGMENT_SHADER ;;
  created <- create KProgram ;;
  match created with
  | None => throw "Failed to create program"
  | Some program =>
      set_gl (log_event (EvLink program)) ;;
      match dev_link_log dev vertexSource fragmentSource with
      | Some info =>
          delete KProgram program ;;
          throw ("Program linking error: " ++ info)
      | None =>
          delete KShader vertexShader ;;
          delete KShader fragmentShader ;;
          ret program
      end
  end.

(** The program [Map]: [get], and [set] (a new key goes last, an existing
    key keeps its place). *)
Fixpoint Map_get (k : JSVal) (m : list (JSVal * nat)) : option nat :=
  match m with
  | [] => None
  | (k', v) :: rest => if JSVal_eqb k k' then Some v else Map_get k rest
  end.

Fixpoint Map_set (k : JSVal) (v : nat) (m : list (JSVal * nat)) : list (JSVal * nat) :=
  match m with
  | [] => [(k, v)]
  | (k', v') :: rest =>
      if JSVal_eqb k k' then (k', v) :: rest else (k', v') :: Map_set k v rest
  end.

(** [getProgram]: the source tests [has], fills the cache when the key is
    missing, and returns [get]; here the two branches return directly. *)
Definition getProgram (fragmentShader : JSVal) : M nat :=
  p <- get_this ;;
  match Map_get fragmentShader (programs p) with
  | Some program => ret program
  | None =>
      program <- createProgram (JStr basicVertexShader) fragmentShader ;;
      set_this (fun p =>
        {| programs := Map_set fragmentShader program (programs p);
           framebuffers := framebuffers p; textures := textures p;
           positionBuffer := positionBuffer p; indexBuffer := indexBuffer p;
           ext := ext p |}) ;;
      ret program
  end.

Definition push_texture (t : nat) : M unit :=
  set_this (fun p =>
    {| programs := programs p; framebuffers := framebuffers p;
       textures := textures p ++ [t]; positionBuffer := positionBuffer p;
       indexBuffer := indexBuffer p; ext := ext p |}).

Definition push_framebuffer (fb : nat) : M unit :=
  set_this (fun p =>
    {| programs := programs p; framebuffers := framebuffers p ++ [fb];
       textures := textures p; positionBuffer := positionBuffer p;
       indexBuffer := indexBuffer p; ext := ext p |}).

Definition createTexture (image : Image) : M nat :=
  created <- create KTexture ;;
  match created with
  | None => throw "Failed to create texture"
  | Some t =>
      set_gl (store_texture t (Uploaded image)) ;;
      push_texture t ;;
      ret t
  end.

Definition createFramebuffer (width height : Z) : M FBO :=
  created <- create KTexture ;;
  match created with
  | None => throw "Failed to create framebuffer texture"
  | Some t =>
      set_gl (store_texture t Blank) ;;
      created' <- create KFramebuffer ;;
      match created' with
      | None => throw "Failed to create framebuffer"
      | Some fb =>
          set_gl (bind_fb (Some fb)) ;;
          set_gl (attach_texture fb t) ;;
          if negb (dev_fb_complete dev width height)
          then throw "Framebuffer not complete"
          else
            push_framebuffer fb ;;
            push_texture t ;;
            ret {| framebuffer := fb; texture := t |}
      end
  end.

(** [renderFilter]: program, clock, optional timer query (created, never
    deleted), bind, draw, [finish], clock.  The result of [createQueryEXT]
    goes unchecked into [beginQueryEXT], whose parameter is not nullable:
    handed [null], the call raises a TypeError. *)
Definition renderFilter (inputTexture : nat) (fragmentShader : JSVal)
    (uniforms : list (string * UVal)) (fb : option nat)
    (width height : Z) : M Q :=
  _program <- getProgram fragmentShader ;;
  startTime <- now ;;
  p <- get_this ;;
  (if ext p then
     query <- create KQuery ;;
     match query with
     | Some _ => ret tt
     | None => throw (dev_type_error dev)
     end
   else ret tt) ;;
  set_gl (bind_fb fb) ;;
  set_gl (log_event (EvDraw
    {| pass_input := inputTexture; pass_frag := fragmentShader;
       pass_uniforms := uniforms; pass_target := fb;
       pass_width := width; pass_height := height |})) ;;
  set_gl (fun g =>
    write_target fb
      (Shaded fragmentShader uniforms width height (texture_content g inputTexture)) g) ;;
  set_gl (log_event EvFinish) ;;
  endTime <- now ;;
  ret (endTime - startTime)%Q.

(** [clear]: clears whatever framebuffer is bound. *)
Definition clear : M unit :=
  set_gl (log_event EvClear) ;;
  set_gl (fun g => write_target (gl_bound g) Black g).

(** [getCanvasDataURL]: the encoding of the canvas the context belongs to,
    at the size of that canvas.  (A canvas with a zero dimension has no
    pixels; its encoding is the record with that zero dimension.) *)
Definition getCanvasDataURL (canvasWidth canvasHeight : Z) : M Encoded :=
  g <- get_gl ;;
  ret {| enc_width := canvasWidth; enc_height := canvasHeight;
         enc_content := gl_canvas g |}.

(** [getMemoryUsage]: [(width * height * 4 * numTextures) / (1024 * 1024)]
    on numbers, from left to right.  For sizes that are integers a number
    holds exactly (up to 2^53 in magnitude) every product stays far below
    the largest double, so each is the exact product rounded to the nearest
    double; the division by 2^20 only changes the exponent and is exact. *)
Definition getMemoryUsage (width height numTextures : Z) : Q :=
  (inject_Z (number_mul (number_mul (number_mul width height) 4) numTextures)
   / (1024 * 1024))%Q.

Definition delete_opt (k : ResKind) (o : option nat) : M unit :=
  match o with Some obj => delete k obj | None => ret tt end.

Definition destroy : M unit :=
  p <- get_this ;;
  forEach (fun kv => delete KProgram (snd kv)) (programs p) ;;
  set_this (fun p =>
    {| programs := []; framebuffers := framebuffers p; textures := textures p;
       positionBuffer := positionBuffer p; indexBuffer := indexBuffer p;
       ext := ext p |}) ;;
  p <- get_this ;;
  forEach (delete KFramebuffer) (framebuffers p) ;;
  set_this (fun p =>
    {| programs := programs p; framebuffers := []; textures := textures p;
       positionBuffer := positionBuffer p; indexBuffer := indexBuffer p;
       ext := ext p |}) ;;
  p <- get_this ;;
  forEach (delete KTexture) (textures p) ;;
  set_this (fun p =>
    {| programs := programs p; framebuffers := framebuffers p; textures := [];
       positionBuffer := positionBuffer p; indexBuffer := indexBuffer p;
       ext := ext p |}) ;;
  p <- get_this ;;
  delete_opt KBuffer (positionBuffer p) ;;
  delete_opt KBuffer (indexBuffer p).

(** ** [processImageWithPipeline] *)

(** [obj[k] = v] on the [uniforms] object: an existing key keeps its place,
    a new one goes last (the order [Object.entries] reports). *)
Fixpoint set_uniform (k : string) (v : UVal) (o : list (string * UVal))
  : list (string * UVal) :=
  match o with
  | [] => [(k, v)]
  | (k', v') :: rest =>
      if String.eqb k k' then (k', v) :: rest else (k', v') :: set_uniform k v rest
  end.

Definition build_uniforms (currentTexture : nat) (width height : Z)
    (params : list (string * Q)) : list (string * UVal) :=
  fold_left (fun u kv => set_uniform ("u_" ++ fst kv) (UNum (snd kv)) u)
    params
    [("u_image", UTex currentTexture); ("u_resolution", UVec2 width height)].

(** The locals the [forEach] callback reads and reassigns. *)
Record Locals : Type := {
  currentTexture : nat;
  currentFBO : FBO;
  nextFBO : FBO;
  totalGpuTime : Q
}.

Section Run.

Variables width height : Z.

(** One call of the [forEach] callback. *)
Definition pass (count : nat) (filter : Filter) (index : nat) (v : Locals) : M Locals :=
  let fragmentShader := getShaderForFilter (id filter) in
  let isLastFilter := Nat.eqb index (count - 1) in
  let uniforms := build_uniforms (currentTexture v) width height (parameters filter) in
  gpuTime <- renderFilter (currentTexture v) fragmentShader uniforms
               (if isLastFilter then None else Some (framebuffer (currentFBO v)))
               width height ;;
  let total := (totalGpuTime v + gpuTime)%Q in
  if negb isLastFilter
  then ret {| currentTexture := texture (currentFBO v);
              currentFBO := nextFBO v;
              nextFBO := currentFBO v;
              totalGpuTime := total |}
  else ret {| currentTexture := currentTexture v;
              currentFBO := currentFBO v;
              nextFBO := nextFBO v;
              totalGpuTime := total |}.

(** [enabledFilters.forEach((filter, index) => ...)], from [index] on. *)
Fixpoint passes_from (count : nat) (filters : list Filter) (index : nat) (v : Locals)
  : M Locals :=
  match filters with
  | [] => ret v
  | filter :: rest =>
      v' <- pass count filter index v ;;
      passes_from count rest (S index) v'
  end.

(** The part of the [try] block up to the filter selection. *)
Definition setup (img : Image) : M (nat * FBO * FBO) :=
  new_WebGLProcessor ;;
  inputTexture <- createTexture img ;;
  fbo1 <- createFramebuffer width height ;;
  fbo2 <- createFramebuffer width height ;;
  ret (inputTexture, fbo1, fbo2).

(** The rendering branch: returns [totalGpuTime]. *)
Definition render (enabledFilters : list Filter) (inputTexture : nat)
    (fbo1 fbo2 : FBO) : M Q :=
  match enabledFilters with
  | [] =>
      clear ;;
      gpuTime <- renderFilter inputTexture (JStr shader_passthrough)
                   [("u_image", UTex inputTexture)] None width height ;;
      ret (0 + gpuTime)%Q
  | _ :: _ =>
      clear ;;
      v <- passes_from (length enabledFilters) enabledFilters 0
             {| currentTexture := inputTexture; currentFBO := fbo1;
                nextFBO := fbo2; totalGpuTime := 0 |} ;;
      ret (totalGpuTime v)
  end.

(** The body of the [try] block.  The canvas was made before the image
    loaded, with [canvas.width = width] and [canvas.height = height]. *)
Definition try_block (img : Image) (pipeline : list Filter) (totalStartTime : Q)
  : M ProcessingResult :=
  handles <- setup img ;;
  let '(inputTexture, fbo1, fbo2) := handles in
  let enabledFilters := filter enabled pipeline in
  totalGpu <- render enabledFilters inputTexture fbo1 fbo2 ;;
  t <- now ;;
  let total := (t - totalStartTime)%Q in
  let memory := getMemoryUsage width height (Z.of_nat (length enabledFilters) + 2) in
  url <- getCanvasDataURL (canvas_dimension 300 width) (canvas_dimension 150 height) ;;
  destroy ;;
  ret {| success := true; gpuTime := totalGpu; totalTime := total;
         memoryUsage := memory; imageDataUrl := Some url; error := None |}.

Definition failure (message : string) : ProcessingResult :=
  {| success := false; gpuTime := 0; totalTime := 0; memoryUsage := 0;
     imageDataUrl := None; error := Some message |}.

(** [img.onload]: the clock, then [try { ... } catch (error) { ... }]; every
    [throw] of the source carries an [Error], so the handler reports its
    message. *)
Definition onload (img : Image) (pipeline : list Filter) : M ProcessingResult :=
  totalStartTime <- now ;;
  fun s => match try_block img pipeline totalStartTime s with
           | (Ok r, s') => (Ok r, s')
           | (Thrown message, s') => (Ok (failure message), s')
           end.

(** The promise: what it resolves with, and the device state it leaves. *)
Definition run (imageSrc : string) (pipeline : list Filter) : ProcessingResult * St :=
  match dev_decode dev imageSrc with
  | None => (failure "Failed to load image", st0)
  | Some img =>
      match onload img pipeline st0 with
      | (Ok r, s) => (r, s)
      | (Thrown message, s) => (failure message, s)
      end
  end.

Definition processImageWithPipeline (imageSrc : string) (pipeline : list Filter)
  : ProcessingResult :=
  fst (run imageSrc pipeline).

End Run.

End Processor.

(** ** Reading the device log *)

Definition created_of (k : ResKind) (e : Event) : bool :=
  match e with EvCreate k' _ => ResKind_eqb k k' | _ => false end.

Definition is_create (e : Event) : bool :=
  match e with EvCreate _ _ => true | _ => false end.

Definition is_delete (e : Event) : bool :=
  match e with EvDelete _ _ => true | _ => false end.

Definition deletes (k : ResKind) (obj : nat) (e : Event) : bool :=
  match e with EvDelete k' obj' => ResKind_eqb k k' && Nat.eqb obj obj' | _ => false end.

(** The allocation ledger. *)
Definition allocations (log : list Event) : nat := length (List.filter is_create log).
Definition releases (log : list Event) : nat := length (List.filter is_delete log).
Definition allocated (k : ResKind) (log : list Event) : nat :=
  length (List.filter (created_of k) log).
Definition times_released (k : ResKind) (obj : nat) (log : list Event) : nat :=
  length (List.filter (deletes k obj) log).

(** Objects created and not deleted since. *)
Fixpoint live (log : list Event) (acc : list (ResKind * nat)) : list (ResKind * nat) :=
  match log with
  | [] => acc
  | EvCreate k obj :: rest => live rest (acc ++ [(k, obj)])
  | EvDelete k obj :: rest =>
      live rest (List.filter (fun r => negb (ResKind_eqb k (fst r) && Nat.eqb obj (snd r))) acc)
  | _ :: rest => live rest acc
  end.

(** The draw calls, in order. *)
Fixpoint draws (log : list Event) : list Pass :=
  match log with
  | [] => []
  | EvDraw p :: rest => p :: draws rest
  | _ :: rest => draws rest
  end.

(** Fragment compilations issued for a source. *)
Definition compiles_of (source : JSVal) (e : Event) : bool :=
  match e with
  | EvCompile FRAGMENT_SHADER s _ => JSVal_eqb source s
  | _ => false
  end.

(** ** Concrete devices, images and pipelines used in the examples *)

Definition sample_image : Image :=
  {| naturalWidth := 2; naturalHeight := 2;
     pixels := [4278190335; 16711935; 65535; 4294967295]%Z |}.

(** A device on which every call succeeds; the clock advances by one
    millisecond per reading. *)
Definition working_device : Device :=
  {| dev_decode := fun _ => Some sample_image;
     dev_webgl := true;
     dev_timer_ext := false;
     dev_creates := fun _ _ => true;
     dev_compile_log := fun _ _ => None;
     dev_link_log := fun _ _ => None;
     dev_fb_complete := fun _ _ => true;
     dev_now := fun n => inject_Z (Z.of_nat n);
     dev_type_error :=
       "Failed to execute 'beginQueryEXT' on 'EXTDisjointTimerQuery': parameter 2 is not of type 'WebGLTimerQueryEXT'." |}.

(** The same device with the timer-query extension. *)
Definition timing_device : Device :=
  {| dev_decode := dev_decode working_device;
     dev_webgl := true;
     dev_timer_ext := true;
     dev_creates := fun _ _ => true;
     dev_compile_log := fun _ _ => None;
     dev_link_log := fun _ _ => None;
     dev_fb_complete := fun _ _ => true;
     dev_now := dev_now working_device;
     dev_type_error := dev_type_error working_device |}.

(** A device whose compiler accepts source text and rejects anything that
    is not a string. *)
Definition glsl_device : Device :=
  {| dev_decode := dev_decode working_device;
     dev_webgl := true;
     dev_timer_ext := false;
     dev_creates := fun _ _ => true;
     dev_compile_log := fun _ source =>
       match source with
       | JStr _ => None
       | _ => Some "ERROR: 0:1: 'function' : syntax error"
       end;
     dev_link_log := fun _ _ => None;
     dev_fb_complete := fun _ _ => true;
     dev_now := dev_now working_device;
     dev_type_error := dev_type_error working_device |}.

(** A device whose compiler rejects every fragment shader. *)
Definition failing_compile_device : Device :=
  {| dev_decode := dev_decode working_device;
     dev_webgl := true;
     dev_timer_ext := false;
     dev_creates := fun _ _ => true;
     dev_compile_log := fun stage _ =>
       match stage with
       | VERTEX_SHADER => None
       | FRAGMENT_SHADER => Some "ERROR: 0:1: syntax error"
       end;
     dev_link_log := fun _ _ => None;
     dev_fb_complete := fun _ _ => true;
     dev_now := dev_now working_device;
     dev_type_error := dev_type_error working_device |}.

(** A device whose linker rejects every program. *)
Definition failing_link_device : Device :=
  {| dev_decode := dev_decode working_device;
     dev_webgl := true;
     dev_timer_ext := false;
     dev_creates := fun _ _ => true;
     dev_compile_log := fun _ _ => None;
     dev_link_log := fun _ _ => Some "varyings do not match";
     dev_fb_complete := fun _ _ => true;
     dev_now := dev_now working_device;
     dev_type_error := dev_type_error working_device |}.

(** A browser without WebGL, and one that cannot load the image. *)
Definition no_webgl_device : Device :=
  {| dev_decode := dev_decode working_device;
     dev_webgl := false;
     dev_timer_ext := false;
     dev_creates := fun _ _ => true;
     dev_compile_log := fun _ _ => None;
     dev_link_log := fun _ _ => None;
     dev_fb_complete := fun _ _ => true;
     dev_now := dev_now working_device;
     dev_type_error := dev_type_error working_device |}.

Definition no_image_device : Device :=
  {| dev_decode := fun _ => None;
     dev_webgl := true;
     dev_timer_ext := false;
     dev_creates := fun _ _ => true;
     dev_compile_log := fun _ _ => None;
     dev_link_log := fun _ _ => None;
     dev_fb_complete := fun _ _ => true;
     dev_now := dev_now working_device;
     dev_type_error := dev_type_error working_device |}.

Definition mk_filter (filterId : string) (params : list (string * Q)) (on : bool) : Filter :=
  {| id := filterId; name := filterId; type := "filter";
     parameters := params; enabled := on |}.

Definition brightness10 : Filter := mk_filter "brightness-1" [("value", (10 # 1)%Q)] true.
Definition blur2 : Filter := mk_filter "blur-2" [("radius", (2 # 1)%Q)] true.
Definition sharpen1 : Filter := mk_filter "sharpen-3" [("strength", (1 # 1)%Q)] true.
Definition contrast_off : Filter := mk_filter "contrast-4" [("value", (3 # 2)%Q)] false.
Definition unknown_kind : Filter := mk_filter "vignette-5" [] true.
Definition inherited_kind : Filter := mk_filter "constructor-1" [] true.

Definition sample_pipeline : list Filter :=
  [brightness10; contrast_off; blur2; sharpen1].

(** A device on which no framebuffer is complete. *)
Definition incomplete_fb_device : Device :=
  {| dev_decode := dev_decode working_device;
     dev_webgl := true;
     dev_timer_ext := false;
     dev_creates := fun _ _ => true;
     dev_compile_log := fun _ _ => None;
     dev_link_log := fun _ _ => None;
     dev_fb_complete := fun _ _ => false;
     dev_now := dev_now working_device;
     dev_type_error := dev_type_error working_device |}.

(** The uniforms the brightness program declares. *)
Definition brightness_declares (name : string) : bool :=
  String.eqb name "u_image" || String.eqb name "u_value".

(** A device with the timer-query extension whose [createQueryEXT] returns
    [null] (a lost context). *)
Definition null_query_device : Device :=
  {| dev_decode := dev_decode working_device;
     dev_webgl := true;
     dev_timer_ext := true;
     dev_creates := fun k _ => match k with KQuery => false | _ => true end;
     dev_compile_log := fun _ _ => None;
     dev_link_log := fun _ _ => None;
     dev_fb_complete := fun _ _ => true;
     dev_now := dev_now working_device;
     dev_type_error := dev_type_error working_device |}.

(** ** Vocabulary of the statements *)

(** Whether a character occurs in a string. *)
Fixpoint occurs (c : ascii) (s : string) : bool :=
  match s with
  | EmptyString => false
  | String c' rest => Ascii.eqb c' c || occurs c rest
  end.

(** The off-screen target in use at pass [i]: the pair starts as
    [(fbo1, fbo2)] and is swapped after every pass but the last. *)
Definition target_at (fbo1 fbo2 : FBO) (i : nat) : FBO :=
  if Nat.even i then fbo1 else fbo2.

(** A draw call renders a filter: its program is the one resolved from the
    filter's id, and its uniforms are the sampler, the resolution and the
    filter's parameters. *)
Definition renders (width height : Z) (p : Pass) (f : Filter) : Prop :=
  pass_frag p = getShaderForFilter (id f) /\
  pass_uniforms p = build_uniforms (pass_input p) width height (parameters f) /\
  pass_width p = width /\ pass_height p = height.

(** An encoded result has the pixel dimensions of an image; two images that
    agree bit for bit do. *)
Definition same_dimensions (e : Encoded) (img : Image) : Prop :=
  enc_width e = naturalWidth img /\ enc_height e = naturalHeight img.

(** The surface a chain of filters produces from a starting content, with
    the texture each pass samples: the symbolic meaning of running the
    filters one after the other. *)
Fixpoint chain (width height : Z) (input : nat) (fbo1 fbo2 : FBO)
    (filters : list Filter) (index : nat) (c : Content) : Content :=
  match filters with
  | [] => c
  | f :: rest =>
      let t := match index with
               | O => input
               | S j => texture (target_at fbo1 fbo2 j)
               end in
      chain width height input fbo1 fbo2 rest (S index)
        (Shaded (getShaderForFilter (id f))
                (build_uniforms t width height (parameters f)) width height c)
  end.

(** How many times a fragment source has been handed to the compiler. *)
Definition fragment_compiles (source : JSVal) (log : list Event) : nat :=
  length (filter (compiles_of source) log).

(** The events [getProgram] can cause. *)
Definition compile_event (e : Event) : bool :=
  match e with
  | EvCreate KShader _ | EvCreate KProgram _ | EvCompile _ _ _ | EvLink _
  | EvDelete KShader _ | EvDelete KProgram _ => true
  | _ => false
  end.

(** The events the rendering phase can cause: those of [getProgram], timer
    queries, clears, draws and [finish]. *)
Definition render_event (e : Event) : bool :=
  match e with
  | EvCreate KQuery _ | EvClear | EvDraw _ | EvFinish => true
  | _ => compile_event e
  end.

(** The events of a whole run after its setup: rendering, then [destroy]. *)
Definition run_event (e : Event) : bool := render_event e || is_delete e.

(** The state after is the state before with more events in the log, all
    of them of one class. *)
Definition extends (P : Event -> bool) (s s' : St) : Prop :=
  exists evs, gl_log (gl s') = (gl_log (gl s) ++ evs)%list /\ forallb P evs = true.

(** The framebuffer attachments are the same. *)
Definition same_attach (s s' : St) : Prop :=
  gl_attach (gl s') = gl_attach (gl s).

(** The texture sampled by pass [i]. *)
Definition input_at (input : nat) (fbo1 fbo2 : FBO) (i : nat) : nat :=
  match i with
  | O => input
  | S j => texture (target_at fbo1 fbo2 j)
  end.

(** The draw call the loop issues for [filter] at position [index] of
    [count] enabled filters. *)
Definition planned_pass (width height : Z) (count : nat) (input : nat)
    (fbo1 fbo2 : FBO) (filter : Filter) (index : nat) : Pass :=
  {| pass_input := input_at input fbo1 fbo2 index;
     pass_frag := getShaderForFilter (id filter);
     pass_uniforms :=
       build_uniforms (input_at input fbo1 fbo2 index) width height (parameters filter);
     pass_target :=
       if Nat.eqb index (count - 1) then None
       else Some (framebuffer (target_at fbo1 fbo2 index));
     pass_width := width;
     pass_height := height |}.

Fixpoint plan (width height : Z) (count : nat) (input : nat) (fbo1 fbo2 : FBO)
    (filters : list Filter) (index : nat) : list Pass :=
  match filters with
  | [] => []
  | f :: rest =>
      planned_pass width height count input fbo1 fbo2 f index
      :: plan width height count input fbo1 fbo2 rest (S index)
  end.

(** The state in which the [try] block starts: the clock has been read
    once. *)
Definition started : St := {| gl := bump_clock gl0; this := this0 |}.

(** Attachments, texture contents and the canvas are the same. *)
Definition same_surfaces (s s' : St) : Prop :=
  gl_attach (gl s') = gl_attach (gl s) /\
  gl_texture (gl s') = gl_texture (gl s) /\
  gl_canvas (gl s') = gl_canvas (gl s).

(** [l1] is [l2] with some elements left out, the others in their order. *)
Inductive Subsequence {A : Type} : list A -> list A -> Prop :=
| Subsequence_nil : Subsequence [] []
| Subsequence_skip x l1 l2 : Subsequence l1 l2 -> Subsequence l1 (x :: l2)
| Subsequence_keep x l1 l2 : Subsequence l1 l2 -> Subsequence (x :: l1) (x :: l2).

Definition option_list {A} (o : option A) : list A :=
  match o with Some a => [a] | None => [] end.

(** The number of device objects the processor holds for [destroy]. *)
Definition owed (p : Processor) : nat :=
  length (programs p) + length (framebuffers p) + length (textures p)
  + length (option_list (positionBuffer p)) + length (option_list (indexBuffer p)).

(** Every live object is one the processor holds. *)
Definition balanced (s : St) : Prop :=
  allocations (gl_log (gl s)) = releases (gl_log (gl s)) + owed (this s).

(** Events that release none of the textures, framebuffers and buffers. *)
Definition keeps_surfaces (e : Event) : bool :=
  match e with
  | EvDelete KShader _ | EvDelete KProgram _ => true
  | EvDelete _ _ => false
  | _ => true
  end.

Definition log_events (evs : list Event) (g : GL) : GL :=
  fold_left (fun g e => log_event e g) evs g.

(** A relation between the state before and after, closed under sequencing:
    what the basic operations respect, every program built from them does. *)
Definition respects (R : St -> St -> Prop) {A} (m : M A) : Prop :=
  forall s, R s (snd (m s)).

(** ** Operations that leave the processor's fields alone *)

Definition same_this (s s' : St) : Prop := this s' = this s.

(** ** Vocabulary for the further properties *)

(** The messages a run can fail with: the fixed texts of the [throw]
    statements and of [img.onerror], the device's own diagnostics behind
    the two prefixes, and the browser's message for the TypeError of a
    [beginQueryEXT] handed [null]. *)
Inductive run_error (dev : Device) : string -> Prop :=
| err_image : run_error dev "Failed to load image"
| err_webgl : run_error dev "WebGL not supported"
| err_texture : run_error dev "Failed to create texture"
| err_fb_texture : run_error dev "Failed to create framebuffer texture"
| err_framebuffer : run_error dev "Failed to create framebuffer"
| err_incomplete : run_error dev "Framebuffer not complete"
| err_shader : run_error dev "Failed to create shader"
| err_program : run_error dev "Failed to create program"
| err_compile stage source info :
    dev_compile_log dev stage source = Some info ->
    run_error dev ("Shader compilation error: " ++ info)
| err_link vs fs info :
    dev_link_log dev vs fs = Some info ->
    run_error dev ("Program linking error: " ++ info)
| err_null_query : run_error dev (dev_type_error dev).

(** Every exception of a computation carries a message of a given class. *)
Definition throws_only (P : string -> Prop) {A} (m : M A) : Prop :=
  forall s e s', m s = (Thrown e, s') -> P e.

(** How often an object has been created. *)
Definition times_created (k : ResKind) (obj : nat) (log : list Event) : nat :=
  length (List.filter
            (fun e => match e with
                      | EvCreate k' obj' => ResKind_eqb k k' && Nat.eqb obj obj'
                      | _ => false
                      end) log).

(** Each fragment source has been compiled at most once, and only sources
    that are in the cache have been compiled at all. *)
Definition compiled_once (s : St) : Prop :=
  forall f,
    fragment_compiles f (gl_log (gl s)) <= 1 /\
    (Map_get f (programs (this s)) = None -> fragment_compiles f (gl_log (gl s)) = 0).

(** ** Pixels

    What the one draw call of an empty pipeline puts on the canvas, texel by
    texel.  The code fixes the orientation of the upload, the texture
    coordinate of each fragment and the program; how the sampler filters is
    the device's. *)

(** A texture image in GL orientation: [texel i j] is column [i] from the
    left of row [j] from the bottom. *)
Record Texels : Type := {
  tex_width : Z;
  tex_height : Z;
  texel : Z -> Z -> Z
}.

(** [createTexture]: [texImage2D] of the image with [UNPACK_FLIP_Y_WEBGL]
    set and [UNPACK_PREMULTIPLY_ALPHA_WEBGL] off: the pixel values go in
    unchanged, and the last row of the image becomes row 0 of the texture.
    [pixels] lists the image row by row from the top. *)
Definition uploaded_texels (img : Image) : Texels :=
  {| tex_width := naturalWidth img;
     tex_height := naturalHeight img;
     texel := fun i j =>
       nth (Z.to_nat ((naturalHeight img - 1 - j) * naturalWidth img + i))
           (pixels img) 0%Z |}.

(** [basicVertexShader]: [v_texCoord = a_position * 0.5 + 0.5], with
    [gl_Position = vec4(a_position, 0, 1)]. *)
Definition v_texCoord (a_position : Q * Q) : Q * Q :=
  ((fst a_position * (1 # 2) + (1 # 2))%Q, (snd a_position * (1 # 2) + (1 # 2))%Q).

(** The position interpolated at the centre of fragment [(x, y)] under
    [gl.viewport(0, 0, w, h)]: the quad of [setupGeometry] spans the clip
    square, and the window coordinate [x + 1/2] is [(p + 1) * w / 2]. *)
Definition fragment_position (w h x y : Z) : Q * Q :=
  ((inject_Z (2 * x + 1) / inject_Z w - 1)%Q,
   (inject_Z (2 * y + 1) / inject_Z h - 1)%Q).

(** [texture2D(u_image, c)] as the device evaluates it for a texture with
    LINEAR filters and CLAMP_TO_EDGE wrapping. *)
Definition Sampler : Type := Texels -> Q * Q -> Z.

(** [c] is the centre of texel [(i, j)]. *)
Definition texel_centre (t : Texels) (i j : Z) (c : Q * Q) : Prop :=
  (fst c == (inject_Z i + (1 # 2)) / inject_Z (tex_width t))%Q /\
  (snd c == (inject_Z j + (1 # 2)) / inject_Z (tex_height t))%Q.

(** A device that filters exactly: sampled at the centre of a texel, the
    texture gives that texel. *)
Definition exact_at_centres (sample : Sampler) : Prop :=
  forall t i j c,
    (0 <= i < tex_width t)%Z -> (0 <= j < tex_height t)%Z ->
    texel_centre t i j c -> sample t c = texel t i j.

Definition upto (n : Z) : list Z := map Z.of_nat (seq 0 (Z.to_nat n)).

(** The pixels of a [w] x [h] canvas after the passthrough program
    ([gl_FragColor = texture2D(u_image, v_texCoord)]) has drawn a texture
    over the whole of it, row by row from the top: row [r] of the picture is
    row [h - 1 - r] of the window. *)
Definition drawn_pixels (sample : Sampler) (w h : Z) (t : Texels) : list Z :=
  flat_map
    (fun r =>
       map (fun x => sample t (v_texCoord (fragment_position w h x (h - 1 - r))))
           (upto w))
    (upto h).

(** The picture an encoded canvas decodes to, where its content is the
    passthrough program drawn from an uploaded image with the viewport equal
    to the canvas; other contents are not interpreted. *)
Definition decoded (sample : Sampler) (e : Encoded) : option Image :=
  match enc_content e with
  | Shaded frag _ w h (Uploaded img) =>
      if JSVal_eqb frag (JStr shader_passthrough)
         && (w =? enc_width e)%Z && (h =? enc_height e)%Z
      then Some {| naturalWidth := enc_width e;
                   naturalHeight := enc_height e;
                   pixels := drawn_pixels sample w h (uploaded_texels img) |}
      else None
  | _ => None
  end.

(** An exact device for the examples: the texel the coordinate falls in. *)
Definition nearest : Sampler :=
  fun t c =>
    texel t (Qfloor (fst c * inject_Z (tex_width t)))
            (Qfloor (snd c * inject_Z (tex_height t))).

(** ** The [ReglSurface] component of the surface module

    The component owns a [WebGLProcessor] of the same class; its
    [renderFilter] neither times nor waits, its constructor looks for no
    extension, and its effect returns a cleanup that destroys the processor
    if one was made. *)

Module Surface.

Record Cursor : Type := {
  cursorTexture : nat;      (* currentTexture *)
  cursorFBO : FBO;          (* currentFBO *)
  otherFBO : FBO            (* nextFBO *)
}.

(** What [img.onload] leaves behind: whether the closure variable
    [processor] was assigned, and whether the [catch] block ran (the 2D
    fallback). *)
Record Loaded : Type := {
  processor_assigned : bool;
  fell_back : bool
}.

Section Effect.

Variable dev : Device.
Variables width height : Z.

Definition new_WebGLProcessor : M unit :=
  if negb (dev_webgl dev) then throw "WebGL not supported"
  else setupGeometry dev.

Definition renderFilter (inputTexture : nat) (fragmentShader : JSVal)
    (uniforms : list (string * UVal)) (fb : option nat) : M unit :=
  _program <- getProgram dev fragmentShader ;;
  set_gl (bind_fb fb) ;;
  set_gl (log_event (EvDraw
    {| pass_input := inputTexture; pass_frag := fragmentShader;
       pass_uniforms := uniforms; pass_target := fb;
       pass_width := width; pass_height := height |})) ;;
  set_gl (fun g =>
    write_target fb
      (Shaded fragmentShader uniforms width height (texture_content g inputTexture)) g).

Definition pass (count : nat) (filter : Filter) (index : nat) (v : Cursor) : M Cursor :=
  let fragmentShader := getShaderForFilter (id filter) in
  let isLastFilter := Nat.eqb index (count - 1) in
  let uniforms := build_uniforms (cursorTexture v) width height (parameters filter) in
  renderFilter (cursorTexture v) fragmentShader uniforms
    (if isLastFilter then None else Some (framebuffer (cursorFBO v))) ;;
  if negb isLastFilter
  then ret {| cursorTexture := texture (cursorFBO v);
              cursorFBO := otherFBO v;
              otherFBO := cursorFBO v |}
  else ret v.

Fixpoint passes_from (count : nat) (filters : list Filter) (index : nat) (v : Cursor)
  : M Cursor :=
  match filters with
  | [] => ret v
  | filter :: rest =>
      v' <- pass count filter index v ;;
      passes_from count rest (S index) v'
  end.

(** The [try] block after the constructor. *)
Definition draw (img : Image) (pipeline : list Filter) : M unit :=
  inputTexture <- createTexture dev img ;;
  fbo1 <- createFramebuffer dev width height ;;
  fbo2 <- createFramebuffer dev width height ;;
  let enabledFilters := filter enabled pipeline in
  match enabledFilters with
  | [] =>
      clear ;;
      renderFilter inputTexture (JStr shader_passthrough)
        [("u_image", UTex inputTexture)] None
  | _ :: _ =>
      clear ;;
      _ <- passes_from (length enabledFilters) enabledFilters 0
             {| cursorTexture := inputTexture; cursorFBO := fbo1; otherFBO := fbo2 |} ;;
      ret tt
  end.

(** [img.onload]: nothing when the canvas is gone; otherwise the [try]
    block, whose exceptions the [catch] turns into the 2D fallback. *)
Definition onload (mounted : bool) (img : Image) (pipeline : list Filter)
  : St -> Loaded * St :=
  fun s =>
    if negb mounted then ({| processor_assigned := false; fell_back := false |}, s)
    else
      match new_WebGLProcessor s with
      | (Thrown _, s1) => ({| processor_assigned := false; fell_back := true |}, s1)
      | (Ok _, s1) =>
          match draw img pipeline s1 with
          | (Ok _, s2) => ({| processor_assigned := true; fell_back := false |}, s2)
          | (Thrown _, s2) => ({| processor_assigned := true; fell_back := true |}, s2)
          end
      end.

(** The cleanup the effect returns: [if (processor) processor.destroy()]. *)
Definition cleanup (l : Loaded) : St -> St :=
  fun s => if processor_assigned l then snd (destroy s) else s.

(** The image loads while the effect is live, then the effect is cleaned
    up (unmount, or a change of image, pipeline or size). *)
Definition load_then_cleanup (img : Image) (pipeline : list Filter) : Loaded * St :=
  let (l, s) := onload true img pipeline st0 in
  (l, cleanup l s).

End Effect.

End Surface.



(** The draw calls of a complete rendering on a fresh context, where the
    two buffers take the handles 0 and 1, the input texture 2 and the two
    render targets 3 to 6. *)
Definition complete_rendering (width height : Z) (enabledFilters : list Filter)
  : list Pass :=
  match enabledFilters with
  | [] =>
      [ {| pass_input := 2; pass_frag := JStr shader_passthrough;
           pass_uniforms := [("u_image", UTex 2)]; pass_target := None;
           pass_width := width; pass_height := height |} ]
  | _ :: _ =>
      plan width height (length enabledFilters) 2
        {| framebuffer := 4; texture := 3 |} {| framebuffer := 6; texture := 5 |}
        enabledFilters 0
  end.

(** ** The page that edits the pipeline

    The state setters of the page are functions from the previous pipeline
    to the next one; [Date.now()] is an argument. *)

(** [paramConfig] entries: [{min, max, step}]. *)
Record ParamRange : Type := {
  range_min : Q;
  range_max : Q;
  range_step : Q
}.

Record FilterTemplate : Type := {
  template_id : string;
  template_name : string;
  template_type : string;
  defaultParams : list (string * Q);
  template_paramConfig : list (string * ParamRange)
}.

(** A [Filter] as the page holds it: the fields the engine reads, and the
    optional [paramConfig] it does not. *)
Record PipelineFilter : Type := {
  engine : Filter;
  paramConfig : option (list (string * ParamRange))
}.

(** What [processImageWithPipeline] reads of the page's pipeline. *)
Definition to_engine (pipeline : list PipelineFilter) : list Filter :=
  map engine pipeline.

Definition range (lo hi st : Q) : ParamRange :=
  {| range_min := lo; range_max := hi; range_step := st |}.

Definition availableFilters : list FilterTemplate :=
  [ {| template_id := "debug"; template_name := "🔴 Debug Red Tint";
       template_type := "debug"; defaultParams := []; template_paramConfig := [] |};
    {| template_id := "blur"; template_name := "Gaussian Blur";
       template_type := "convolution";
       defaultParams := [("radius", 1%Q)];
       template_paramConfig := [("radius", range (1 # 2) 5 (1 # 10))] |};
    {| template_id := "sharpen"; template_name := "Sharpen";
       template_type := "convolution";
       defaultParams := [("strength", 1%Q)];
       template_paramConfig := [("strength", range 0 3 (1 # 10))] |};
    {| template_id := "edge"; template_name := "Edge Detection";
       template_type := "convolution";
       defaultParams := [("threshold", (1 # 2)%Q)];
       template_paramConfig := [("threshold", range (1 # 10) 2 (1 # 10))] |};
    {| template_id := "brightness"; template_name := "Brightness";
       template_type := "color";
       defaultParams := [("value", 0%Q)];
       template_paramConfig := [("value", range (-50) 50 1)] |};
    {| template_id := "contrast"; template_name := "Contrast";
       template_type := "color";
       defaultParams := [("value", 1%Q)];
       template_paramConfig := [("value", range (1 # 10) 3 (1 # 10))] |};
    {| template_id := "saturation"; template_name := "Saturation";
       template_type := "color";
       defaultParams := [("value", 1%Q)];
       template_paramConfig := [("value", range 0 3 (1 # 10))] |};
    {| template_id := "noise"; template_name := "Noise Reduction";
       template_type := "advanced";
       defaultParams := [("strength", (1 # 2)%Q)];
       template_paramConfig := [("strength", range 0 1 (1 # 10))] |};
    {| template_id := "bilateral"; template_name := "Bilateral Filter";
       template_type := "advanced";
       defaultParams := [("spatial", 1%Q); ("color", (1 # 10)%Q)];
       template_paramConfig :=
         [("spatial", range (1 # 2) 3 (1 # 10)); ("color", range (1 # 100) 1 (1 # 100))] |} ].

(** [`${n}`] for a non-negative integer below 10^21. *)
Definition decimal (n : N) : string := NilZero.string_of_uint (N.to_uint n).

(** [addFilterToPipeline], with the value of [Date.now()]. *)
Definition addFilterToPipeline (now : N) (filterId : string)
    (prev : list PipelineFilter) : list PipelineFilter :=
  match find (fun f => String.eqb (template_id f) filterId) availableFilters with
  | Some filterTemplate =>
      prev ++
      [ {| engine :=
             {| id := filterId ++ "-" ++ decimal now;
                name := template_name filterTemplate;
                type := template_type filterTemplate;
                parameters := defaultParams filterTemplate;
                enabled := true |};
           paramConfig := Some (template_paramConfig filterTemplate) |} ]
  | None => prev
  end.

Definition removeFilterFromPipeline (filterId : string)
    (prev : list PipelineFilter) : list PipelineFilter :=
  filter (fun f => negb (String.eqb (id (engine f)) filterId)) prev.

Definition toggleFilter (filterId : string)
    (prev : list PipelineFilter) : list PipelineFilter :=
  map (fun f =>
         if String.eqb (id (engine f)) filterId
         then {| engine :=
                   {| id := id (engine f); name := name (engine f);
                      type := type (engine f); parameters := parameters (engine f);
                      enabled := negb (enabled (engine f)) |};
                 paramConfig := paramConfig f |}
         else f) prev.

(** *** Objects with number values: [{...o, [k]: v}] *)

(** An array index: the canonical decimal text of an integer below
    2^32 - 1.  Own keys that are array indices are enumerated first, in
    ascending order. *)
Definition array_index (k : string) : option N :=
  match NilEmpty.uint_of_string k with
  | Some u =>
      let n := N.of_uint u in
      if String.eqb (decimal n) k && (n <=? 4294967294)%N then Some n else None
  | None => None
  end.

Fixpoint get_param (k : string) (o : list (string * Q)) : option Q :=
  match o with
  | [] => None
  | (k', v) :: rest => if String.eqb k k' then Some v else get_param k rest
  end.

Fixpoint replace_param (k : string) (v : Q) (o : list (string * Q)) : list (string * Q) :=
  match o with
  | [] => []
  | (k', v') :: rest =>
      if String.eqb k k' then (k', v) :: rest else (k', v') :: replace_param k v rest
  end.

Fixpoint insert_index (n : N) (k : string) (v : Q) (o : list (string * Q))
  : list (string * Q) :=
  match o with
  | [] => [(k, v)]
  | (k', v') :: rest =>
      match array_index k' with
      | Some m =>
          if (m <? n)%N then (k', v') :: insert_index n k v rest
          else (k, v) :: (k', v') :: rest
      | None => (k, v) :: (k', v') :: rest
      end
  end.

(** [o[k] = v]. *)
Definition set_param (k : string) (v : Q) (o : list (string * Q)) : list (string * Q) :=
  match get_param k o with
  | Some _ => replace_param k v o
  | None =>
      match array_index k with
      | Some n => insert_index n k v o
      | None => o ++ [(k, v)]
      end
  end.

(** [{...o}]. *)
Definition spread (o : list (string * Q)) : list (string * Q) :=
  fold_left (fun acc kv => set_param (fst kv) (snd kv) acc) o [].

Definition updateFilterParameter (filterId paramName : string) (value : Q)
    (prev : list PipelineFilter) : list PipelineFilter :=
  map (fun f =>
         if String.eqb (id (engine f)) filterId
         then {| engine :=
                   {| id := id (engine f); name := name (engine f);
                      type := type (engine f);
                      parameters := set_param paramName value (spread (parameters (engine f)));
                      enabled := enabled (engine f) |};
                 paramConfig := paramConfig f |}
         else f) prev.

(** *** The carousel *)

Inductive Direction : Type := prev_image | next_image.

(** [navigateCarousel]: the new index, for [images.length] images. *)
Definition navigateCarousel (direction : Direction) (images_length prevIndex : Z) : Z :=
  match direction with
  | prev_image => if (prevIndex >? 0)%Z then (prevIndex - 1)%Z else (images_length - 1)%Z
  | next_image => if (prevIndex <? images_length - 1)%Z then (prevIndex + 1)%Z else 0%Z
  end.

(** *** Export names *)

(** Whether a text is a match of [[^/.]+$]: not empty, no slash, no dot. *)
Definition extension_text (s : string) : bool :=
  negb (String.eqb s "") && negb (occurs "/" s) && negb (occurs "." s).

(** [name.replace(/\.[^/.]+$/, "")]: the leftmost dot followed to the end
    by an extension text is where the name is cut. *)
Fixpoint strip_extension (name : string) : string :=
  match name with
  | EmptyString => EmptyString
  | String c rest =>
      if Ascii.eqb c "." && extension_text rest then EmptyString
      else String c (strip_extension rest)
  end.

(** ** The uniform upload of [renderFilter] *)

(** A number as the device receives it: [undefined] converts to NaN. *)
Inductive GLfloat : Type :=
| Float (q : Q)
| NaN.

(** The calls the [forEach] over [Object.entries(uniforms)] can make. *)
Inductive UniformCall : Type :=
| uniform1i (name : string) (unit : Z)
| uniform2f (name : string) (x y : GLfloat)
| uniform1f (name : string) (value : Q).

Definition call_name (c : UniformCall) : string :=
  match c with
  | uniform1i n _ | uniform2f n _ _ | uniform1f n _ => n
  end.

(** [value[i]]: an element of the resolution array, [undefined] on a number
    or a texture object. *)
Definition element (value : UVal) (i : nat) : GLfloat :=
  match value, i with
  | UVec2 x _, 0 => Float (inject_Z x)
  | UVec2 _ y, 1 => Float (inject_Z y)
  | _, _ => NaN
  end.

(** One entry of the loop; [declared name] says whether
    [getUniformLocation(program, name)] is not [null]. *)
Definition upload_uniform (declared : string -> bool) (entry : string * UVal)
  : list UniformCall :=
  let (name, value) := entry in
  if declared name then
    if String.eqb name "u_image" then [uniform1i name 0]
    else if String.eqb name "u_resolution"
         then [uniform2f name (element value 0) (element value 1)]
         else match value with
              | UNum q => [uniform1f name q]
              | _ => []
              end
  else [].

Definition upload_uniforms (declared : string -> bool)
    (uniforms : list (string * UVal)) : list UniformCall :=
  flat_map (upload_uniform declared) uniforms.

(** [uniforms[k]]. *)
Fixpoint get_uniform (k : string) (o : list (string * UVal)) : option UVal :=
  match o with
  | [] => None
  | (k', v) :: rest => if String.eqb k k' then Some v else get_uniform k rest
  end.

(** * Properties *)

(** ** Values and the registry *)

Lemma JSVal_eqb_spec a b : reflect (a = b) (JSVal_eqb a b).
Proof.
  destruct a as [|s|s], b as [|t|t]; simpl; try (constructor; congruence).
  - destruct (String.eqb_spec s t); constructor; congruence.
  - destruct (String.eqb_spec s t); constructor; congruence.
Qed.

Lemma JSVal_eqb_refl a : JSVal_eqb a a = true.
Proof. destruct (JSVal_eqb_spec a a); congruence. Qed.

(** * Numbers and canvas sizes *)

Lemma canvas_dimension_in_range default value :
  (0 <= value <= 2147483647)%Z -> canvas_dimension default value = value.
Proof.
  intros H. unfold canvas_dimension.
  rewrite Z.mod_small by (change (2 ^ 32)%Z with 4294967296%Z; lia).
  destruct (Z.leb_spec value 2147483647); [reflexivity|lia].
Qed.

Lemma canvas_dimension_range default value :
  (0 <= default <= 2147483647)%Z ->
  (0 <= canvas_dimension default value <= 2147483647)%Z.
Proof.
  intros H. unfold canvas_dimension.
  pose proof (Z.mod_pos_bound value (2 ^ 32) ltac:(reflexivity)) as Hm.
  destruct (Z.leb_spec (value mod 2 ^ 32) 2147483647); lia.
Qed.

Lemma binary64_exact n : (Z.abs n <= 2 ^ 53)%Z -> binary64 n = n.
Proof.
  intros H. unfold binary64.
  destruct (Z.leb_spec (Z.abs n) (2 ^ 53)); [reflexivity|lia].
Qed.

Lemma number_mul_exact a b : (Z.abs (a * b) <= 2 ^ 53)%Z -> number_mul a b = (a * b)%Z.
Proof. apply binary64_exact. Qed.

(** Within the range of exact integers the estimate is the exact quotient. *)
Lemma getMemoryUsage_exact width height n :
  (1 <= n)%Z ->
  (Z.abs (width * height * 4 * n) <= 2 ^ 53)%Z ->
  (getMemoryUsage width height n ==
   inject_Z width * inject_Z height * 4 * inject_Z n / (1024 * 1024))%Q.
Proof.
  intros Hn Hb. unfold getMemoryUsage.
  assert (H1 : (Z.abs (width * height) <= 2 ^ 53)%Z).
  { rewrite !Z.abs_mul in Hb. rewrite (Z.abs_eq n) in Hb by lia.
    change (Z.abs 4) with 4%Z in Hb.
    pose proof (Z.abs_nonneg (width * height)). rewrite Z.abs_mul in *. nia. }
  assert (H2 : (Z.abs (width * height * 4) <= 2 ^ 53)%Z).
  { rewrite !Z.abs_mul in Hb. rewrite (Z.abs_eq n) in Hb by lia.
    rewrite !Z.abs_mul.
    pose proof (Z.abs_nonneg width). pose proof (Z.abs_nonneg height).
    pose proof (Z.abs_nonneg 4).
    assert (0 <= Z.abs width * Z.abs height * Z.abs 4)%Z by nia. nia. }
  rewrite (number_mul_exact width height H1).
  rewrite (number_mul_exact _ 4 H2).
  rewrite (number_mul_exact _ n Hb).
  rewrite !inject_Z_mult. reflexivity.
Qed.

(** ** The monad *)

Lemma bind_Ok {A B} (m : M A) (k : A -> M B) s b s' :
  bind m k s = (Ok b, s') ->
  exists a s1, m s = (Ok a, s1) /\ k a s1 = (Ok b, s').
Proof.
  unfold bind. destruct (m s) as [[a|e] s1]; intros H.
  - exists a, s1. auto.
  - discriminate.
Qed.

Lemma bind_Thrown {A B} (m : M A) (k : A -> M B) s e s' :
  bind m k s = (Thrown e, s') ->
  m s = (Thrown e, s') \/ exists a s1, m s = (Ok a, s1) /\ k a s1 = (Thrown e, s').
Proof.
  unfold bind. destruct (m s) as [[a|e1] s1]; intros H.
  - right. exists a, s1. auto.
  - left. injection H as -> ->. reflexivity.
Qed.

Lemma bind_eq {A B} (m : M A) (k : A -> M B) s :
  bind m k s =
  match m s with
  | (Ok a, s1) => k a s1
  | (Thrown e, s1) => (Thrown e, s1)
  end.
Proof. reflexivity. Qed.


Section Respects.

Variable R : St -> St -> Prop.
Hypothesis R_refl : forall s, R s s.
Hypothesis R_trans : forall a b c, R a b -> R b c -> R a c.

Lemma respects_ret {A} (a : A) : respects R (ret a).
Proof. intros s. apply R_refl. Qed.

Lemma respects_throw {A} e : respects R (@throw A e).
Proof. intros s. apply R_refl. Qed.

Lemma respects_bind {A B} (m : M A) (k : A -> M B) :
  respects R m -> (forall a, respects R (k a)) -> respects R (bind m k).
Proof.
  intros Hm Hk s. unfold bind. specialize (Hm s).
  destruct (m s) as [[a|e] s1]; simpl in *.
  - eapply R_trans; [exact Hm | apply Hk].
  - exact Hm.
Qed.

Lemma respects_get_gl : respects R get_gl.
Proof. intros s. apply R_refl. Qed.

Lemma respects_get_this : respects R get_this.
Proof. intros s. apply R_refl. Qed.

Lemma respects_forEach {A} (f : A -> M unit) l :
  (forall a, respects R (f a)) -> respects R (forEach f l).
Proof.
  intros Hf. induction l as [|a l IH]; simpl.
  - apply respects_ret.
  - apply respects_bind; auto.
Qed.

End Respects.


Lemma same_this_refl s : same_this s s.
Proof. reflexivity. Qed.

Lemma same_this_trans a b c : same_this a b -> same_this b c -> same_this a c.
Proof. unfold same_this. congruence. Qed.

#[local] Hint Resolve same_this_refl same_this_trans : core.

Ltac respects_auto Rrefl Rtrans :=
  repeat first
    [ apply (respects_bind _ Rtrans); [|intros ?]
    | apply (respects_ret _ Rrefl)
    | apply (respects_throw _ Rrefl)
    | apply (respects_get_gl _ Rrefl)
    | apply (respects_get_this _ Rrefl)
    | match goal with
      | |- respects _ (match ?x with _ => _ end) => destruct x
      end
    | assumption ].

Lemma set_gl_same_this f : respects same_this (set_gl f).
Proof. intros s. reflexivity. Qed.

Lemma create_same_this dev k : respects same_this (create dev k).
Proof.
  unfold create.
  respects_auto same_this_refl same_this_trans; apply set_gl_same_this.
Qed.

Lemma delete_same_this k obj : respects same_this (delete k obj).
Proof. apply set_gl_same_this. Qed.

Lemma now_same_this dev : respects same_this (now dev).
Proof.
  unfold now.
  respects_auto same_this_refl same_this_trans; apply set_gl_same_this.
Qed.

Lemma compileShader_same_this dev source stage :
  respects same_this (compileShader dev source stage).
Proof.
  unfold compileShader.
  respects_auto same_this_refl same_this_trans;
    first [apply create_same_this | apply set_gl_same_this | apply delete_same_this].
Qed.

Lemma createProgram_same_this dev vs fs :
  respects same_this (createProgram dev vs fs).
Proof.
  unfold createProgram.
  respects_auto same_this_refl same_this_trans;
    first [apply compileShader_same_this | apply create_same_this
          | apply set_gl_same_this | apply delete_same_this].
Qed.

(** ** [split] and the registry lookup *)

Lemma split_not_nil sep s : split sep s <> [].
Proof.
  destruct s as [|c rest]; simpl; [discriminate|].
  destruct (Ascii.eqb c sep); [discriminate|].
  destruct (split sep rest); discriminate.
Qed.

(** The first piece of a split is the text before the first separator. *)
Lemma split_head sep s :
  exists rest,
    s = (hd "" (split sep s) ++ rest)%string /\
    occurs sep (hd "" (split sep s)) = false /\
    (rest = "" \/ exists r, rest = String sep r).
Proof.
  induction s as [|c s IH]; simpl.
  - exists "". auto.
  - destruct (Ascii.eqb_spec c sep) as [->|Hc].
    + exists (String sep s). simpl. split; [reflexivity|]. split; [reflexivity|].
      right. eauto.
    + destruct IH as (rest & Hs & Hno & Hrest).
      destruct (split sep s) as [|piece pieces] eqn:E.
      * exfalso. eapply split_not_nil; eauto.
      * simpl in *. exists rest. split; [congruence|]. split; [|exact Hrest].
        rewrite Hno. apply Bool.orb_false_iff. split; [|reflexivity].
        apply Ascii.eqb_neq. exact Hc.
Qed.

Lemma baseId_of_prefix filterId :
  exists suffix,
    filterId = (baseId_of filterId ++ suffix)%string /\
    occurs "-" (baseId_of filterId) = false /\
    (suffix = "" \/ exists r, suffix = String "-" r).
Proof. apply split_head. Qed.

Lemma own_property_In obj k v :
  own_property obj k = Some v -> In (k, v) obj.
Proof.
  induction obj as [|[k' v'] obj IH]; simpl; [discriminate|].
  destruct (String.eqb_spec k k') as [->|_].
  - intros [= ->]. auto.
  - auto.
Qed.

Lemma shaders_nonempty k v : In (k, v) shaders -> String.eqb v "" = false.
Proof.
  unfold shaders. simpl.
  intros H; repeat (destruct H as [[= <- <-]|H]; [reflexivity|]); destruct H.
Qed.

(** A registered base kind resolves to its own source. *)
Lemma getShaderForFilter_registered filterId source :
  own_property shaders (baseId_of filterId) = Some source ->
  getShaderForFilter filterId = JStr source.
Proof.
  intros H. unfold getShaderForFilter, get_property. rewrite H. simpl.
  rewrite (shaders_nonempty _ _ (own_property_In _ _ _ H)). reflexivity.
Qed.

(** A base kind that is neither registered nor a member of
    [Object.prototype] resolves to the passthrough source. *)
Lemma getShaderForFilter_unregistered filterId :
  own_property shaders (baseId_of filterId) = None ->
  inherited (baseId_of filterId) = false ->
  getShaderForFilter filterId = JStr shader_passthrough.
Proof.
  intros H1 H2. unfold getShaderForFilter, get_property. rewrite H1, H2. reflexivity.
Qed.

(** A base kind that names a member of [Object.prototype] resolves to that
    member. *)
Lemma getShaderForFilter_inherited filterId :
  own_property shaders (baseId_of filterId) = None ->
  inherited (baseId_of filterId) = true ->
  getShaderForFilter filterId = JInherited (baseId_of filterId).
Proof.
  intros H1 H2. unfold getShaderForFilter, get_property. rewrite H1, H2. reflexivity.
Qed.

(** C5 (code defect).  The identifier ["constructor-1"] has the base kind
    ["constructor"], which the registry does not define; the lookup finds the
    member every object inherits from [Object.prototype], which is truthy, so
    the fallback is not taken and the result is not the passthrough source.
    On a device that compiles source text and rejects anything else, a run
    with that single filter fails, while a run with another unregistered
    kind succeeds through the passthrough program. *)
Theorem getShaderForFilter_inherited_kind_not_passthrough :
  baseId_of "constructor-1" = "constructor" /\
  own_property shaders "constructor" = None /\
  getShaderForFilter "constructor-1" = JInherited "constructor" /\
  getShaderForFilter "constructor-1" <> JStr shader_passthrough /\
  getShaderForFilter "vignette-5" = JStr shader_passthrough /\
  success (processImageWithPipeline glsl_device 4 4 "image.png" [inherited_kind]) = false /\
  success (processImageWithPipeline glsl_device 4 4 "image.png" [unknown_kind]) = true.
Proof.
  repeat split; try (vm_compute; reflexivity).
  vm_compute. discriminate.
Qed.

(** ** The shape of the result *)

Ltac bind_inv H :=
  let a := fresh "a" in
  let s := fresh "s" in
  let H1 := fresh "H" in
  apply bind_Ok in H; destruct H as (a & s & H1 & H).

(** What a [try] block that runs to its end returns. *)
Lemma try_block_Ok dev width height img pipeline t0 s r s' :
  try_block dev width height img pipeline t0 s = (Ok r, s') ->
  success r = true /\
  (exists url, imageDataUrl r = Some url /\
               enc_width url = canvas_dimension 300 width /\
               enc_height url = canvas_dimension 150 height) /\
  error r = None /\
  memoryUsage r =
    getMemoryUsage width height (Z.of_nat (length (filter enabled pipeline)) + 2).
Proof.
  unfold try_block. intros H.
  bind_inv H. destruct a as [[inputTexture fbo1] fbo2].
  bind_inv H. bind_inv H. bind_inv H. bind_inv H.
  unfold ret in H. injection H as <- <-. simpl.
  unfold getCanvasDataURL in H3. bind_inv H3. unfold ret in H3.
  injection H3 as <- <-. simpl.
  repeat split; eauto.
Qed.

(** A run resolves either with the record of its [try] block or with a
    failure record. *)
Lemma run_cases dev width height imageSrc pipeline :
  (exists message, fst (run dev width height imageSrc pipeline) = failure message) \/
  (exists img t0 s r s',
      dev_decode dev imageSrc = Some img /\
      now dev st0 = (Ok t0, s) /\
      try_block dev width height img pipeline t0 s = (Ok r, s') /\
      run dev width height imageSrc pipeline = (r, s')).
Proof.
  unfold run. destruct (dev_decode dev imageSrc) as [img|] eqn:Hd.
  - unfold onload. rewrite bind_eq.
    destruct (now dev st0) as [[t0|e] s] eqn:Hn.
    + destruct (try_block dev width height img pipeline t0 s) as [[r|e] s'] eqn:Ht.
      * right. exists img, t0, s, r, s'. auto.
      * left. exists e. reflexivity.
    + left. exists e. reflexivity.
  - left. eexists. reflexivity.
Qed.

(** C7.  In every result the encoded image is present exactly when
    [success] is true and the error message exactly when it is false; a
    failed run carries no image. *)
Theorem result_image_iff_success dev width height imageSrc pipeline :
  let r := processImageWithPipeline dev width height imageSrc pipeline in
  (imageDataUrl r <> None <-> success r = true) /\
  (error r <> None <-> success r = false).
Proof.
  unfold processImageWithPipeline.
  destruct (run_cases dev width height imageSrc pipeline)
    as [[message H] | (img & t0 & s & r & s' & _ & _ & Ht & Hr)].
  - rewrite H. simpl. split; split; intros; congruence.
  - rewrite Hr. simpl.
    destruct (try_block_Ok _ _ _ _ _ _ _ _ _ Ht) as (Hs & (url & Hu & _) & He & _).
    rewrite Hs, Hu, He. split; split; intros; congruence.
Qed.

(** C10.  A run that resolves with [success = false], whether an exception
    was caught or the image failed to load, reports zero for the GPU time,
    the total time and the memory figure. *)
Theorem failed_run_reports_zero dev width height imageSrc pipeline :
  let r := processImageWithPipeline dev width height imageSrc pipeline in
  success r = false ->
  gpuTime r = 0%Q /\ totalTime r = 0%Q /\ memoryUsage r = 0%Q.
Proof.
  unfold processImageWithPipeline.
  destruct (run_cases dev width height imageSrc pipeline)
    as [[message H] | (img & t0 & s & r & s' & _ & _ & Ht & Hr)].
  - rewrite H. simpl. auto.
  - rewrite Hr. simpl.
    destruct (try_block_Ok _ _ _ _ _ _ _ _ _ Ht) as (Hs & _).
    rewrite Hs. discriminate.
Qed.

(** The property holds on both failure paths: a shader that does not
    compile, and an image that does not load. *)
Lemma failed_run_reports_zero_witness :
  success (processImageWithPipeline failing_compile_device 4 4 "image.png" sample_pipeline) = false /\
  (gpuTime (processImageWithPipeline failing_compile_device 4 4 "image.png" sample_pipeline) = 0%Q /\
   totalTime (processImageWithPipeline failing_compile_device 4 4 "image.png" sample_pipeline) = 0%Q /\
   memoryUsage (processImageWithPipeline failing_compile_device 4 4 "image.png" sample_pipeline) = 0%Q).
Proof.
  split.
  - vm_compute. reflexivity.
  - apply (failed_run_reports_zero failing_compile_device 4 4 "image.png" sample_pipeline).
    vm_compute. reflexivity.
Defined.

Example image_load_failure_reports_zero :
  processImageWithPipeline no_image_device 4 4 "missing.png" sample_pipeline
  = failure "Failed to load image".
Proof. reflexivity. Qed.

(** ** The memory estimate *)

(** C8, within the range of exact integers.  A successful run at [width] x
    [height] with [N] enabled filters reports the number the code computes:
    the products [width * height], [* 4] and [* (N + 2)], each rounded to
    the nearest double, over 2^20.  When [width * height * 4 * (N + 2)] is
    at most 2^53 in magnitude nothing is rounded, and the figure is exactly
    [width * height * 4 * (N + 2) / (1024 * 1024)]: the product of the pixel
    count [width * height], of [N + 2] and of a constant. *)
Theorem memoryUsage_formula dev width height imageSrc pipeline :
  let r := processImageWithPipeline dev width height imageSrc pipeline in
  let N := Z.of_nat (length (filter enabled pipeline)) in
  success r = true ->
  memoryUsage r =
    (inject_Z (binary64 (binary64 (binary64 (width * height) * 4) * (N + 2)))
     / (1024 * 1024))%Q /\
  ((Z.abs (width * height * 4 * (N + 2)) <= 2 ^ 53)%Z ->
   (memoryUsage r ==
    inject_Z width * inject_Z height * 4 * (inject_Z N + 2) / (1024 * 1024))%Q /\
   (memoryUsage r == inject_Z (width * height) * (inject_Z N + 2) * (4 # 1048576))%Q).
Proof.
  unfold processImageWithPipeline.
  destruct (run_cases dev width height imageSrc pipeline)
    as [[message H] | (img & t0 & s & r & s' & _ & _ & Ht & Hr)].
  - rewrite H. simpl. discriminate.
  - rewrite Hr. simpl. intros _.
    destruct (try_block_Ok _ _ _ _ _ _ _ _ _ Ht) as (_ & _ & _ & Hm).
    rewrite Hm. split; [reflexivity|]. intros Hb.
    rewrite getMemoryUsage_exact by (try exact Hb; lia).
    rewrite inject_Z_plus, inject_Z_mult. split.
    + reflexivity.
    + field.
Qed.

Lemma memoryUsage_formula_witness :
  success (processImageWithPipeline working_device 1920 1080 "image.png" sample_pipeline) = true /\
  (Z.abs (1920 * 1080 * 4 * (3 + 2)) <= 2 ^ 53)%Z /\
  (memoryUsage (processImageWithPipeline working_device 1920 1080 "image.png" sample_pipeline)
   == inject_Z 1920 * inject_Z 1080 * 4 * (inject_Z 3 + 2) / (1024 * 1024))%Q.
Proof.
  split; [vm_compute; reflexivity|].
  split; [vm_compute; discriminate|].
  apply (memoryUsage_formula working_device 1920 1080 "image.png" sample_pipeline).
  - vm_compute. reflexivity.
  - vm_compute. discriminate.
Defined.

(** C8, as the claim states it, fails for large sizes.  At width 2^52 + 5
    (which the canvas and the device take as 5) and height 3 the run with no
    enabled filter succeeds, and the product [width * height] is not a
    double: it is rounded, and the reported figure is not
    [width * height * 4 * (N + 2) / (1024 * 1024)]. *)
Lemma memoryUsage_rounds_large_products :
  let width := 4503599627370501%Z in
  let r := processImageWithPipeline working_device width 3 "image.png" [] in
  filter enabled (@nil Filter) = [] /\
  success r = true /\
  canvas_dimension 300 width = 5%Z /\
  ~ (memoryUsage r == inject_Z width * inject_Z 3 * 4 * (0 + 2) / (1024 * 1024))%Q.
Proof.
  split; [reflexivity|]. split; [vm_compute; reflexivity|].
  split; [vm_compute; reflexivity|].
  vm_compute. discriminate.
Qed.

(** ** The program cache *)

Lemma Map_get_set_same k v m : Map_get k (Map_set k v m) = Some v.
Proof.
  induction m as [|[k' v'] m IH]; simpl.
  - rewrite JSVal_eqb_refl. reflexivity.
  - destruct (JSVal_eqb k k') eqn:E; simpl; rewrite E; auto.
Qed.

Lemma Map_get_set_other k k' v m :
  JSVal_eqb k' k = false -> Map_get k' (Map_set k v m) = Map_get k' m.
Proof.
  intros Hk. induction m as [|[k0 v0] m IH]; simpl.
  - rewrite Hk. reflexivity.
  - destruct (JSVal_eqb k k0) eqn:E; simpl.
    + destruct (JSVal_eqb_spec k k0); [subst|discriminate]. rewrite Hk. reflexivity.
    + rewrite IH. reflexivity.
Qed.

Lemma Map_set_fresh k v m : Map_get k m = None -> Map_set k v m = (m ++ [(k, v)])%list.
Proof.
  induction m as [|[k' v'] m IH]; simpl; [reflexivity|].
  destruct (JSVal_eqb k k'); [discriminate|].
  intros H. rewrite IH by exact H. reflexivity.
Qed.

Lemma fragment_compiles_app source l1 l2 :
  fragment_compiles source (l1 ++ l2)%list =
  fragment_compiles source l1 + fragment_compiles source l2.
Proof. unfold fragment_compiles. rewrite filter_app, length_app. reflexivity. Qed.

Ltac run_gl :=
  unfold getProgram, createProgram, compileShader, create, delete, now, bind,
    get_this, get_gl, set_gl, set_this, ret, throw; simpl.


(** A cached source is answered from the cache: same program, and the state
    (so the device log) is untouched. *)
Lemma getProgram_hit dev fragmentShader s program :
  Map_get fragmentShader (programs (this s)) = Some program ->
  getProgram dev fragmentShader s = (Ok program, s).
Proof. intros H. run_gl. rewrite H. reflexivity. Qed.

(** Other sources do not evict a cached program. *)
Lemma getProgram_keeps_cached dev other fragmentShader s program :
  Map_get fragmentShader (programs (this s)) = Some program ->
  Map_get fragmentShader (programs (this (snd (getProgram dev other s)))) = Some program.
Proof.
  intros H. unfold getProgram. rewrite bind_eq. simpl.
  destruct (Map_get other (programs (this s))) eqn:Ho; simpl; [exact H|].
  rewrite bind_eq.
  pose proof (createProgram_same_this dev (JStr basicVertexShader) other s) as Hc.
  destruct (createProgram dev (JStr basicVertexShader) other s) as [[p|e] s1];
    unfold same_this in Hc; simpl in *.
  - rewrite Hc. rewrite Map_get_set_other; [exact H|].
    destruct (JSVal_eqb_spec fragmentShader other); [subst; congruence|reflexivity].
  - rewrite Hc. exact H.
Qed.



(** A compile failure surfaces the device's diagnostic and caches nothing. *)
Example getProgram_compile_failure :
  exists s',
    getProgram failing_compile_device (JStr shader_blur) st0
    = (Thrown "Shader compilation error: ERROR: 0:1: syntax error", s') /\
    programs (this s') = [] /\
    fragment_compiles (JStr shader_blur)
      (gl_log (gl (snd (getProgram failing_compile_device (JStr shader_blur) s')))) = 2.
Proof.
  eexists. split; [vm_compute; reflexivity|]. split; reflexivity.
Qed.

(** So does a link failure, and the program object is deleted. *)
Example getProgram_link_failure :
  exists s',
    getProgram failing_link_device (JStr shader_blur) st0
    = (Thrown "Program linking error: varyings do not match", s') /\
    programs (this s') = [] /\
    live (gl_log (gl s')) [] = [(KShader, 0); (KShader, 1)].
Proof.
  eexists. split; [vm_compute; reflexivity|]. split; reflexivity.
Qed.

(** ** What each operation appends to the device log *)

Lemma extends_refl P s : extends P s s.
Proof. exists []. rewrite app_nil_r. auto. Qed.

Lemma extends_trans P a b c : extends P a b -> extends P b c -> extends P a c.
Proof.
  intros (e1 & H1 & F1) (e2 & H2 & F2). exists (e1 ++ e2)%list.
  rewrite H2, H1, app_assoc, forallb_app, F1, F2. auto.
Qed.

Lemma extends_weaken (P Q : Event -> bool) s s' :
  (forall e, P e = true -> Q e = true) -> extends P s s' -> extends Q s s'.
Proof.
  intros HPQ (evs & H & F). exists evs. split; [exact H|].
  rewrite forallb_forall in *. auto.
Qed.

Lemma respects_weaken (P Q : Event -> bool) {A} (m : M A) :
  (forall e, P e = true -> Q e = true) ->
  respects (extends P) m -> respects (extends Q) m.
Proof. intros HPQ Hm s. eapply extends_weaken; eauto. Qed.

Lemma same_attach_refl s : same_attach s s.
Proof. reflexivity. Qed.

Lemma same_attach_trans a b c : same_attach a b -> same_attach b c -> same_attach a c.
Proof. unfold same_attach. congruence. Qed.

Lemma log_write_target fb c g : gl_log (write_target fb c g) = gl_log g.
Proof.
  destruct fb as [f|]; simpl; [|reflexivity].
  destruct (lookup_nat f (gl_attach g)); reflexivity.
Qed.

Lemma attach_write_target fb c g : gl_attach (write_target fb c g) = gl_attach g.
Proof.
  destruct fb as [f|]; simpl; [|reflexivity].
  destruct (lookup_nat f (gl_attach g)); reflexivity.
Qed.

(** A context update that leaves the log alone, and one that logs an event. *)
Lemma set_gl_silent P f :
  (forall g, gl_log (f g) = gl_log g) -> respects (extends P) (set_gl f).
Proof.
  intros Hf s. exists []. simpl. rewrite Hf, app_nil_r. auto.
Qed.

Lemma set_gl_logs (P : Event -> bool) e :
  P e = true -> respects (extends P) (set_gl (log_event e)).
Proof.
  intros He s. exists [e]. simpl. rewrite He. auto.
Qed.

Lemma set_this_silent P f : respects (extends P) (set_this f).
Proof. intros s. exists []. simpl. rewrite app_nil_r. auto. Qed.

Lemma set_this_same_attach f : respects same_attach (set_this f).
Proof. intros s. reflexivity. Qed.

Lemma set_gl_same_attach f :
  (forall g, gl_attach (f g) = gl_attach g) -> respects same_attach (set_gl f).
Proof. intros Hf s. unfold same_attach. simpl. apply Hf. Qed.

Ltac frame P :=
  repeat first
    [ apply (respects_bind _ (extends_trans P)); [|intros ?]
    | apply (respects_ret _ (extends_refl P))
    | apply (respects_throw _ (extends_refl P))
    | apply (respects_get_gl _ (extends_refl P))
    | apply (respects_get_this _ (extends_refl P))
    | apply set_this_silent
    | apply set_gl_logs; reflexivity
    | apply set_gl_silent; intros ?; first [reflexivity | apply log_write_target]
    | match goal with
      | |- respects _ (match ?x with _ => _ end) => destruct x
      end
    | assumption ].

Ltac frame_attach :=
  repeat first
    [ apply (respects_bind _ same_attach_trans); [|intros ?]
    | apply (respects_ret _ same_attach_refl)
    | apply (respects_throw _ same_attach_refl)
    | apply (respects_get_gl _ same_attach_refl)
    | apply (respects_get_this _ same_attach_refl)
    | apply set_this_same_attach
    | apply set_gl_same_attach; intros ?; first [reflexivity | apply attach_write_target]
    | match goal with
      | |- respects _ (match ?x with _ => _ end) => destruct x
      end
    | assumption ].

Lemma create_extends (P : Event -> bool) dev k :
  (forall n, P (EvCreate k n) = true) -> respects (extends P) (create dev k).
Proof.
  intros HP. unfold create.
  apply (respects_bind _ (extends_trans P)); [frame P|]. intros g.
  apply (respects_bind _ (extends_trans P)); [frame P|]. intros _.
  destruct (dev_creates dev k (gl_next g)); [|frame P].
  apply (respects_bind _ (extends_trans P)); [|intros; frame P].
  apply set_gl_logs. apply HP.
Qed.

Lemma delete_extends (P : Event -> bool) k obj :
  P (EvDelete k obj) = true -> respects (extends P) (delete k obj).
Proof. intros HP. apply set_gl_logs. exact HP. Qed.

Lemma now_extends P dev : respects (extends P) (now dev).
Proof. unfold now. frame P. Qed.

Lemma compileShader_extends dev source stage :
  respects (extends compile_event) (compileShader dev source stage).
Proof.
  unfold compileShader.
  apply (respects_bind _ (extends_trans _)); [apply create_extends; reflexivity|].
  intros [shader|]; [|frame compile_event].
  apply (respects_bind _ (extends_trans _)); [frame compile_event|]. intros _.
  destruct (dev_compile_log dev stage source); [|frame compile_event].
  apply (respects_bind _ (extends_trans _)); [apply delete_extends; reflexivity|].
  intros; frame compile_event.
Qed.

Lemma createProgram_extends dev vs fs :
  respects (extends compile_event) (createProgram dev vs fs).
Proof.
  unfold createProgram.
  apply (respects_bind _ (extends_trans _)); [apply compileShader_extends|]. intros vsh.
  apply (respects_bind _ (extends_trans _)); [apply compileShader_extends|]. intros fsh.
  apply (respects_bind _ (extends_trans _)); [apply create_extends; reflexivity|].
  intros [program|]; [|frame compile_event].
  apply (respects_bind _ (extends_trans _)); [frame compile_event|]. intros _.
  destruct (dev_link_log dev vs fs).
  - apply (respects_bind _ (extends_trans _)); [apply delete_extends; reflexivity|].
    intros; frame compile_event.
  - apply (respects_bind _ (extends_trans _)); [apply delete_extends; reflexivity|].
    intros _.
    apply (respects_bind _ (extends_trans _)); [apply delete_extends; reflexivity|].
    intros; frame compile_event.
Qed.

Lemma getProgram_extends dev fragmentShader :
  respects (extends compile_event) (getProgram dev fragmentShader).
Proof.
  unfold getProgram.
  apply (respects_bind _ (extends_trans _)); [frame compile_event|]. intros p.
  destruct (Map_get fragmentShader (programs p)); [frame compile_event|].
  apply (respects_bind _ (extends_trans _)); [apply createProgram_extends|].
  intros; frame compile_event.
Qed.

Lemma compile_event_render e : compile_event e = true -> render_event e = true.
Proof. destruct e as [[]| | | | | |]; simpl; auto. Qed.

Lemma render_event_run e : render_event e = true -> run_event e = true.
Proof. unfold run_event. intros ->. reflexivity. Qed.

Lemma renderFilter_extends dev input frag uniforms fb width height :
  respects (extends render_event) (renderFilter dev input frag uniforms fb width height).
Proof.
  unfold renderFilter.
  apply (respects_bind _ (extends_trans _)).
  { eapply respects_weaken; [apply compile_event_render | apply getProgram_extends]. }
  intros _.
  apply (respects_bind _ (extends_trans _)); [apply now_extends|]. intros t0.
  apply (respects_bind _ (extends_trans _)); [frame render_event|]. intros p.
  apply (respects_bind _ (extends_trans _)).
  { destruct (ext p); [|frame render_event].
    apply (respects_bind _ (extends_trans _)); [apply create_extends; reflexivity|].
    intros; frame render_event. }
  intros _.
  apply (respects_bind _ (extends_trans _)); [frame render_event|]. intros _.
  apply (respects_bind _ (extends_trans _)); [frame render_event|]. intros _.
  apply (respects_bind _ (extends_trans _)); [frame render_event|]. intros _.
  apply (respects_bind _ (extends_trans _)); [frame render_event|]. intros _.
  apply (respects_bind _ (extends_trans _)); [apply now_extends|]. intros t1.
  frame render_event.
Qed.

Lemma clear_extends : respects (extends render_event) clear.
Proof. unfold clear. frame render_event. Qed.

Lemma pass_extends dev width height count f index v :
  respects (extends render_event) (pass dev width height count f index v).
Proof.
  unfold pass.
  apply (respects_bind _ (extends_trans _)); [apply renderFilter_extends|]. intros t.
  destruct (negb (Nat.eqb index (count - 1))); frame render_event.
Qed.

Lemma passes_from_extends dev width height count filters :
  forall index v,
    respects (extends render_event) (passes_from dev width height count filters index v).
Proof.
  induction filters as [|f rest IH]; intros index v; simpl.
  - frame render_event.
  - apply (respects_bind _ (extends_trans _)); [apply pass_extends|]. intros v'. apply IH.
Qed.

Lemma render_extends dev width height enabledFilters input fbo1 fbo2 :
  respects (extends render_event) (render dev width height enabledFilters input fbo1 fbo2).
Proof.
  unfold render. destruct enabledFilters as [|f rest].
  - apply (respects_bind _ (extends_trans _)); [apply clear_extends|]. intros _.
    apply (respects_bind _ (extends_trans _)); [apply renderFilter_extends|]. intros t.
    frame render_event.
  - apply (respects_bind _ (extends_trans _)); [apply clear_extends|]. intros _.
    apply (respects_bind _ (extends_trans _)); [apply passes_from_extends|]. intros v.
    frame render_event.
Qed.

Lemma forEach_delete_extends k l :
  respects (extends is_delete) (forEach (delete k) l).
Proof.
  apply (respects_forEach _ (extends_refl _) (extends_trans _)).
  intros obj. apply delete_extends. reflexivity.
Qed.

Lemma destroy_extends : respects (extends is_delete) destroy.
Proof.
  unfold destroy.
  apply (respects_bind _ (extends_trans _)); [frame is_delete|]. intros p.
  apply (respects_bind _ (extends_trans _)).
  { apply (respects_forEach _ (extends_refl _) (extends_trans _)).
    intros kv. apply delete_extends. reflexivity. }
  intros _.
  apply (respects_bind _ (extends_trans _)); [frame is_delete|]. intros _.
  apply (respects_bind _ (extends_trans _)); [frame is_delete|]. intros p1.
  apply (respects_bind _ (extends_trans _)); [apply forEach_delete_extends|]. intros _.
  apply (respects_bind _ (extends_trans _)); [frame is_delete|]. intros _.
  apply (respects_bind _ (extends_trans _)); [frame is_delete|]. intros p2.
  apply (respects_bind _ (extends_trans _)); [apply forEach_delete_extends|]. intros _.
  apply (respects_bind _ (extends_trans _)); [frame is_delete|]. intros _.
  apply (respects_bind _ (extends_trans _)); [frame is_delete|]. intros p3.
  apply (respects_bind _ (extends_trans _)).
  { destruct (positionBuffer p3); simpl; [apply delete_extends; reflexivity|frame is_delete]. }
  intros _.
  destruct (indexBuffer p3); simpl; [apply delete_extends; reflexivity|frame is_delete].
Qed.

(** ** Setup *)

Lemma allocated_app k l1 l2 :
  allocated k (l1 ++ l2) = allocated k l1 + allocated k l2.
Proof. unfold allocated. rewrite filter_app, length_app. reflexivity. Qed.

Lemma releases_app l1 l2 : releases (l1 ++ l2) = releases l1 + releases l2.
Proof. unfold releases. rewrite filter_app, length_app. reflexivity. Qed.

Lemma allocations_app l1 l2 : allocations (l1 ++ l2) = allocations l1 + allocations l2.
Proof. unfold allocations. rewrite filter_app, length_app. reflexivity. Qed.

Lemma draws_app l1 l2 : draws (l1 ++ l2) = (draws l1 ++ draws l2)%list.
Proof.
  induction l1 as [|e l1 IH]; simpl; [reflexivity|].
  destruct e; simpl; rewrite IH; reflexivity.
Qed.

Ltac run_setup :=
  unfold setup, new_WebGLProcessor, setupGeometry, createTexture, createFramebuffer,
    push_texture, push_framebuffer, create, bind, get_this, get_gl, set_gl,
    set_this, ret, throw; simpl.

(** A setup that completes has created the input texture and the two render
    targets, in that order, after the two geometry buffers. *)
Lemma setup_Ok dev width height img s input fbo1 fbo2 s' :
  setup dev width height img s = (Ok (input, fbo1, fbo2), s') ->
  let n := gl_next (gl s) in
  input = S (S n) /\
  fbo1 = {| framebuffer := S (S (S (S n))); texture := S (S (S n)) |} /\
  fbo2 = {| framebuffer := S (S (S (S (S (S n))))); texture := S (S (S (S (S n)))) |} /\
  (exists evs,
      gl_log (gl s') = (gl_log (gl s) ++ evs)%list /\
      allocated KFramebuffer evs = 2 /\ allocated KTexture evs = 3 /\
      forallb is_create evs = true) /\
  gl_texture (gl s') =
    (texture fbo2, Blank) :: (texture fbo1, Blank) :: (input, Uploaded img)
    :: gl_texture (gl s) /\
  gl_attach (gl s') =
    (framebuffer fbo2, texture fbo2) :: (framebuffer fbo1, texture fbo1)
    :: gl_attach (gl s) /\
  gl_bound (gl s') = Some (framebuffer fbo2) /\
  gl_canvas (gl s') = gl_canvas (gl s) /\
  gl_clock (gl s') = gl_clock (gl s) /\
  programs (this s') = programs (this s) /\
  ext (this s') = dev_timer_ext dev /\
  framebuffers (this s') =
    (framebuffers (this s) ++ [framebuffer fbo1; framebuffer fbo2])%list /\
  textures (this s') =
    (textures (this s) ++ [input; texture fbo1; texture fbo2])%list.
Proof.
  run_setup.
  destruct (dev_webgl dev); simpl; [|discriminate].
  destruct (dev_creates dev KBuffer (gl_next (gl s))); simpl;
  destruct (dev_creates dev KBuffer (S (gl_next (gl s)))); simpl;
  (destruct (dev_creates dev KTexture (S (S (gl_next (gl s))))); simpl; [|discriminate]);
  (destruct (dev_creates dev KTexture (S (S (S (gl_next (gl s)))))); simpl; [|discriminate]);
  (destruct (dev_creates dev KFramebuffer (S (S (S (S (gl_next (gl s))))))); simpl; [|discriminate]);
  (destruct (dev_fb_complete dev width height); simpl; [|discriminate]);
  (destruct (dev_creates dev KTexture (S (S (S (S (S (gl_next (gl s)))))))); simpl; [|discriminate]);
  (destruct (dev_creates dev KFramebuffer (S (S (S (S (S (S (gl_next (gl s))))))))); simpl; [|discriminate]);
  intros [= <- <- <- <-]; simpl;
  repeat rewrite <- app_assoc; simpl;
  (repeat split; try reflexivity);
  eexists; (split; [reflexivity|]); repeat split; reflexivity.
Qed.

(** ** The run, phase by phase *)

Lemma forEach_Ok {A} (f : A -> M unit) l s :
  (forall a s0, fst (f a s0) = Ok tt) -> fst (forEach f l s) = Ok tt.
Proof.
  intros Hf. revert s. induction l as [|a l IH]; intros s; simpl; [reflexivity|].
  rewrite bind_eq. specialize (Hf a s). destruct (f a s) as [[[]|e] s1]; simpl in *.
  - apply IH.
  - discriminate.
Qed.

Lemma destroy_Ok s : fst (destroy s) = Ok tt.
Proof.
  unfold destroy. rewrite bind_eq. simpl.
  rewrite bind_eq.
  pose proof (forEach_Ok (fun kv : JSVal * nat => delete KProgram (snd kv))
                (programs (this s)) s (fun _ _ => eq_refl)) as H1.
  destruct (forEach _ (programs (this s)) s) as [[[]|e] s1]; simpl in H1; [|discriminate].
  rewrite bind_eq. simpl. rewrite bind_eq. simpl. rewrite bind_eq.
  match goal with |- context [forEach ?f ?l ?st] =>
    pose proof (forEach_Ok f l st (fun _ _ => eq_refl)) as H2;
    destruct (forEach f l st) as [[[]|e] s2]; simpl in H2; [|discriminate] end.
  rewrite bind_eq. simpl. rewrite bind_eq. simpl. rewrite bind_eq.
  match goal with |- context [forEach ?f ?l ?st] =>
    pose proof (forEach_Ok f l st (fun _ _ => eq_refl)) as H3;
    destruct (forEach f l st) as [[[]|e] s3]; simpl in H3; [|discriminate] end.
  rewrite bind_eq. simpl. rewrite bind_eq. simpl. rewrite bind_eq.
  destruct (positionBuffer (this s3)); destruct (indexBuffer (this s3)); reflexivity.
Qed.

Lemma run_unfold dev width height imageSrc pipeline img :
  dev_decode dev imageSrc = Some img ->
  run dev width height imageSrc pipeline =
  match try_block dev width height img pipeline (dev_now dev 0) started with
  | (Ok r, s') => (r, s')
  | (Thrown e, s') => (failure e, s')
  end.
Proof.
  intros Hd. unfold run. rewrite Hd. unfold onload. rewrite bind_eq. simpl.
  fold started.
  destruct (try_block dev width height img pipeline (dev_now dev 0) started)
    as [[r|e] s']; reflexivity.
Qed.

(** The [try] block after a completed setup: a rendering failure ends it
    there; otherwise the clock is read, the canvas encoded and [destroy]
    run. *)
Lemma try_block_after_setup dev width height img pipeline t0 s input fbo1 fbo2 s1 :
  setup dev width height img s = (Ok (input, fbo1, fbo2), s1) ->
  try_block dev width height img pipeline t0 s =
  match render dev width height (filter enabled pipeline) input fbo1 fbo2 s1 with
  | (Thrown e, s2) => (Thrown e, s2)
  | (Ok g, s2) =>
      (Ok {| success := true; gpuTime := g;
             totalTime := (dev_now dev (gl_clock (gl s2)) - t0)%Q;
             memoryUsage :=
               getMemoryUsage width height
                 (Z.of_nat (length (filter enabled pipeline)) + 2);
             imageDataUrl :=
               Some {| enc_width := canvas_dimension 300 width;
                       enc_height := canvas_dimension 150 height;
                       enc_content := gl_canvas (gl s2) |};
             error := None |},
       snd (destroy {| gl := bump_clock (gl s2); this := this s2 |}))
  end.
Proof.
  intros Hs. unfold try_block. rewrite bind_eq, Hs. rewrite bind_eq.
  destruct (render dev width height (filter enabled pipeline) input fbo1 fbo2 s1)
    as [[g|e] s2]; [|reflexivity].
  rewrite bind_eq. simpl. rewrite bind_eq. simpl. rewrite bind_eq.
  pose proof (destroy_Ok {| gl := bump_clock (gl s2); this := this s2 |}) as Hd.
  destruct (destroy {| gl := bump_clock (gl s2); this := this s2 |}) as [[[]|e] s3];
    simpl in Hd; [reflexivity|discriminate].
Qed.

Lemma try_block_setup_thrown dev width height img pipeline t0 s e s1 :
  setup dev width height img s = (Thrown e, s1) ->
  try_block dev width height img pipeline t0 s = (Thrown e, s1).
Proof. intros Hs. unfold try_block. rewrite bind_eq, Hs. reflexivity. Qed.

(** After a completed setup the rest of the run only renders and deletes. *)
Lemma run_extends_setup dev width height imageSrc pipeline img input fbo1 fbo2 s1 :
  dev_decode dev imageSrc = Some img ->
  setup dev width height img started = (Ok (input, fbo1, fbo2), s1) ->
  extends run_event s1 (snd (run dev width height imageSrc pipeline)).
Proof.
  intros Hd Hs. rewrite (run_unfold _ _ _ _ _ _ Hd).
  rewrite (try_block_after_setup _ _ _ _ _ _ _ _ _ _ _ Hs).
  pose proof (render_extends dev width height (filter enabled pipeline) input fbo1 fbo2 s1)
    as Hr.
  destruct (render dev width height (filter enabled pipeline) input fbo1 fbo2 s1)
    as [[g|e] s2]; simpl in *.
  - eapply extends_trans.
    + eapply extends_weaken; [apply render_event_run | exact Hr].
    + pose proof (destroy_extends {| gl := bump_clock (gl s2); this := this s2 |}) as Hx.
      eapply extends_weaken; [|exact Hx].
      intros e He. unfold run_event. rewrite He. apply Bool.orb_true_r.
  - eapply extends_weaken; [apply render_event_run | exact Hr].
Qed.

Lemma run_event_allocates_no_target evs :
  forallb run_event evs = true ->
  allocated KFramebuffer evs = 0 /\ allocated KTexture evs = 0.
Proof.
  induction evs as [|e evs IH]; simpl; [auto|].
  intros H. apply Bool.andb_true_iff in H. destruct H as [He H].
  destruct (IH H) as [IH1 IH2]. unfold allocated in *. simpl.
  destruct e as [[]| | | | | |]; simpl in *; auto; discriminate.
Qed.

(** ** The passes *)

Lemma compile_event_no_draw evs :
  forallb compile_event evs = true -> draws evs = [].
Proof.
  induction evs as [|e evs IH]; simpl; [auto|].
  intros H. apply Bool.andb_true_iff in H. destruct H as [He H].
  destruct e; simpl in *; try discriminate; auto.
Qed.

Lemma is_delete_no_draw evs :
  forallb is_delete evs = true -> draws evs = [].
Proof.
  induction evs as [|e evs IH]; simpl; [auto|].
  intros H. apply Bool.andb_true_iff in H. destruct H as [He H].
  destruct e; simpl in *; try discriminate; auto.
Qed.

(** [renderFilter] issues its draw call exactly when it returns. *)
Lemma renderFilter_draws dev input frag uniforms fb width height s o s' :
  renderFilter dev input frag uniforms fb width height s = (o, s') ->
  draws (gl_log (gl s')) =
  (draws (gl_log (gl s)) ++
   match o with
   | Ok _ => [ {| pass_input := input; pass_frag := frag; pass_uniforms := uniforms;
                  pass_target := fb; pass_width := width; pass_height := height |} ]
   | Thrown _ => []
   end)%list.
Proof.
  unfold renderFilter. rewrite bind_eq.
  pose proof (getProgram_extends dev frag s) as (evs & Hlog & Hev).
  destruct (getProgram dev frag s) as [[program|e] s1]; simpl in Hlog.
  - unfold now, create, bind, get_this, get_gl, set_gl, ret, throw. simpl.
    destruct (ext (this s1)); simpl;
      [destruct (dev_creates dev KQuery (gl_next (gl s1))); simpl|];
      intros [= <- <-]; simpl; rewrite ?log_write_target; simpl;
      rewrite Hlog; repeat rewrite draws_app;
      rewrite (compile_event_no_draw _ Hev); simpl;
      repeat rewrite app_nil_r; reflexivity.
  - intros [= <- <-]. rewrite Hlog, draws_app, (compile_event_no_draw _ Hev).
    reflexivity.
Qed.

(** One loop iteration: the draw call it issues and the locals it leaves. *)
Lemma pass_draws dev width height count f index v s o s' :
  pass dev width height count f index v s = (o, s') ->
  match o with
  | Ok v' =>
      draws (gl_log (gl s')) =
      (draws (gl_log (gl s)) ++
       [ {| pass_input := currentTexture v;
            pass_frag := getShaderForFilter (id f);
            pass_uniforms :=
              build_uniforms (currentTexture v) width height (parameters f);
            pass_target :=
              if Nat.eqb index (count - 1) then None
              else Some (framebuffer (currentFBO v));
            pass_width := width; pass_height := height |} ])%list /\
      currentTexture v' =
        (if Nat.eqb index (count - 1) then currentTexture v else texture (currentFBO v)) /\
      currentFBO v' =
        (if Nat.eqb index (count - 1) then currentFBO v else nextFBO v) /\
      nextFBO v' =
        (if Nat.eqb index (count - 1) then nextFBO v else currentFBO v)
  | Thrown _ => draws (gl_log (gl s')) = draws (gl_log (gl s))
  end.
Proof.
  unfold pass. rewrite bind_eq.
  match goal with |- context [renderFilter ?d ?i ?fr ?u ?fb ?w ?h s] =>
    pose proof (renderFilter_draws d i fr u fb w h s) as Hr;
    destruct (renderFilter d i fr u fb w h s) as [[t|e] s1]
  end; specialize (Hr _ _ eq_refl).
  - destruct (Nat.eqb index (count - 1)); simpl; intros [= <- <-]; simpl; auto.
  - intros [= <- <-]. rewrite Hr, app_nil_r. reflexivity.
Qed.

Lemma target_at_SS fbo1 fbo2 i : target_at fbo1 fbo2 (S (S i)) = target_at fbo1 fbo2 i.
Proof. reflexivity. Qed.

(** The loop issues the planned passes in order, all of them if it returns
    and a leading part of them if a pass throws. *)
Lemma passes_from_draws dev width height count input fbo1 fbo2 filters :
  forall index v s o s',
    passes_from dev width height count filters index v s = (o, s') ->
    index + length filters = count ->
    currentTexture v = input_at input fbo1 fbo2 index ->
    currentFBO v = target_at fbo1 fbo2 index ->
    nextFBO v = target_at fbo1 fbo2 (S index) ->
    exists k,
      k <= length filters /\
      draws (gl_log (gl s')) =
      (draws (gl_log (gl s)) ++
       firstn k (plan width height count input fbo1 fbo2 filters index))%list /\
      (forall v', o = Ok v' -> k = length filters).
Proof.
  induction filters as [|f rest IH]; intros index v s o s' H Hcount Ht Hc Hn; simpl in *.
  - unfold ret in H. injection H as <- <-. exists 0. simpl.
    rewrite app_nil_r. auto.
  - rewrite bind_eq in H.
    pose proof (pass_draws dev width height count f index v s) as Hp.
    destruct (pass dev width height count f index v s) as [[v1|e] s1];
      specialize (Hp _ _ eq_refl).
    + destruct Hp as (Hd & Ht1 & Hc1 & Hn1).
      destruct rest as [|f2 rest2].
      * simpl in H. unfold ret in H. injection H as <- <-.
        exists 1. simpl. split; [lia|]. split; [|auto].
        rewrite Hd. unfold planned_pass. rewrite Ht, Hc. reflexivity.
      * assert (Hlast : Nat.eqb index (count - 1) = false).
        { apply Nat.eqb_neq. simpl in Hcount. lia. }
        rewrite Hlast in *.
        destruct (IH (S index) v1 s1 o s' H) as (k & Hk & Hdr & Hall).
        -- simpl in *. lia.
        -- rewrite Ht1, Hc. reflexivity.
        -- rewrite Hc1, Hn. reflexivity.
        -- rewrite Hn1, Hc. rewrite target_at_SS. reflexivity.
        -- exists (S k). split; [simpl in *; lia|]. split.
           ++ rewrite Hdr, Hd, <- app_assoc. simpl. unfold planned_pass at 2.
              rewrite Ht, Hc, Hlast. reflexivity.
           ++ intros v' Ho. simpl. f_equal. apply (Hall v' Ho).
    + injection H as <- <-. exists 0. simpl. rewrite app_nil_r.
      split; [lia|]. split; [exact Hp|]. intros v' Hv. discriminate.
Qed.

Lemma nth_error_plan width height count input fbo1 fbo2 filters :
  forall index j,
    nth_error (plan width height count input fbo1 fbo2 filters index) j =
    option_map (fun f => planned_pass width height count input fbo1 fbo2 f (index + j))
      (nth_error filters j).
Proof.
  induction filters as [|f rest IH]; intros index j; simpl.
  - destruct j; reflexivity.
  - destruct j as [|j]; simpl.
    + rewrite Nat.add_0_r. reflexivity.
    + rewrite IH. rewrite Nat.add_succ_r. reflexivity.
Qed.

Lemma length_plan width height count input fbo1 fbo2 filters index :
  length (plan width height count input fbo1 fbo2 filters index) = length filters.
Proof.
  revert index. induction filters as [|f rest IH]; intros index; simpl; auto.
Qed.

Lemma clear_draws s : draws (gl_log (gl (snd (clear s)))) = draws (gl_log (gl s)).
Proof.
  unfold clear, bind, set_gl. simpl. rewrite log_write_target. simpl.
  rewrite draws_app. simpl. apply app_nil_r.
Qed.

Lemma clear_Ok s : fst (clear s) = Ok tt.
Proof. reflexivity. Qed.

(** The draw calls of the rendering phase for a non-empty list of enabled
    filters. *)
Lemma render_draws dev width height f rest input fbo1 fbo2 s o s' :
  render dev width height (f :: rest) input fbo1 fbo2 s = (o, s') ->
  exists k,
    k <= length (f :: rest) /\
    draws (gl_log (gl s')) =
    (draws (gl_log (gl s)) ++
     firstn k (plan width height (length (f :: rest)) input fbo1 fbo2 (f :: rest) 0))%list /\
    (forall g, o = Ok g -> k = length (f :: rest)).
Proof.
  unfold render. rewrite bind_eq.
  pose proof (clear_draws s) as Hc.
  destruct (clear s) as [[[]|e] s1] eqn:Ec; [|discriminate Ec].
  simpl in Hc. rewrite bind_eq.
  destruct (passes_from dev width height (length (f :: rest)) (f :: rest) 0
              {| currentTexture := input; currentFBO := fbo1; nextFBO := fbo2;
                 totalGpuTime := 0 |} s1) as [[v|e] s2] eqn:Ep.
  - intros [= <- <-].
    destruct (passes_from_draws dev width height (length (f :: rest)) input fbo1 fbo2
                (f :: rest) 0 _ s1 _ _ Ep) as (k & Hk & Hd & Hall); try reflexivity.
    exists k. split; [exact Hk|]. split; [rewrite Hd, Hc; reflexivity|].
    intros g _. apply (Hall v eq_refl).
  - intros [= <- <-].
    destruct (passes_from_draws dev width height (length (f :: rest)) input fbo1 fbo2
                (f :: rest) 0 _ s1 _ _ Ep) as (k & Hk & Hd & Hall); try reflexivity.
    exists k. split; [exact Hk|]. split; [rewrite Hd, Hc; reflexivity|].
    intros g Hg. discriminate.
Qed.

(** ** What each operation does to attachments and contents *)

Lemma same_surfaces_refl s : same_surfaces s s.
Proof. repeat split. Qed.

Lemma same_surfaces_trans a b c :
  same_surfaces a b -> same_surfaces b c -> same_surfaces a c.
Proof. unfold same_surfaces. intros (?&?&?) (?&?&?). repeat split; congruence. Qed.

Ltac frame_gen Rrefl Rtrans leaf :=
  repeat first
    [ leaf
    | apply (respects_bind _ Rtrans); [|intros ?]
    | apply (respects_ret _ Rrefl)
    | apply (respects_throw _ Rrefl)
    | apply (respects_get_gl _ Rrefl)
    | apply (respects_get_this _ Rrefl)
    | match goal with
      | |- respects _ (match ?x with _ => _ end) => destruct x
      end
    | assumption ].

Ltac surfaces_leaf :=
  solve [ intros ?; unfold same_surfaces; simpl; auto ].

Ltac attach_leaf :=
  solve [ intros ?; unfold same_attach; simpl;
          first [reflexivity | apply attach_write_target] ].

Lemma create_same_surfaces dev k : respects same_surfaces (create dev k).
Proof. unfold create. frame_gen same_surfaces_refl same_surfaces_trans surfaces_leaf. Qed.

Lemma delete_same_surfaces k obj : respects same_surfaces (delete k obj).
Proof. unfold delete. surfaces_leaf. Qed.

Lemma now_same_surfaces dev : respects same_surfaces (now dev).
Proof. unfold now. frame_gen same_surfaces_refl same_surfaces_trans surfaces_leaf. Qed.

Lemma compileShader_same_surfaces dev source stage :
  respects same_surfaces (compileShader dev source stage).
Proof.
  unfold compileShader.
  frame_gen same_surfaces_refl same_surfaces_trans
    ltac:(first [apply create_same_surfaces | apply delete_same_surfaces | surfaces_leaf]).
Qed.

Lemma createProgram_same_surfaces dev vs fs :
  respects same_surfaces (createProgram dev vs fs).
Proof.
  unfold createProgram.
  frame_gen same_surfaces_refl same_surfaces_trans
    ltac:(first [apply compileShader_same_surfaces | apply create_same_surfaces
                | apply delete_same_surfaces | surfaces_leaf]).
Qed.

Lemma getProgram_same_surfaces dev fragmentShader :
  respects same_surfaces (getProgram dev fragmentShader).
Proof.
  unfold getProgram.
  frame_gen same_surfaces_refl same_surfaces_trans
    ltac:(first [apply createProgram_same_surfaces | surfaces_leaf]).
Qed.

Lemma same_surfaces_attach s s' : same_surfaces s s' -> same_attach s s'.
Proof. intros (H & _). exact H. Qed.

Lemma surfaces_respects_attach {A} (m : M A) :
  respects same_surfaces m -> respects same_attach m.
Proof. intros H s. apply same_surfaces_attach, H. Qed.

Lemma renderFilter_same_attach dev input frag uniforms fb width height :
  respects same_attach (renderFilter dev input frag uniforms fb width height).
Proof.
  unfold renderFilter.
  frame_gen same_attach_refl same_attach_trans
    ltac:(first [ apply surfaces_respects_attach, getProgram_same_surfaces
                | apply surfaces_respects_attach, now_same_surfaces
                | apply surfaces_respects_attach, create_same_surfaces
                | attach_leaf ]).
Qed.

Lemma clear_same_attach : respects same_attach clear.
Proof. unfold clear. frame_gen same_attach_refl same_attach_trans attach_leaf. Qed.

Lemma pass_same_attach dev width height count f index v :
  respects same_attach (pass dev width height count f index v).
Proof.
  unfold pass.
  apply (respects_bind _ same_attach_trans); [apply renderFilter_same_attach|]. intros t.
  destruct (negb (Nat.eqb index (count - 1)));
    frame_gen same_attach_refl same_attach_trans attach_leaf.
Qed.

Lemma passes_from_same_attach dev width height count filters :
  forall index v,
    respects same_attach (passes_from dev width height count filters index v).
Proof.
  induction filters as [|f rest IH]; intros index v; simpl.
  - apply (respects_ret _ same_attach_refl).
  - apply (respects_bind _ same_attach_trans); [apply pass_same_attach|]. intros v'. apply IH.
Qed.

Lemma render_same_attach dev width height enabledFilters input fbo1 fbo2 :
  respects same_attach (render dev width height enabledFilters input fbo1 fbo2).
Proof.
  unfold render. destruct enabledFilters as [|f rest];
  frame_gen same_attach_refl same_attach_trans
    ltac:(first [ apply clear_same_attach | apply renderFilter_same_attach
                | apply passes_from_same_attach | attach_leaf ]).
Qed.

Lemma destroy_same_attach : respects same_attach destroy.
Proof.
  unfold destroy, delete_opt.
  frame_gen same_attach_refl same_attach_trans
    ltac:(first [ apply (respects_forEach _ same_attach_refl same_attach_trans); intros ?
                | apply surfaces_respects_attach, delete_same_surfaces
                | attach_leaf ]).
Qed.

(** After a completed setup the attachments stay as the setup made them. *)
Lemma run_same_attach dev width height imageSrc pipeline img input fbo1 fbo2 s1 :
  dev_decode dev imageSrc = Some img ->
  setup dev width height img started = (Ok (input, fbo1, fbo2), s1) ->
  same_attach s1 (snd (run dev width height imageSrc pipeline)).
Proof.
  intros Hd Hs. rewrite (run_unfold _ _ _ _ _ _ Hd).
  rewrite (try_block_after_setup _ _ _ _ _ _ _ _ _ _ _ Hs).
  pose proof (render_same_attach dev width height (filter enabled pipeline) input fbo1 fbo2 s1)
    as Hr.
  destruct (render dev width height (filter enabled pipeline) input fbo1 fbo2 s1)
    as [[g|e] s2]; simpl in *; [|exact Hr].
  eapply same_attach_trans; [exact Hr|].
  pose proof (destroy_same_attach {| gl := bump_clock (gl s2); this := this s2 |}) as Hx.
  unfold same_attach in *. simpl in Hx. exact Hx.
Qed.

Lemma destroy_same_surfaces : respects same_surfaces destroy.
Proof.
  unfold destroy, delete_opt.
  frame_gen same_surfaces_refl same_surfaces_trans
    ltac:(first [ apply (respects_forEach _ same_surfaces_refl same_surfaces_trans); intros ?
                | apply delete_same_surfaces
                | surfaces_leaf ]).
Qed.

Lemma destroy_same_surfaces_texture s :
  gl_texture (gl (snd (destroy s))) = gl_texture (gl s).
Proof. apply destroy_same_surfaces. Qed.

(** ** The passes of a whole run *)

Lemma is_create_no_draw evs :
  forallb is_create evs = true -> draws evs = [].
Proof.
  induction evs as [|e evs IH]; simpl; [auto|].
  intros H. apply Bool.andb_true_iff in H. destruct H as [He H].
  destruct e; simpl in *; try discriminate; auto.
Qed.

Lemma setup_no_draw dev width height img input fbo1 fbo2 s1 :
  setup dev width height img started = (Ok (input, fbo1, fbo2), s1) ->
  draws (gl_log (gl s1)) = [].
Proof.
  intros Hs.
  destruct (setup_Ok _ _ _ _ _ _ _ _ _ Hs) as (_ & _ & _ & (evs & Hlog & _ & _ & Hc) & _).
  rewrite Hlog. simpl. apply is_create_no_draw, Hc.
Qed.

Lemma destroy_draws s : draws (gl_log (gl (snd (destroy s)))) = draws (gl_log (gl s)).
Proof.
  destruct (destroy_extends s) as (evs & Hlog & Hev).
  rewrite Hlog, draws_app, (is_delete_no_draw _ Hev). apply app_nil_r.
Qed.

(** With at least one enabled filter, the draw calls of a run are the
    planned passes, all of them when the run succeeds. *)
Lemma run_draws dev width height imageSrc pipeline img input fbo1 fbo2 s1 :
  dev_decode dev imageSrc = Some img ->
  setup dev width height img started = (Ok (input, fbo1, fbo2), s1) ->
  filter enabled pipeline <> [] ->
  let enabledFilters := filter enabled pipeline in
  let outcome := run dev width height imageSrc pipeline in
  exists k,
    k <= length enabledFilters /\
    draws (gl_log (gl (snd outcome))) =
      firstn k (plan width height (length enabledFilters) input fbo1 fbo2 enabledFilters 0) /\
    (success (fst outcome) = true -> k = length enabledFilters).
Proof.
  intros Hd Hs Hne enabledFilters outcome. unfold outcome.
  rewrite (run_unfold _ _ _ _ _ _ Hd).
  rewrite (try_block_after_setup _ _ _ _ _ _ _ _ _ _ _ Hs).
  fold enabledFilters. unfold enabledFilters in Hne.
  destruct (filter enabled pipeline) as [|f rest] eqn:Ef; [congruence|].
  subst enabledFilters.
  destruct (render dev width height (f :: rest) input fbo1 fbo2 s1) as [[g|e] s2] eqn:Er;
    destruct (render_draws _ _ _ _ _ _ _ _ _ _ _ Er) as (k & Hk & Hdr & Hall);
    rewrite (setup_no_draw _ _ _ _ _ _ _ _ Hs) in Hdr; simpl in Hdr;
    exists k; (split; [exact Hk|]); simpl fst; simpl snd.
  - rewrite destroy_draws. simpl. split; [exact Hdr|].
    intros _. apply (Hall g eq_refl).
  - split; [exact Hdr|]. simpl. discriminate.
Qed.

Lemma nth_error_firstn_Some {A} (l : list A) k i a :
  nth_error (firstn k l) i = Some a -> nth_error l i = Some a /\ i < k.
Proof.
  revert k i. induction l as [|x l IH]; intros k i.
  - rewrite firstn_nil. destruct i; discriminate.
  - destruct k as [|k]; simpl; [destruct i; discriminate|].
    destruct i as [|i]; simpl.
    + intros H. split; [exact H|lia].
    + intros H. destruct (IH _ _ H). split; [assumption|lia].
Qed.

(** ** Ping-pong routing *)

(** C3.  In a run with N >= 1 enabled filters, the draw call of pass [i]
    goes to the canvas exactly when [i = N - 1] and otherwise to the
    framebuffer of the current off-screen target, which alternates between
    the two targets from one pass to the next; pass 0 samples the input
    texture and pass [i + 1] samples the texture attached to the framebuffer
    pass [i] drew into.  A successful run has issued all N passes, so its
    last pass went to the canvas. *)
Theorem passes_ping_pong
    dev width height imageSrc img pipeline input fbo1 fbo2 s1 :
  dev_decode dev imageSrc = Some img ->
  setup dev width height img started = (Ok (input, fbo1, fbo2), s1) ->
  let N := length (filter enabled pipeline) in
  let outcome := run dev width height imageSrc pipeline in
  let passes := draws (gl_log (gl (snd outcome))) in
  1 <= N ->
  (forall i p,
      nth_error passes i = Some p ->
      i < N /\
      (pass_target p = None <-> i = N - 1) /\
      (i <> N - 1 ->
       pass_target p = Some (framebuffer (target_at fbo1 fbo2 i)) /\
       lookup_nat (framebuffer (target_at fbo1 fbo2 i)) (gl_attach (gl (snd outcome)))
         = Some (texture (target_at fbo1 fbo2 i)) /\
       target_at fbo1 fbo2 (S i) <> target_at fbo1 fbo2 i /\
       target_at fbo1 fbo2 (S (S i)) = target_at fbo1 fbo2 i) /\
      (i = 0 -> pass_input p = input) /\
      (forall q,
          nth_error passes (S i) = Some q ->
          pass_target p = Some (framebuffer (target_at fbo1 fbo2 i)) /\
          pass_input q = texture (target_at fbo1 fbo2 i))) /\
  (success (fst outcome) = true -> length passes = N).
Proof.
  intros Hd Hs N outcome passes HN.
  assert (Hne : filter enabled pipeline <> []).
  { intros E. unfold N in HN. rewrite E in HN. simpl in HN. lia. }
  destruct (run_draws _ _ _ _ pipeline _ _ _ _ _ Hd Hs Hne) as (k & Hk & Hdr & Hall).
  fold N in Hk, Hdr, Hall. fold outcome in Hdr, Hall. fold passes in Hdr.
  pose proof (run_same_attach _ _ _ _ pipeline _ _ _ _ _ Hd Hs) as Hatt.
  fold outcome in Hatt. unfold same_attach in Hatt.
  destruct (setup_Ok _ _ _ _ _ _ _ _ _ Hs)
    as (Hi & H1 & H2 & _ & _ & Ha & _).
  assert (Hfb : framebuffer fbo1 <> framebuffer fbo2) by (subst fbo1 fbo2; simpl; lia).
  assert (Hlook : forall i,
             lookup_nat (framebuffer (target_at fbo1 fbo2 i)) (gl_attach (gl (snd outcome)))
             = Some (texture (target_at fbo1 fbo2 i))).
  { intros i. rewrite Hatt, Ha. unfold target_at. simpl.
    destruct (Nat.even i).
    - destruct (Nat.eqb_spec (framebuffer fbo1) (framebuffer fbo2)); [contradiction|].
      rewrite Nat.eqb_refl. reflexivity.
    - rewrite Nat.eqb_refl. reflexivity. }
  assert (Hswap : forall i, target_at fbo1 fbo2 (S i) <> target_at fbo1 fbo2 i).
  { intros i. unfold target_at. rewrite Nat.even_succ, <- Nat.negb_even.
    destruct (Nat.even i); simpl; congruence. }
  split.
  - intros i p Hp. rewrite Hdr in Hp.
    apply nth_error_firstn_Some in Hp. destruct Hp as [Hp Hik].
    rewrite nth_error_plan in Hp.
    destruct (nth_error (filter enabled pipeline) i) as [f|] eqn:Ef;
      cbn [option_map] in Hp; [|discriminate].
    injection Hp as <-. unfold planned_pass. cbn [pass_target pass_input Nat.add].
    assert (HiN : i < N) by lia.
    split; [exact HiN|]. split.
    { destruct (Nat.eqb_spec i (N - 1)); split; intros; congruence. }
    split.
    { intros Hnl. destruct (Nat.eqb_spec i (N - 1)); [contradiction|].
      repeat split; auto. }
    split.
    { intros ->. reflexivity. }
    intros q Hq. rewrite Hdr in Hq.
    apply nth_error_firstn_Some in Hq. destruct Hq as [Hq HSik].
    rewrite nth_error_plan in Hq.
    destruct (nth_error (filter enabled pipeline) (S i)) as [f'|] eqn:Ef';
      cbn [option_map] in Hq; [|discriminate].
    injection Hq as <-. unfold planned_pass. cbn [pass_target pass_input Nat.add input_at].
    assert (S i < N).
    { apply nth_error_Some. fold N. unfold N. intros E. congruence. }
    destruct (Nat.eqb_spec i (N - 1)); [lia|]. auto.
  - intros Hsucc. rewrite Hdr, length_firstn, length_plan. fold N.
    rewrite (Hall Hsucc). apply Nat.min_id.
Qed.

Lemma passes_ping_pong_witness :
  dev_decode working_device "image.png" = Some sample_image /\
  1 <= length (filter enabled sample_pipeline) /\
  map pass_target
    (draws (gl_log (gl (snd (run working_device 4 4 "image.png" sample_pipeline)))))
  = [Some 4; Some 6; None] /\
  map pass_input
    (draws (gl_log (gl (snd (run working_device 4 4 "image.png" sample_pipeline)))))
  = [2; 3; 5] /\
  length (draws (gl_log (gl (snd (run working_device 4 4 "image.png" sample_pipeline)))))
  = 3.
Proof.
  assert (Hs : setup working_device 4 4 sample_image started
               = (Ok (2, {| framebuffer := 4; texture := 3 |},
                         {| framebuffer := 6; texture := 5 |}),
                  snd (setup working_device 4 4 sample_image started)))
    by (vm_compute; reflexivity).
  assert (HN : 1 <= length (filter enabled sample_pipeline)) by (simpl; lia).
  split; [reflexivity|]. split; [exact HN|].
  split; [vm_compute; reflexivity|]. split; [vm_compute; reflexivity|].
  apply (proj2 (passes_ping_pong working_device 4 4 "image.png" sample_image
                  sample_pipeline _ _ _ _ eq_refl Hs HN)).
  vm_compute. reflexivity.
Defined.

(** ** Only the enabled filters, in order *)

Lemma filter_Subsequence {A} (f : A -> bool) l : Subsequence (filter f l) l.
Proof.
  induction l as [|x l IH]; simpl; [constructor|].
  destruct (f x); constructor; exact IH.
Qed.

Lemma filter_idempotent {A} (f : A -> bool) l : filter f (filter f l) = filter f l.
Proof.
  induction l as [|x l IH]; simpl; [reflexivity|].
  destruct (f x) eqn:E; simpl; [rewrite E, IH|]; auto.
Qed.

(** The run reads the pipeline only through its enabled filters. *)
Lemma run_same_enabled dev width height imageSrc p1 p2 :
  filter enabled p1 = filter enabled p2 ->
  run dev width height imageSrc p1 = run dev width height imageSrc p2.
Proof.
  intros H. unfold run, onload, try_block. rewrite H. reflexivity.
Qed.

Lemma run_on_enabled dev width height imageSrc pipeline :
  run dev width height imageSrc pipeline =
  run dev width height imageSrc (filter enabled pipeline).
Proof. apply run_same_enabled. symmetry. apply filter_idempotent. Qed.

Lemma success_setup dev width height imageSrc pipeline :
  success (fst (run dev width height imageSrc pipeline)) = true ->
  exists img input fbo1 fbo2 s1,
    dev_decode dev imageSrc = Some img /\
    setup dev width height img started = (Ok (input, fbo1, fbo2), s1).
Proof.
  destruct (dev_decode dev imageSrc) as [img|] eqn:Hd.
  - rewrite (run_unfold _ _ _ _ _ _ Hd).
    destruct (setup dev width height img started) as [[[[input fbo1] fbo2]|e] s1] eqn:Hs.
    + intros _. exists img, input, fbo1, fbo2, s1. auto.
    + rewrite (try_block_setup_thrown _ _ _ _ _ _ _ _ _ Hs). simpl. discriminate.
  - unfold run. rewrite Hd. simpl. discriminate.
Qed.

Lemma setup_thrown_no_draw dev width height img s e s1 :
  setup dev width height img s = (Thrown e, s1) ->
  draws (gl_log (gl s1)) = draws (gl_log (gl s)).
Proof.
  run_setup.
  destruct (dev_webgl dev); simpl; [|intros [= <- <-]; reflexivity].
  destruct (dev_creates dev KBuffer (gl_next (gl s))); simpl;
  destruct (dev_creates dev KBuffer (S (gl_next (gl s)))); simpl;
  (destruct (dev_creates dev KTexture (S (S (gl_next (gl s))))); simpl;
     [|intros [= <- <-]; simpl; repeat rewrite draws_app; simpl;
       repeat rewrite app_nil_r; reflexivity]);
  (destruct (dev_creates dev KTexture (S (S (S (gl_next (gl s)))))); simpl;
     [|intros [= <- <-]; simpl; repeat rewrite draws_app; simpl;
       repeat rewrite app_nil_r; reflexivity]);
  (destruct (dev_creates dev KFramebuffer (S (S (S (S (gl_next (gl s))))))); simpl;
     [|intros [= <- <-]; simpl; repeat rewrite draws_app; simpl;
       repeat rewrite app_nil_r; reflexivity]);
  (destruct (dev_fb_complete dev width height); simpl;
     [|intros [= <- <-]; simpl; repeat rewrite draws_app; simpl;
       repeat rewrite app_nil_r; reflexivity]);
  (destruct (dev_creates dev KTexture (S (S (S (S (S (gl_next (gl s)))))))); simpl;
     [|intros [= <- <-]; simpl; repeat rewrite draws_app; simpl;
       repeat rewrite app_nil_r; reflexivity]);
  (destruct (dev_creates dev KFramebuffer (S (S (S (S (S (S (gl_next (gl s))))))))); simpl;
     [|intros [= <- <-]; simpl; repeat rewrite draws_app; simpl;
       repeat rewrite app_nil_r; reflexivity]);
  discriminate.
Qed.

Lemma Forall2_renders_plan width height count input fbo1 fbo2 filters :
  forall index k,
    k <= length filters ->
    Forall2 (renders width height)
      (firstn k (plan width height count input fbo1 fbo2 filters index))
      (firstn k filters).
Proof.
  induction filters as [|f rest IH]; intros index k Hk; simpl in *.
  - rewrite !firstn_nil. constructor.
  - destruct k as [|k]; simpl; constructor.
    + unfold renders, planned_pass. simpl. auto.
    + apply IH. lia.
Qed.

(** C4.  The filters the loop walks are the filters of the pipeline whose
    [enabled] flag is true, in pipeline order, and the run depends on the
    pipeline through them only.  With at least one of them, the draw calls of
    a run render them one for one in that order: all of them when the run
    succeeds, and a leading part when a pass throws.  With none, the run is
    the run of the empty pipeline. *)
Theorem enabled_filters_in_order dev width height imageSrc pipeline :
  let enabledFilters := filter enabled pipeline in
  let outcome := run dev width height imageSrc pipeline in
  let passes := draws (gl_log (gl (snd outcome))) in
  (forall f, In f enabledFilters <-> In f pipeline /\ enabled f = true) /\
  Subsequence enabledFilters pipeline /\
  outcome = run dev width height imageSrc enabledFilters /\
  (enabledFilters <> [] ->
   Forall2 (renders width height) passes (firstn (length passes) enabledFilters) /\
   (success (fst outcome) = true ->
    Forall2 (renders width height) passes enabledFilters)) /\
  (forallb (fun f => negb (enabled f)) pipeline = true ->
   outcome = run dev width height imageSrc []).
Proof.
  intros enabledFilters outcome passes.
  split; [intros f; apply filter_In|].
  split; [apply filter_Subsequence|].
  split; [apply run_on_enabled|].
  split.
  - intros Hne.
    assert (Hpre : exists k, k <= length enabledFilters /\
                     Forall2 (renders width height) passes (firstn k enabledFilters) /\
                     (success (fst outcome) = true -> k = length enabledFilters)).
    { destruct (dev_decode dev imageSrc) as [img|] eqn:Hd.
      - destruct (setup dev width height img started)
          as [[[[input fbo1] fbo2]|e] s1] eqn:Hs.
        + destruct (run_draws _ _ _ _ pipeline _ _ _ _ _ Hd Hs Hne) as (k & Hk & Hdr & Hall).
          exists k. split; [exact Hk|]. split; [|exact Hall].
          unfold passes, outcome. rewrite Hdr. apply Forall2_renders_plan. exact Hk.
        + exists 0. split; [lia|]. unfold passes, outcome.
          rewrite (run_unfold _ _ _ _ _ _ Hd).
          rewrite (try_block_setup_thrown _ _ _ _ _ _ _ _ _ Hs). simpl.
          rewrite (setup_thrown_no_draw _ _ _ _ _ _ _ Hs). simpl.
          split; [constructor|discriminate].
      - exists 0. split; [lia|]. unfold passes, outcome, run. rewrite Hd. simpl.
        split; [constructor|discriminate]. }
    destruct Hpre as (k & Hk & HF & Hall).
    assert (Hlen : length passes = k).
    { apply Forall2_length in HF. rewrite HF, length_firstn. lia. }
    split.
    + rewrite Hlen. exact HF.
    + intros Hs. rewrite (Hall Hs), firstn_all in HF. exact HF.
  - intros Hoff. unfold outcome. apply run_same_enabled. simpl.
    clear -Hoff. induction pipeline as [|f rest IH]; simpl in *; [reflexivity|].
    apply Bool.andb_true_iff in Hoff. destruct Hoff as [Hf Hrest].
    destruct (enabled f); [discriminate|]. auto.
Qed.

Lemma enabled_filters_in_order_witness :
  filter enabled sample_pipeline = [brightness10; blur2; sharpen1] /\
  success (fst (run working_device 4 4 "image.png" sample_pipeline)) = true /\
  Forall2 (renders 4 4)
    (draws (gl_log (gl (snd (run working_device 4 4 "image.png" sample_pipeline)))))
    [brightness10; blur2; sharpen1] /\
  run working_device 4 4 "image.png" [contrast_off; contrast_off]
  = run working_device 4 4 "image.png" [].
Proof.
  split; [reflexivity|]. split; [vm_compute; reflexivity|].
  pose proof (enabled_filters_in_order working_device 4 4 "image.png" sample_pipeline)
    as (_ & _ & _ & Hon & _).
  pose proof (enabled_filters_in_order working_device 4 4 "image.png"
                [contrast_off; contrast_off]) as (_ & _ & _ & _ & Hoff).
  split.
  - apply Hon; [discriminate|vm_compute; reflexivity].
  - apply Hoff. reflexivity.
Defined.

(** ** Drawing a texture at its own size *)

Lemma flat_map_ext_in {A B} (f g : A -> list B) l :
  (forall a, In a l -> f a = g a) -> flat_map f l = flat_map g l.
Proof.
  induction l as [|a l IH]; simpl; intros H; [reflexivity|].
  rewrite (H a) by auto. rewrite IH by auto. reflexivity.
Qed.

Lemma flat_map_map {A B C} (f : B -> list C) (g : A -> B) l :
  flat_map f (map g l) = flat_map (fun a => f (g a)) l.
Proof. induction l as [|a l IH]; simpl; [reflexivity|]. rewrite IH. reflexivity. Qed.

Lemma row_of_list {A} (l : list A) d w :
  w <= length l -> map (fun x => nth x l d) (seq 0 w) = firstn w l.
Proof.
  intros Hw. apply (nth_ext _ _ d d).
  - rewrite length_map, length_seq, length_firstn. lia.
  - intros n Hn. rewrite length_map, length_seq in Hn.
    rewrite (nth_indep _ d (nth 0 l d)) by (rewrite length_map, length_seq; exact Hn).
    rewrite (map_nth (fun x => nth x l d)), seq_nth by exact Hn. simpl.
    rewrite nth_firstn. destruct (Nat.ltb_spec n w); [reflexivity|lia].
Qed.

Lemma nth_skipn_add {A} (l : list A) d w k : nth (w + k) l d = nth k (skipn w l) d.
Proof.
  revert l. induction w as [|w IH]; intros l; simpl; [reflexivity|].
  destruct l as [|a l]; simpl; [destruct k; reflexivity|]. apply IH.
Qed.

(** Reading a list of [h] rows of [w] cells cell by cell gives it back. *)
Lemma rows_of_list {A} (d : A) w h :
  forall l, length l = h * w ->
    flat_map (fun r => map (fun x => nth (r * w + x) l d) (seq 0 w)) (seq 0 h) = l.
Proof.
  induction h as [|h IH]; intros l Hl; simpl in *.
  - destruct l; [reflexivity|discriminate].
  - rewrite (row_of_list l d w) by lia.
    rewrite <- seq_shift, flat_map_map.
    rewrite (flat_map_ext_in _
               (fun r => map (fun x => nth (r * w + x) (skipn w l) d) (seq 0 w))).
    + rewrite IH by (rewrite length_skipn; lia). apply firstn_skipn.
    + intros r _. apply map_ext. intros x. simpl.
      rewrite <- Nat.add_assoc. apply nth_skipn_add.
Qed.

Lemma In_upto x n : In x (upto n) -> (0 <= x < n)%Z.
Proof.
  unfold upto. rewrite in_map_iff. intros (k & <- & Hk). apply in_seq in Hk. lia.
Qed.

(** The centre of fragment [(x, y)] of a viewport has the texture
    coordinate of the centre of texel [(x, y)] of a texture of that size. *)
Lemma fragment_at_texel_centre t x y :
  (0 < tex_width t)%Z -> (0 < tex_height t)%Z ->
  texel_centre t x y (v_texCoord (fragment_position (tex_width t) (tex_height t) x y)).
Proof.
  intros Hw Hh. unfold texel_centre, v_texCoord, fragment_position. cbn [fst snd].
  assert (Hw' : ~ (inject_Z (tex_width t) == 0)%Q).
  { intros E. unfold Qeq in E. simpl in E. lia. }
  assert (Hh' : ~ (inject_Z (tex_height t) == 0)%Q).
  { intros E. unfold Qeq in E. simpl in E. lia. }
  split.
  - rewrite inject_Z_plus, inject_Z_mult. change (inject_Z 2) with (2 # 1)%Q.
    change (inject_Z 1) with 1%Q. field. exact Hw'.
  - rewrite inject_Z_plus, inject_Z_mult. change (inject_Z 2) with (2 # 1)%Q.
    change (inject_Z 1) with 1%Q. field. exact Hh'.
Qed.

(** On a device that filters exactly, the passthrough program drawn over a
    canvas of the image's own size reproduces the image. *)
Lemma drawn_pixels_own_size sample img :
  exact_at_centres sample ->
  (0 <= naturalWidth img)%Z -> (0 <= naturalHeight img)%Z ->
  length (pixels img) = Z.to_nat (naturalWidth img * naturalHeight img) ->
  drawn_pixels sample (naturalWidth img) (naturalHeight img) (uploaded_texels img)
  = pixels img.
Proof.
  intros Hex Hw Hh Hlen. unfold drawn_pixels.
  set (W := naturalWidth img) in *. set (H := naturalHeight img) in *.
  rewrite (flat_map_ext_in _
             (fun r => map (fun x => nth (Z.to_nat (r * W + x)) (pixels img) 0%Z) (upto W))).
  - unfold upto. rewrite flat_map_map.
    rewrite (flat_map_ext_in _
               (fun r => map (fun x => nth (r * Z.to_nat W + x) (pixels img) 0%Z)
                             (seq 0 (Z.to_nat W)))).
    + apply rows_of_list. rewrite Hlen, Z2Nat.inj_mul by lia. lia.
    + intros r _. rewrite map_map. apply map_ext. intros x. f_equal.
      rewrite <- (Z2Nat.id W) at 1 by lia. lia.
  - intros r Hr. apply In_upto in Hr. apply map_ext_in. intros x Hx.
    apply In_upto in Hx.
    rewrite (Hex (uploaded_texels img) x (H - 1 - r)%Z).
    + simpl. fold W H. f_equal. f_equal. lia.
    + simpl. fold W. lia.
    + simpl. fold H. lia.
    + apply (fragment_at_texel_centre (uploaded_texels img)); simpl; fold W H; lia.
Qed.

Lemma Qfloor_centre i : Qfloor (inject_Z i + (1 # 2)) = i.
Proof.
  unfold Qfloor, Qplus, inject_Z. simpl.
  symmetry. apply (Z.div_unique _ _ _ 1); lia.
Qed.

Lemma nearest_exact : exact_at_centres nearest.
Proof.
  intros t i j c Hi Hj [Hu Hv]. unfold nearest.
  assert (Hw' : ~ (inject_Z (tex_width t) == 0)%Q).
  { intros E. unfold Qeq in E. simpl in E. lia. }
  assert (Hh' : ~ (inject_Z (tex_height t) == 0)%Q).
  { intros E. unfold Qeq in E. simpl in E. lia. }
  assert (E1 : (fst c * inject_Z (tex_width t) == inject_Z i + (1 # 2))%Q).
  { rewrite Hu. field. exact Hw'. }
  assert (E2 : (snd c * inject_Z (tex_height t) == inject_Z j + (1 # 2))%Q).
  { rewrite Hv. field. exact Hh'. }
  rewrite (Qfloor_comp _ _ E1), (Qfloor_comp _ _ E2), !Qfloor_centre. reflexivity.
Qed.

(** ** What a pass writes *)

(** A [renderFilter] that returns has written, into its target, the
    program's output over the content of the input texture. *)
Lemma renderFilter_Ok_surfaces dev input frag uniforms fb width height s t s' :
  renderFilter dev input frag uniforms fb width height s = (Ok t, s') ->
  let written :=
    write_target fb
      (Shaded frag uniforms width height (texture_content (gl s) input)) (gl s) in
  gl_attach (gl s') = gl_attach (gl s) /\
  gl_texture (gl s') = gl_texture written /\
  gl_canvas (gl s') = gl_canvas written.
Proof.
  unfold renderFilter. rewrite bind_eq.
  pose proof (getProgram_same_surfaces dev frag s) as (Ha & Ht & Hc).
  destruct (getProgram dev frag s) as [[program|e] s1]; simpl in Ha, Ht, Hc;
    [|discriminate].
  unfold now, create, bind, get_this, get_gl, set_gl, ret. simpl.
  assert (Hcontent : forall g : GL,
             gl_texture g = gl_texture (gl s1) -> texture_content g input
             = texture_content (gl s) input).
  { intros g Hg. unfold texture_content. rewrite Hg, Ht. reflexivity. }
  destruct (ext (this s1)); simpl;
    [destruct (dev_creates dev KQuery (gl_next (gl s1))); simpl|];
    intros [= _ <-]; simpl;
    (rewrite Hcontent by reflexivity);
    (destruct fb as [f|]; simpl;
     [ rewrite Ha; destruct (lookup_nat f (gl_attach (gl s))); simpl
     | ]);
    rewrite ?Ht, ?Hc; auto.
Qed.

(** [clear] paints the attachment of the bound framebuffer. *)
Lemma clear_bound s fb t :
  gl_bound (gl s) = Some fb ->
  lookup_nat fb (gl_attach (gl s)) = Some t ->
  clear s = (Ok tt, {| gl := store_texture t Black (log_event EvClear (gl s));
                       this := this s |}).
Proof.
  intros Hb Ha. unfold clear, bind, set_gl. simpl. rewrite Hb. simpl. rewrite Ha.
  reflexivity.
Qed.

(** ** The empty pipeline *)

(** C9, as the code has it.  A successful run with no enabled filter has
    issued exactly one draw call: the input texture, which holds the
    uploaded image, through the passthrough program, straight to the canvas.
    The encoded result is that canvas.  It has the dimensions of the source
    image exactly when the canvas was given them; then, for sizes the canvas
    keeps (0 .. 2^31 - 1) and on a device that filters exactly, every pixel
    of the result is the source's pixel at that place: the result decodes to
    the source image.  With other dimensions it never does. *)
Theorem empty_pipeline_renders_passthrough dev width height imageSrc pipeline :
  let outcome := run dev width height imageSrc pipeline in
  filter enabled pipeline = [] ->
  success (fst outcome) = true ->
  exists img input,
    let e := {| enc_width := canvas_dimension 300 width;
                enc_height := canvas_dimension 150 height;
                enc_content :=
                  Shaded (JStr shader_passthrough) [("u_image", UTex input)]
                    width height (Uploaded img) |} in
    dev_decode dev imageSrc = Some img /\
    draws (gl_log (gl (snd outcome))) =
      [ {| pass_input := input; pass_frag := JStr shader_passthrough;
           pass_uniforms := [("u_image", UTex input)];
           pass_target := None; pass_width := width; pass_height := height |} ] /\
    texture_content (gl (snd outcome)) input = Uploaded img /\
    imageDataUrl (fst outcome) = Some e /\
    (same_dimensions e img <->
     canvas_dimension 300 width = naturalWidth img /\
     canvas_dimension 150 height = naturalHeight img) /\
    (forall sample,
        exact_at_centres sample ->
        (0 <= width <= 2147483647)%Z -> (0 <= height <= 2147483647)%Z ->
        width = naturalWidth img -> height = naturalHeight img ->
        length (pixels img) = Z.to_nat (naturalWidth img * naturalHeight img) ->
        decoded sample e = Some img) /\
    (forall sample, ~ same_dimensions e img -> decoded sample e <> Some img).
Proof.
  intros outcome Hempty Hsucc.
  destruct (success_setup _ _ _ _ _ Hsucc)
    as (img & input & fbo1 & fbo2 & s1 & Hd & Hs).
  exists img, input. intros e. split; [exact Hd|].
  destruct (setup_Ok _ _ _ _ _ _ _ _ _ Hs)
    as (Hi & H1 & H2 & _ & Hst & Hsa & Hsb & _).
  cbn in Hi, H1, H2. subst input fbo1 fbo2. cbn in Hst, Hsa, Hsb.
  pose proof (setup_no_draw _ _ _ _ _ _ _ _ Hs) as Hnd.
  assert (Hclear : clear s1 =
            (Ok tt, {| gl := store_texture 5 Black (log_event EvClear (gl s1));
                       this := this s1 |})).
  { apply (clear_bound s1 6 5); [exact Hsb|]. rewrite Hsa. reflexivity. }
  unfold outcome in *. clear outcome.
  rewrite (run_unfold _ _ _ _ _ _ Hd) in *.
  rewrite (try_block_after_setup _ _ _ _ _ _ _ _ _ _ _ Hs) in *.
  rewrite Hempty in *. unfold render in *.
  rewrite bind_eq, Hclear, bind_eq in *.
  set (s2 := {| gl := store_texture 5 Black (log_event EvClear (gl s1));
                this := this s1 |}) in *.
  assert (Hin : texture_content (gl s2) 2 = Uploaded img).
  { unfold texture_content, s2. simpl. rewrite Hst. reflexivity. }
  assert (Hd2 : draws (gl_log (gl s2)) = []).
  { unfold s2. simpl. rewrite draws_app, Hnd. reflexivity. }
  destruct (renderFilter dev 2 (JStr shader_passthrough) [("u_image", UTex 2)]
              None width height s2) as [[t|e0] s3] eqn:Er; [|discriminate Hsucc].
  pose proof (renderFilter_draws _ _ _ _ _ _ _ _ _ _ Er) as Hdraw.
  destruct (renderFilter_Ok_surfaces _ _ _ _ _ _ _ _ _ _ Er) as (_ & Htex & Hcan).
  cbn [write_target store_canvas gl_texture gl_canvas] in Htex, Hcan.
  rewrite Hin in Hcan. rewrite Hd2 in Hdraw. simpl in Hdraw.
  unfold ret. cbv beta iota. cbn [fst snd success imageDataUrl].
  split.
  { rewrite destroy_draws. exact Hdraw. }
  split.
  { unfold texture_content. rewrite destroy_same_surfaces_texture.
    cbn [gl bump_clock gl_texture]. rewrite Htex. exact Hin. }
  split.
  { rewrite Hcan. reflexivity. }
  split.
  { unfold same_dimensions, e. simpl. tauto. }
  split.
  - intros sample Hex Hw Hh Ew Eh Hlen.
    unfold decoded, e. cbn [enc_content enc_width enc_height].
    rewrite JSVal_eqb_refl, !canvas_dimension_in_range, !Z.eqb_refl by assumption.
    cbn [andb]. f_equal. rewrite Ew, Eh.
    rewrite drawn_pixels_own_size by (try assumption; lia).
    destruct img; reflexivity.
  - intros sample Hdim Hdec. apply Hdim.
    unfold decoded, e in Hdec. cbn [enc_content enc_width enc_height] in Hdec.
    destruct (JSVal_eqb (JStr shader_passthrough) (JStr shader_passthrough)
              && (width =? canvas_dimension 300 width)%Z
              && (height =? canvas_dimension 150 height)%Z); [|discriminate].
    injection Hdec as Hdec. unfold same_dimensions, e. rewrite <- Hdec. simpl. auto.
Qed.

Lemma empty_pipeline_renders_passthrough_witness :
  filter enabled [contrast_off] = [] /\
  success (fst (run working_device 2 2 "image.png" [contrast_off])) = true /\
  exact_at_centres nearest /\
  (exists e,
      imageDataUrl (fst (run working_device 2 2 "image.png" [contrast_off])) = Some e /\
      decoded nearest e = Some sample_image).
Proof.
  assert (Hsucc : success (fst (run working_device 2 2 "image.png" [contrast_off])) = true)
    by (vm_compute; reflexivity).
  split; [reflexivity|]. split; [exact Hsucc|]. split; [exact nearest_exact|].
  destruct (empty_pipeline_renders_passthrough working_device 2 2 "image.png"
              [contrast_off] eq_refl Hsucc)
    as (img & input & Hd & _ & _ & Hurl & _ & Hpix & _).
  injection Hd as <-.
  eexists. split; [exact Hurl|].
  apply (Hpix nearest nearest_exact); try reflexivity; simpl; lia.
Defined.

(** C9, as the claim states it, fails: the 2 x 2 sample image run through
    the empty pipeline at 4 x 4 succeeds with a 4 x 4 result, which cannot
    agree bit for bit with a 2 x 2 source. *)
Lemma empty_pipeline_result_not_source_sized :
  let r := processImageWithPipeline working_device 4 4 "image.png" [] in
  dev_decode working_device "image.png" = Some sample_image /\
  filter enabled (@nil Filter) = [] /\
  success r = true /\
  exists e, imageDataUrl r = Some e /\ ~ same_dimensions e sample_image.
Proof.
  split; [reflexivity|]. split; [reflexivity|]. split; [vm_compute; reflexivity|].
  exists {| enc_width := 4; enc_height := 4;
            enc_content :=
              Shaded (JStr shader_passthrough) [("u_image", UTex 2)] 4 4
                (Uploaded sample_image) |}.
  split; [vm_compute; reflexivity|].
  unfold same_dimensions. simpl. intros [H _]. discriminate H.
Qed.

(** ** Releasing the device objects *)

(** C1 (code defect).  On a device whose compiler rejects the fragment
    shader, a run with one enabled filter resolves with [success = false]
    and the compiler's diagnostic, and the ledger is not balanced: nine
    objects were allocated and one released (the shader that failed to
    compile); the two geometry buffers, the three textures, the two
    framebuffers and the vertex shader stay allocated, because [destroy] is
    only reached at the end of the [try] block. *)
Theorem failed_run_leaves_objects_allocated :
  let outcome := run failing_compile_device 4 4 "image.png" [brightness10] in
  let log := gl_log (gl (snd outcome)) in
  success (fst outcome) = false /\
  error (fst outcome) = Some "Shader compilation error: ERROR: 0:1: syntax error" /\
  allocations log = 9 /\
  releases log = 1 /\
  live log [] =
    [ (KBuffer, 0); (KBuffer, 1); (KTexture, 2); (KTexture, 3); (KFramebuffer, 4);
      (KTexture, 5); (KFramebuffer, 6); (KShader, 7) ].
Proof. repeat split; vm_compute; reflexivity. Qed.

(** The same holes on other exits: a link failure, and a framebuffer that
    is not complete (its texture and framebuffer object are not even
    recorded for [destroy]). *)
Example link_failure_leaves_objects_allocated :
  let outcome := run failing_link_device 4 4 "image.png" [brightness10] in
  success (fst outcome) = false /\
  allocations (gl_log (gl (snd outcome))) = 10 /\
  releases (gl_log (gl (snd outcome))) = 1.
Proof. repeat split; vm_compute; reflexivity. Qed.

(** With the timer extension a successful run leaves one query object per
    pass behind. *)
Example timer_queries_never_released :
  let outcome := run timing_device 4 4 "image.png" sample_pipeline in
  success (fst outcome) = true /\
  live (gl_log (gl (snd outcome))) [] = [(KQuery, 10); (KQuery, 14); (KQuery, 18)].
Proof. split; vm_compute; reflexivity. Qed.

(** *** The path that does release: a run that reaches [destroy] *)

Lemma log_events_log evs g : gl_log (log_events evs g) = (gl_log g ++ evs)%list.
Proof.
  revert g. induction evs as [|e evs IH]; intros g; simpl.
  - symmetry. apply app_nil_r.
  - unfold log_events in IH. rewrite IH. simpl. rewrite <- app_assoc. reflexivity.
Qed.

Lemma forEach_delete {A} k (g : A -> nat) l s :
  forEach (fun a => delete k (g a)) l s =
  (Ok tt, {| gl := log_events (map (fun a => EvDelete k (g a)) l) (gl s);
             this := this s |}).
Proof.
  revert s. induction l as [|a l IH]; intros s; simpl.
  - destruct s. reflexivity.
  - rewrite bind_eq. simpl. rewrite IH. reflexivity.
Qed.

(** [destroy] deletes every program of the cache, every recorded
    framebuffer and texture, and the two buffers. *)
Lemma destroy_log s :
  gl_log (gl (snd (destroy s))) =
  (gl_log (gl s)
   ++ map (fun kv => EvDelete KProgram (snd kv)) (programs (this s))
   ++ map (EvDelete KFramebuffer) (framebuffers (this s))
   ++ map (EvDelete KTexture) (textures (this s))
   ++ map (EvDelete KBuffer) (option_list (positionBuffer (this s)))
   ++ map (EvDelete KBuffer) (option_list (indexBuffer (this s))))%list.
Proof.
  unfold destroy. rewrite bind_eq. simpl. rewrite bind_eq.
  rewrite (forEach_delete KProgram (@snd JSVal nat)). simpl.
  rewrite bind_eq. simpl. rewrite bind_eq. simpl. rewrite bind_eq.
  rewrite (forEach_delete KFramebuffer (fun x => x)). simpl.
  rewrite bind_eq. simpl. rewrite bind_eq. simpl. rewrite bind_eq.
  rewrite (forEach_delete KTexture (fun x => x)). simpl.
  rewrite bind_eq. simpl. rewrite bind_eq. simpl. rewrite bind_eq.
  destruct (positionBuffer (this s)); destruct (indexBuffer (this s)); simpl;
    repeat rewrite log_events_log; simpl;
    repeat rewrite <- app_assoc; simpl; repeat rewrite app_nil_r; reflexivity.
Qed.

Lemma allocations_deletes {A} k (g : A -> nat) l :
  allocations (map (fun a => EvDelete k (g a)) l) = 0.
Proof. induction l; simpl; auto. Qed.

Lemma releases_deletes {A} k (g : A -> nat) l :
  releases (map (fun a => EvDelete k (g a)) l) = length l.
Proof. induction l; simpl; auto. unfold releases in *. simpl. auto. Qed.

(** From a balanced state, [destroy] balances the ledger. *)
Lemma destroy_balances s :
  balanced s ->
  allocations (gl_log (gl (snd (destroy s)))) = releases (gl_log (gl (snd (destroy s)))).
Proof.
  unfold balanced, owed. intros H. rewrite destroy_log.
  repeat rewrite allocations_app. repeat rewrite releases_app.
  rewrite (allocations_deletes KProgram (@snd JSVal nat)).
  rewrite (releases_deletes KProgram (@snd JSVal nat)).
  rewrite !(allocations_deletes _ (fun x : nat => x)).
  rewrite !(releases_deletes _ (fun x : nat => x)).
  lia.
Qed.

Lemma allocations_snoc l e :
  allocations (l ++ [e]) = allocations l + (if is_create e then 1 else 0).
Proof. rewrite allocations_app. unfold allocations. simpl. destruct (is_create e); reflexivity. Qed.

Lemma releases_snoc l e :
  releases (l ++ [e]) = releases l + (if is_delete e then 1 else 0).
Proof. rewrite releases_app. unfold releases. simpl. destruct (is_delete e); reflexivity. Qed.

Ltac ledger :=
  repeat rewrite allocations_snoc; repeat rewrite releases_snoc;
  cbn [is_create is_delete]; lia.

Lemma getProgram_Ok_balanced dev frag s program s' :
  getProgram dev frag s = (Ok program, s') ->
  ext (this s') = ext (this s) /\ (balanced s -> balanced s').
Proof.
  destruct (Map_get frag (programs (this s))) as [cached|] eqn:Hget.
  - rewrite (getProgram_hit _ _ _ _ Hget). intros [= <- <-]. auto.
  - run_gl. rewrite Hget.
    destruct (dev_creates dev KShader (gl_next (gl s))); simpl; [|discriminate].
    destruct (dev_compile_log dev VERTEX_SHADER (JStr basicVertexShader));
      simpl; [discriminate|].
    destruct (dev_creates dev KShader (S (gl_next (gl s)))); simpl; [|discriminate].
    destruct (dev_compile_log dev FRAGMENT_SHADER frag); simpl; [discriminate|].
    destruct (dev_creates dev KProgram (S (S (gl_next (gl s))))); simpl; [|discriminate].
    destruct (dev_link_log dev (JStr basicVertexShader) frag); simpl; [discriminate|].
    intros [= <- <-]. simpl. split; [reflexivity|].
    unfold balanced, owed. cbn [gl this gl_log log_event bump_next programs framebuffers
                                 textures positionBuffer indexBuffer].
    rewrite (Map_set_fresh _ _ _ Hget), length_app. cbn [length]. ledger.
Qed.

Lemma renderFilter_Ok_balanced dev input frag uniforms fb width height s t s' :
  renderFilter dev input frag uniforms fb width height s = (Ok t, s') ->
  ext (this s) = false ->
  ext (this s') = false /\ (balanced s -> balanced s').
Proof.
  unfold renderFilter. rewrite bind_eq.
  destruct (getProgram dev frag s) as [[program|e] s1] eqn:Hg; [|discriminate].
  destruct (getProgram_Ok_balanced _ _ _ _ _ Hg) as [Hext Hbal].
  intros H Hno. rewrite <- Hext in Hno. revert H.
  unfold now, create, bind, get_this, get_gl, set_gl, ret. simpl.
  rewrite Hno. simpl. intros [= _ <-]. simpl. split; [exact Hno|].
  intros Hb. specialize (Hbal Hb). unfold balanced in *.
  simpl. rewrite log_write_target. simpl. ledger.
Qed.

Lemma clear_balanced s : balanced s -> balanced (snd (clear s)).
Proof.
  unfold balanced, clear, bind, set_gl. simpl.
  rewrite log_write_target. simpl. intros H. ledger.
Qed.

Lemma clear_this s : this (snd (clear s)) = this s.
Proof. reflexivity. Qed.

Lemma passes_from_Ok_balanced dev width height count filters :
  forall index v s v' s',
    passes_from dev width height count filters index v s = (Ok v', s') ->
    ext (this s) = false ->
    ext (this s') = false /\ (balanced s -> balanced s').
Proof.
  induction filters as [|f rest IH]; intros index v s v' s' H Hno; simpl in H.
  - unfold ret in H. injection H as _ <-. auto.
  - rewrite bind_eq in H.
    destruct (pass dev width height count f index v s) as [[v1|e] s1] eqn:Hp;
      [|discriminate].
    unfold pass in Hp. rewrite bind_eq in Hp.
    match type of Hp with context [renderFilter ?d ?i ?fr ?u ?fb ?w ?h s] =>
      destruct (renderFilter d i fr u fb w h s) as [[t|e] s2] eqn:Hr; [|discriminate]
    end.
    destruct (renderFilter_Ok_balanced _ _ _ _ _ _ _ _ _ _ Hr Hno) as [Hno2 Hb2].
    assert (s1 = s2).
    { destruct (negb (Nat.eqb index (count - 1))); unfold ret in Hp; congruence. }
    subst s2.
    destruct (IH _ _ _ _ _ H Hno2) as [Hno' Hb'].
    split; [exact Hno'|]. auto.
Qed.

Lemma render_Ok_balanced dev width height enabledFilters input fbo1 fbo2 s g s' :
  render dev width height enabledFilters input fbo1 fbo2 s = (Ok g, s') ->
  ext (this s) = false ->
  balanced s -> balanced s'.
Proof.
  unfold render. intros H Hno Hb.
  pose proof (clear_balanced s Hb) as Hc.
  destruct enabledFilters as [|f rest]; rewrite bind_eq in H;
    destruct (clear s) as [[[]|e] s1] eqn:Ec; try discriminate Ec;
    assert (Hno1 : ext (this s1) = false)
      by (pose proof (clear_this s) as Ht; rewrite Ec in Ht; simpl in Ht;
          rewrite Ht; exact Hno);
    simpl in Hc; rewrite bind_eq in H.
  - match type of H with context [renderFilter ?d ?i ?fr ?u ?fb ?w ?h s1] =>
      destruct (renderFilter d i fr u fb w h s1) as [[t|e] s2] eqn:Hr; [|discriminate]
    end.
    unfold ret in H. injection H as _ <-.
    apply (renderFilter_Ok_balanced _ _ _ _ _ _ _ _ _ _ Hr Hno1). exact Hc.
  - match type of H with context [passes_from ?d ?w ?h ?c ?fs ?i ?v s1] =>
      destruct (passes_from d w h c fs i v s1) as [[v'|e] s2] eqn:Hp; [|discriminate]
    end.
    unfold ret in H. injection H as _ <-.
    apply (passes_from_Ok_balanced _ _ _ _ _ _ _ _ _ _ Hp Hno1). exact Hc.
Qed.

Lemma setup_started_balanced dev width height img input fbo1 fbo2 s1 :
  setup dev width height img started = (Ok (input, fbo1, fbo2), s1) ->
  balanced s1 /\ releases (gl_log (gl s1)) = 0.
Proof.
  run_setup.
  destruct (dev_webgl dev); simpl; [|discriminate].
  destruct (dev_creates dev KBuffer 0); simpl;
  destruct (dev_creates dev KBuffer 1); simpl;
  (destruct (dev_creates dev KTexture 2); simpl; [|discriminate]);
  (destruct (dev_creates dev KTexture 3); simpl; [|discriminate]);
  (destruct (dev_creates dev KFramebuffer 4); simpl; [|discriminate]);
  (destruct (dev_fb_complete dev width height); simpl; [|discriminate]);
  (destruct (dev_creates dev KTexture 5); simpl; [|discriminate]);
  (destruct (dev_creates dev KFramebuffer 6); simpl; [|discriminate]);
  intros [= <- <- <- <-]; split; reflexivity.
Qed.

(** Without the timer extension, a run that succeeds has released as many
    objects as it allocated: the success path does what the claim asks of
    every path. *)
Lemma successful_run_balanced dev width height imageSrc pipeline :
  let outcome := run dev width height imageSrc pipeline in
  success (fst outcome) = true ->
  dev_timer_ext dev = false ->
  allocations (gl_log (gl (snd outcome))) = releases (gl_log (gl (snd outcome))).
Proof.
  intros outcome Hsucc Hno.
  destruct (success_setup _ _ _ _ _ Hsucc)
    as (img & input & fbo1 & fbo2 & s1 & Hd & Hs).
  unfold outcome in *. clear outcome.
  rewrite (run_unfold _ _ _ _ _ _ Hd) in *.
  rewrite (try_block_after_setup _ _ _ _ _ _ _ _ _ _ _ Hs) in *.
  destruct (setup_started_balanced _ _ _ _ _ _ _ _ Hs) as [Hb1 _].
  destruct (setup_Ok _ _ _ _ _ _ _ _ _ Hs)
    as (_ & _ & _ & _ & _ & _ & _ & _ & _ & _ & Hext & _).
  destruct (render dev width height (filter enabled pipeline) input fbo1 fbo2 s1)
    as [[g|e] s2] eqn:Hr; [|discriminate Hsucc].
  simpl. apply destroy_balances.
  assert (Hb2 : balanced s2).
  { apply (render_Ok_balanced _ _ _ _ _ _ _ _ _ _ Hr); [congruence | exact Hb1]. }
  unfold balanced in *. simpl. exact Hb2.
Qed.

(** A run that fails releases no texture, framebuffer or buffer at all. *)
Example failed_run_releases_no_surface :
  forallb keeps_surfaces
    (gl_log (gl (snd (run failing_compile_device 4 4 "image.png" sample_pipeline))))
  = true.
Proof. vm_compute. reflexivity. Qed.

(** ** Two render targets *)

Lemma setup_thrown_targets dev width height img s e s1 :
  setup dev width height img s = (Thrown e, s1) ->
  allocated KFramebuffer (gl_log (gl s1)) <= allocated KFramebuffer (gl_log (gl s)) + 2.
Proof.
  run_setup.
  destruct (dev_webgl dev); simpl; [|intros [= <- <-]; lia].
  destruct (dev_creates dev KBuffer (gl_next (gl s))); simpl;
  destruct (dev_creates dev KBuffer (S (gl_next (gl s)))); simpl;
  (destruct (dev_creates dev KTexture (S (S (gl_next (gl s))))); simpl;
     [|intros [= <- <-]; simpl; repeat rewrite allocated_app; unfold allocated; simpl; lia]);
  (destruct (dev_creates dev KTexture (S (S (S (gl_next (gl s)))))); simpl;
     [|intros [= <- <-]; simpl; repeat rewrite allocated_app; unfold allocated; simpl; lia]);
  (destruct (dev_creates dev KFramebuffer (S (S (S (S (gl_next (gl s))))))); simpl;
     [|intros [= <- <-]; simpl; repeat rewrite allocated_app; unfold allocated; simpl; lia]);
  (destruct (dev_fb_complete dev width height); simpl;
     [|intros [= <- <-]; simpl; repeat rewrite allocated_app; unfold allocated; simpl; lia]);
  (destruct (dev_creates dev KTexture (S (S (S (S (S (gl_next (gl s)))))))); simpl;
     [|intros [= <- <-]; simpl; repeat rewrite allocated_app; unfold allocated; simpl; lia]);
  (destruct (dev_creates dev KFramebuffer (S (S (S (S (S (S (gl_next (gl s))))))))); simpl;
     [|intros [= <- <-]; simpl; repeat rewrite allocated_app; unfold allocated; simpl; lia]);
  discriminate.
Qed.

(** What a run whose setup completed has allocated and attached. *)
Lemma completed_setup_targets dev width height imageSrc img pipeline input fbo1 fbo2 s1 :
  dev_decode dev imageSrc = Some img ->
  setup dev width height img started = (Ok (input, fbo1, fbo2), s1) ->
  let final := snd (run dev width height imageSrc pipeline) in
  allocated KFramebuffer (gl_log (gl final)) = 2 /\
  allocated KTexture (gl_log (gl final)) = 3 /\
  gl_attach (gl final) =
    [(framebuffer fbo2, texture fbo2); (framebuffer fbo1, texture fbo1)] /\
  framebuffer fbo1 <> framebuffer fbo2 /\
  texture fbo1 <> texture fbo2 /\
  input <> texture fbo1 /\ input <> texture fbo2.
Proof.
  intros Hd Hs final.
  destruct (run_extends_setup _ _ _ _ pipeline _ _ _ _ _ Hd Hs) as (evs & Hlog & Hev).
  pose proof (run_same_attach _ _ _ _ pipeline _ _ _ _ _ Hd Hs) as Hatt.
  destruct (setup_Ok _ _ _ _ _ _ _ _ _ Hs)
    as (Hi & H1 & H2 & (evs0 & Hlog0 & Hfb & Htex & _) & _ & Hsa & _).
  destruct (run_event_allocates_no_target _ Hev) as [E1 E2].
  unfold final, same_attach in *. rewrite Hlog, Hlog0, Hatt, Hsa. simpl.
  repeat rewrite allocated_app. rewrite Hfb, Htex, E1, E2. simpl.
  subst input fbo1 fbo2. simpl.
  repeat split; try reflexivity; lia.
Qed.

(** C2, as the code has it.  No run creates more than two framebuffers.  A
    run whose setup completes (the context exists, the input texture and
    both render targets could be built) creates exactly two, whatever the
    pipeline and however many of its filters are enabled; each is given its
    own texture as colour attachment, no other attachment is made, and the
    two textures differ from each other and from the input texture.  Every
    successful run is such a run. *)
Theorem two_render_targets_per_run dev width height imageSrc pipeline :
  let outcome := run dev width height imageSrc pipeline in
  let final := snd outcome in
  allocated KFramebuffer (gl_log (gl final)) <= 2 /\
  (forall img input fbo1 fbo2 s1,
      dev_decode dev imageSrc = Some img ->
      setup dev width height img started = (Ok (input, fbo1, fbo2), s1) ->
      allocated KFramebuffer (gl_log (gl final)) = 2 /\
      allocated KTexture (gl_log (gl final)) = 3 /\
      gl_attach (gl final) =
        [(framebuffer fbo2, texture fbo2); (framebuffer fbo1, texture fbo1)] /\
      lookup_nat (framebuffer fbo1) (gl_attach (gl final)) = Some (texture fbo1) /\
      lookup_nat (framebuffer fbo2) (gl_attach (gl final)) = Some (texture fbo2) /\
      framebuffer fbo1 <> framebuffer fbo2 /\
      texture fbo1 <> texture fbo2 /\
      input <> texture fbo1 /\ input <> texture fbo2) /\
  (success (fst outcome) = true ->
   allocated KFramebuffer (gl_log (gl final)) = 2 /\
   exists t1 t2 fb1 fb2,
     t1 <> t2 /\ fb1 <> fb2 /\ gl_attach (gl final) = [(fb2, t2); (fb1, t1)]).
Proof.
  intros outcome final. unfold final, outcome. clear final outcome.
  assert (Hcomplete : forall img input fbo1 fbo2 s1,
      dev_decode dev imageSrc = Some img ->
      setup dev width height img started = (Ok (input, fbo1, fbo2), s1) ->
      allocated KFramebuffer (gl_log (gl (snd (run dev width height imageSrc pipeline)))) = 2 /\
      allocated KTexture (gl_log (gl (snd (run dev width height imageSrc pipeline)))) = 3 /\
      gl_attach (gl (snd (run dev width height imageSrc pipeline))) =
        [(framebuffer fbo2, texture fbo2); (framebuffer fbo1, texture fbo1)] /\
      lookup_nat (framebuffer fbo1)
        (gl_attach (gl (snd (run dev width height imageSrc pipeline)))) = Some (texture fbo1) /\
      lookup_nat (framebuffer fbo2)
        (gl_attach (gl (snd (run dev width height imageSrc pipeline)))) = Some (texture fbo2) /\
      framebuffer fbo1 <> framebuffer fbo2 /\
      texture fbo1 <> texture fbo2 /\
      input <> texture fbo1 /\ input <> texture fbo2).
  { intros img input fbo1 fbo2 s1 Hd Hs.
    destruct (completed_setup_targets _ _ _ _ _ pipeline _ _ _ _ Hd Hs)
      as (Hfb & Htex & Hatt & Hne1 & Hne2 & Hne3 & Hne4).
    split; [exact Hfb|]. split; [exact Htex|]. split; [exact Hatt|].
    rewrite Hatt. simpl. rewrite !Nat.eqb_refl.
    destruct (Nat.eqb_spec (framebuffer fbo1) (framebuffer fbo2)) as [E|_];
      [contradiction|].
    repeat split; assumption. }
  split; [|split].
  - destruct (dev_decode dev imageSrc) as [img|] eqn:Hd.
    + destruct (setup dev width height img started) as [[[[input fbo1] fbo2]|e] s1] eqn:Hs.
      * destruct (Hcomplete _ _ _ _ _ eq_refl Hs) as (Hfb & _). rewrite Hfb. lia.
      * rewrite (run_unfold _ _ _ _ _ _ Hd).
        rewrite (try_block_setup_thrown _ _ _ _ _ _ _ _ _ Hs). simpl.
        pose proof (setup_thrown_targets _ _ _ _ _ _ _ Hs) as Hle.
        simpl in Hle. exact Hle.
    + unfold run. rewrite Hd. unfold allocated. simpl. lia.
  - exact Hcomplete.
  - intros Hsucc.
    destruct (success_setup _ _ _ _ _ Hsucc) as (img & input & fbo1 & fbo2 & s1 & Hd & Hs).
    destruct (Hcomplete _ _ _ _ _ Hd Hs) as (Hfb & _ & Hatt & _ & _ & Hne1 & Hne2 & _).
    split; [exact Hfb|].
    exists (texture fbo1), (texture fbo2), (framebuffer fbo1), (framebuffer fbo2).
    auto.
Qed.

Lemma two_render_targets_per_run_witness :
  dev_decode working_device "image.png" = Some sample_image /\
  allocated KFramebuffer
    (gl_log (gl (snd (run working_device 4 4 "image.png" sample_pipeline)))) = 2 /\
  gl_attach (gl (snd (run working_device 4 4 "image.png" sample_pipeline)))
  = [(6, 5); (4, 3)] /\
  allocated KFramebuffer
    (gl_log (gl (snd (run working_device 4 4 "image.png" [])))) = 2.
Proof.
  assert (Hs : setup working_device 4 4 sample_image started
               = (Ok (2, {| framebuffer := 4; texture := 3 |},
                         {| framebuffer := 6; texture := 5 |}),
                  snd (setup working_device 4 4 sample_image started)))
    by (vm_compute; reflexivity).
  pose proof (proj1 (proj2 (two_render_targets_per_run working_device 4 4 "image.png"
                              sample_pipeline)) _ _ _ _ _ eq_refl Hs) as (H1 & _ & H2 & _).
  pose proof (proj1 (proj2 (two_render_targets_per_run working_device 4 4 "image.png" []))
                _ _ _ _ _ eq_refl Hs) as (H3 & _).
  split; [reflexivity|]. split; [exact H1|]. split; [exact H2|]. exact H3.
Defined.

(** C2, as the claim states it, fails for runs that end during the setup:
    without a WebGL context no framebuffer is created, and when the first
    render target is incomplete the run ends with one. *)
Lemma aborted_run_allocates_fewer_targets :
  allocated KFramebuffer
    (gl_log (gl (snd (run no_webgl_device 4 4 "image.png" sample_pipeline)))) = 0 /\
  allocated KFramebuffer
    (gl_log (gl (snd (run incomplete_fb_device 4 4 "image.png" sample_pipeline)))) = 1.
Proof. split; vm_compute; reflexivity. Qed.

(** * Further properties of the engine *)

(** ** The messages of a failed run *)

Lemma throws_only_bind P {A B} (m : M A) (k : A -> M B) :
  throws_only P m -> (forall a, throws_only P (k a)) -> throws_only P (bind m k).
Proof.
  intros Hm Hk s e s' H. apply bind_Thrown in H.
  destruct H as [H | (a & s1 & _ & H)]; [eapply Hm | eapply Hk]; eauto.
Qed.

Lemma throws_only_ret P {A} (a : A) : throws_only P (ret a).
Proof. intros s e s' H. discriminate. Qed.

Lemma throws_only_throw (P : string -> Prop) {A} e : P e -> throws_only P (@throw A e).
Proof. intros He s e' s' [= <- _]. exact He. Qed.

Lemma throws_only_set_gl P f : throws_only P (set_gl f).
Proof. intros s e s' H. discriminate. Qed.

Lemma throws_only_set_this P f : throws_only P (set_this f).
Proof. intros s e s' H. discriminate. Qed.

Lemma throws_only_get_gl P : throws_only P get_gl.
Proof. intros s e s' H. discriminate. Qed.

Lemma throws_only_get_this P : throws_only P get_this.
Proof. intros s e s' H. discriminate. Qed.

Ltac no_throw P :=
  repeat first
    [ apply throws_only_ret
    | apply throws_only_set_gl
    | apply throws_only_set_this
    | apply throws_only_get_gl
    | apply throws_only_get_this
    | apply (throws_only_bind P); [|intros ?]
    | match goal with
      | |- throws_only _ (match ?x with _ => _ end) => destruct x
      end
    | assumption ].

Lemma create_never_throws P dev k : throws_only P (create dev k).
Proof. unfold create. no_throw P. Qed.

Lemma delete_never_throws P k obj : throws_only P (delete k obj).
Proof. unfold delete. no_throw P. Qed.

Lemma now_never_throws P dev : throws_only P (now dev).
Proof. unfold now. no_throw P. Qed.

Lemma compileShader_errors dev source stage :
  throws_only (run_error dev) (compileShader dev source stage).
Proof.
  unfold compileShader.
  apply throws_only_bind; [apply create_never_throws|]. intros [shader|].
  - apply throws_only_bind; [apply throws_only_set_gl|]. intros _.
    destruct (dev_compile_log dev stage source) as [info|] eqn:E.
    + apply throws_only_bind; [apply delete_never_throws|]. intros _.
      apply throws_only_throw. eapply err_compile; eauto.
    + apply throws_only_ret.
  - apply throws_only_throw. constructor.
Qed.

Lemma createProgram_errors dev vs fs :
  throws_only (run_error dev) (createProgram dev vs fs).
Proof.
  unfold createProgram.
  apply throws_only_bind; [apply compileShader_errors|]. intros vsh.
  apply throws_only_bind; [apply compileShader_errors|]. intros fsh.
  apply throws_only_bind; [apply create_never_throws|]. intros [program|].
  - apply throws_only_bind; [apply throws_only_set_gl|]. intros _.
    destruct (dev_link_log dev vs fs) as [info|] eqn:E.
    + apply throws_only_bind; [apply delete_never_throws|]. intros _.
      apply throws_only_throw. eapply err_link; eauto.
    + no_throw (run_error dev); apply delete_never_throws.
  - apply throws_only_throw. constructor.
Qed.

Lemma getProgram_errors dev frag : throws_only (run_error dev) (getProgram dev frag).
Proof.
  unfold getProgram.
  apply throws_only_bind; [apply throws_only_get_this|]. intros p.
  destruct (Map_get frag (programs p)); [apply throws_only_ret|].
  apply throws_only_bind; [apply createProgram_errors|]. intros program.
  no_throw (run_error dev).
Qed.

Lemma renderFilter_errors dev input frag uniforms fb width height :
  throws_only (run_error dev) (renderFilter dev input frag uniforms fb width height).
Proof.
  unfold renderFilter.
  apply throws_only_bind; [apply getProgram_errors|]. intros _.
  apply throws_only_bind; [apply now_never_throws|]. intros t0.
  apply throws_only_bind; [apply throws_only_get_this|]. intros p.
  apply throws_only_bind.
  { destruct (ext p); [|apply throws_only_ret].
    apply throws_only_bind; [apply create_never_throws|].
    intros [query|]; [apply throws_only_ret|].
    apply throws_only_throw. apply err_null_query. }
  intros _.
  repeat (apply throws_only_bind; [apply throws_only_set_gl|]; intros _).
  apply throws_only_bind; [apply now_never_throws|]. intros t1. apply throws_only_ret.
Qed.

Lemma passes_from_errors dev width height count filters :
  forall index v,
    throws_only (run_error dev) (passes_from dev width height count filters index v).
Proof.
  induction filters as [|f rest IH]; intros index v; simpl.
  - apply throws_only_ret.
  - apply throws_only_bind; [|intros v'; apply IH].
    unfold pass. apply throws_only_bind; [apply renderFilter_errors|]. intros t.
    destruct (negb (Nat.eqb index (count - 1))); apply throws_only_ret.
Qed.

Lemma render_errors dev width height enabledFilters input fbo1 fbo2 :
  throws_only (run_error dev) (render dev width height enabledFilters input fbo1 fbo2).
Proof.
  assert (Hclear : throws_only (run_error dev) clear).
  { unfold clear. no_throw (run_error dev). }
  unfold render. destruct enabledFilters as [|f rest].
  - apply throws_only_bind; [exact Hclear|]. intros _.
    apply throws_only_bind; [apply renderFilter_errors|]. intros t.
    apply throws_only_ret.
  - apply throws_only_bind; [exact Hclear|]. intros _.
    apply throws_only_bind; [apply passes_from_errors|]. intros v.
    apply throws_only_ret.
Qed.

Lemma createFramebuffer_errors dev width height :
  throws_only (run_error dev) (createFramebuffer dev width height).
Proof.
  unfold createFramebuffer, push_framebuffer, push_texture.
  apply throws_only_bind; [apply create_never_throws|]. intros [t|];
    [|apply throws_only_throw; constructor].
  apply throws_only_bind; [apply throws_only_set_gl|]. intros _.
  apply throws_only_bind; [apply create_never_throws|]. intros [fb|];
    [|apply throws_only_throw; constructor].
  apply throws_only_bind; [apply throws_only_set_gl|]. intros _.
  apply throws_only_bind; [apply throws_only_set_gl|]. intros _.
  destruct (negb (dev_fb_complete dev width height));
    [apply throws_only_throw; constructor|].
  no_throw (run_error dev).
Qed.

Lemma setup_errors dev width height img :
  throws_only (run_error dev) (setup dev width height img).
Proof.
  unfold setup.
  apply throws_only_bind.
  { unfold new_WebGLProcessor. destruct (negb (dev_webgl dev));
      [apply throws_only_throw; constructor|].
    unfold setupGeometry. no_throw (run_error dev); apply create_never_throws. }
  intros _.
  apply throws_only_bind.
  { unfold createTexture, push_texture.
    apply throws_only_bind; [apply create_never_throws|]. intros [t|];
      [no_throw (run_error dev)|apply throws_only_throw; constructor]. }
  intros input.
  apply throws_only_bind; [apply createFramebuffer_errors|]. intros fbo1.
  apply throws_only_bind; [apply createFramebuffer_errors|]. intros fbo2.
  apply throws_only_ret.
Qed.

Lemma try_block_errors dev width height img pipeline t0 :
  throws_only (run_error dev) (try_block dev width height img pipeline t0).
Proof.
  unfold try_block.
  apply throws_only_bind; [apply setup_errors|]. intros [[input fbo1] fbo2].
  apply throws_only_bind; [apply render_errors|]. intros g.
  apply throws_only_bind; [apply now_never_throws|]. intros t.
  apply throws_only_bind; [unfold getCanvasDataURL; no_throw (run_error dev)|]. intros url.
  apply throws_only_bind; [|intros; apply throws_only_ret].
  intros s e s' H. pose proof (destroy_Ok s) as Hd. rewrite H in Hd. discriminate.
Qed.

(** X1.  A failed run reports one of the fixed messages of the source, the
    device's compile or link diagnostic behind its prefix, or the browser's
    message for the TypeError of a timer query that could not be created. *)
Theorem failed_run_error_message dev width height imageSrc pipeline :
  let r := processImageWithPipeline dev width height imageSrc pipeline in
  success r = false ->
  exists message, error r = Some message /\ run_error dev message.
Proof.
  unfold processImageWithPipeline.
  destruct (dev_decode dev imageSrc) as [img|] eqn:Hd.
  - rewrite (run_unfold _ _ _ _ _ _ Hd).
    destruct (try_block dev width height img pipeline (dev_now dev 0) started)
      as [[r|e] s'] eqn:Ht; simpl.
    + destruct (try_block_Ok _ _ _ _ _ _ _ _ _ Ht) as (Hs & _). congruence.
    + intros _. exists e. split; [reflexivity|].
      eapply try_block_errors; eauto.
  - unfold run. rewrite Hd. simpl. intros _. eexists. split; [reflexivity|constructor].
Qed.

Lemma failed_run_error_message_witness :
  success (processImageWithPipeline failing_link_device 4 4 "image.png" sample_pipeline)
  = false /\
  error (processImageWithPipeline failing_link_device 4 4 "image.png" sample_pipeline)
  = Some "Program linking error: varyings do not match" /\
  success (processImageWithPipeline null_query_device 4 4 "image.png" sample_pipeline)
  = false /\
  error (processImageWithPipeline null_query_device 4 4 "image.png" sample_pipeline)
  = Some (dev_type_error null_query_device).
Proof.
  assert (H : success (processImageWithPipeline failing_link_device 4 4 "image.png"
                         sample_pipeline) = false) by (vm_compute; reflexivity).
  assert (H' : success (processImageWithPipeline null_query_device 4 4 "image.png"
                          sample_pipeline) = false) by (vm_compute; reflexivity).
  split; [exact H|]. split; [|split; [exact H'|]].
  - destruct (failed_run_error_message failing_link_device 4 4 "image.png"
                sample_pipeline H) as (message & He & _).
    rewrite He. f_equal.
    assert (E : error (processImageWithPipeline failing_link_device 4 4 "image.png"
                         sample_pipeline)
                = Some "Program linking error: varyings do not match")
      by (vm_compute; reflexivity).
    congruence.
  - destruct (failed_run_error_message null_query_device 4 4 "image.png"
                sample_pipeline H') as (message & He & _).
    rewrite He. f_equal.
    assert (E : error (processImageWithPipeline null_query_device 4 4 "image.png"
                         sample_pipeline)
                = Some (dev_type_error null_query_device))
      by (vm_compute; reflexivity).
    congruence.
Defined.

(** ** Failing before, during and after setup *)

(** X2.  A run whose image does not load, or whose browser has no WebGL, fails
    without a single device call. *)
Theorem no_context_no_device_call dev width height imageSrc pipeline :
  dev_decode dev imageSrc = None \/ dev_webgl dev = false ->
  let outcome := run dev width height imageSrc pipeline in
  success (fst outcome) = false /\
  gl_log (gl (snd outcome)) = [] /\
  (dev_decode dev imageSrc = None -> error (fst outcome) = Some "Failed to load image") /\
  (dev_decode dev imageSrc <> None -> error (fst outcome) = Some "WebGL not supported").
Proof.
  intros H. simpl.
  destruct (dev_decode dev imageSrc) as [img|] eqn:Hd.
  - destruct H as [H|H]; [discriminate|].
    rewrite (run_unfold _ _ _ _ _ _ Hd).
    assert (Hs : setup dev width height img started = (Thrown "WebGL not supported", started)).
    { unfold setup, new_WebGLProcessor. rewrite bind_eq, H. reflexivity. }
    rewrite (try_block_setup_thrown _ _ _ _ _ _ _ _ _ Hs). simpl.
    repeat split; auto. intros E. discriminate.
  - unfold run. rewrite Hd. simpl. repeat split; auto. intros E. congruence.
Qed.

Lemma no_context_no_device_call_witness :
  dev_webgl no_webgl_device = false /\
  gl_log (gl (snd (run no_webgl_device 4 4 "image.png" sample_pipeline))) = [] /\
  gl_log (gl (snd (run no_image_device 4 4 "image.png" sample_pipeline))) = [].
Proof.
  split; [reflexivity|]. split.
  - apply (no_context_no_device_call no_webgl_device 4 4 "image.png" sample_pipeline).
    right. reflexivity.
  - apply (no_context_no_device_call no_image_device 4 4 "image.png" sample_pipeline).
    left. reflexivity.
Defined.

(** The log of a completed setup: buffer creations, then the input texture
    and the two render targets. *)
Lemma setup_Ok_log dev width height img s input fbo1 fbo2 s' :
  setup dev width height img s = (Ok (input, fbo1, fbo2), s') ->
  exists buffers,
    forallb (created_of KBuffer) buffers = true /\
    gl_log (gl s') =
    (gl_log (gl s) ++ buffers ++
     [ EvCreate KTexture input;
       EvCreate KTexture (texture fbo1); EvCreate KFramebuffer (framebuffer fbo1);
       EvCreate KTexture (texture fbo2); EvCreate KFramebuffer (framebuffer fbo2) ])%list.
Proof.
  run_setup.
  destruct (dev_webgl dev); simpl; [|discriminate].
  destruct (dev_creates dev KBuffer (gl_next (gl s))); simpl;
  destruct (dev_creates dev KBuffer (S (gl_next (gl s)))); simpl;
  (destruct (dev_creates dev KTexture (S (S (gl_next (gl s))))); simpl; [|discriminate]);
  (destruct (dev_creates dev KTexture (S (S (S (gl_next (gl s)))))); simpl; [|discriminate]);
  (destruct (dev_creates dev KFramebuffer (S (S (S (S (gl_next (gl s))))))); simpl; [|discriminate]);
  (destruct (dev_fb_complete dev width height); simpl; [|discriminate]);
  (destruct (dev_creates dev KTexture (S (S (S (S (S (gl_next (gl s)))))))); simpl; [|discriminate]);
  (destruct (dev_creates dev KFramebuffer (S (S (S (S (S (S (gl_next (gl s))))))))); simpl; [|discriminate]);
  intros [= <- <- <- <-]; simpl; repeat rewrite <- app_assoc; simpl.
  - exists [EvCreate KBuffer (gl_next (gl s)); EvCreate KBuffer (S (gl_next (gl s)))].
    split; reflexivity.
  - exists [EvCreate KBuffer (gl_next (gl s))]. split; reflexivity.
  - exists [EvCreate KBuffer (S (gl_next (gl s)))]. split; reflexivity.
  - exists []. split; reflexivity.
Qed.

Lemma times_released_app k obj l1 l2 :
  times_released k obj (l1 ++ l2) = times_released k obj l1 + times_released k obj l2.
Proof. unfold times_released. rewrite filter_app, length_app. reflexivity. Qed.

Lemma times_created_app k obj l1 l2 :
  times_created k obj (l1 ++ l2) = times_created k obj l1 + times_created k obj l2.
Proof. unfold times_created. rewrite filter_app, length_app. reflexivity. Qed.

Lemma render_event_surface_untouched k obj evs :
  forallb render_event evs = true ->
  (k = KTexture \/ k = KFramebuffer \/ k = KBuffer) ->
  times_released k obj evs = 0 /\ times_created k obj evs = 0.
Proof.
  intros Hev Hk. induction evs as [|e evs IH]; simpl; [auto|].
  simpl in Hev. apply Bool.andb_true_iff in Hev. destruct Hev as [He Hev].
  destruct (IH Hev) as [IH1 IH2].
  unfold times_released, times_created in *. simpl.
  destruct e as [k' o'|k' o'| | | | |]; simpl in *; auto;
    destruct k'; simpl in He; try discriminate;
    destruct Hk as [->|[->| ->]]; simpl; auto.
Qed.

Lemma buffers_surface_untouched k obj evs :
  forallb (created_of KBuffer) evs = true ->
  (k = KTexture \/ k = KFramebuffer) ->
  times_released k obj evs = 0 /\ times_created k obj evs = 0.
Proof.
  intros Hev Hk. induction evs as [|e evs IH]; simpl; [auto|].
  simpl in Hev. apply Bool.andb_true_iff in Hev. destruct Hev as [He Hev].
  destruct (IH Hev) as [IH1 IH2].
  unfold times_released, times_created in *. simpl.
  destruct e as [k' o'|k' o'| | | | |]; simpl in *; try discriminate.
  destruct k'; simpl in He; try discriminate.
  destruct Hk as [->| ->]; simpl; auto.
Qed.

(** X3.  A run that fails after its setup completed never reaches [destroy]: the
    input texture and both render targets were created once and are never
    deleted. *)
Theorem failed_run_keeps_setup_objects
    dev width height imageSrc img pipeline input fbo1 fbo2 s1 :
  dev_decode dev imageSrc = Some img ->
  setup dev width height img started = (Ok (input, fbo1, fbo2), s1) ->
  let outcome := run dev width height imageSrc pipeline in
  success (fst outcome) = false ->
  forall k obj,
    In (k, obj) [ (KTexture, input);
                  (KTexture, texture fbo1); (KFramebuffer, framebuffer fbo1);
                  (KTexture, texture fbo2); (KFramebuffer, framebuffer fbo2) ] ->
    times_created k obj (gl_log (gl (snd outcome))) = 1 /\
    times_released k obj (gl_log (gl (snd outcome))) = 0.
Proof.
  intros Hd Hs outcome Hfail k obj Hin.
  unfold outcome in *. clear outcome.
  rewrite (run_unfold _ _ _ _ _ _ Hd) in *.
  rewrite (try_block_after_setup _ _ _ _ _ _ _ _ _ _ _ Hs) in *.
  pose proof (render_extends dev width height (filter enabled pipeline) input fbo1 fbo2 s1)
    as (evs & Hlog & Hev).
  destruct (render dev width height (filter enabled pipeline) input fbo1 fbo2 s1)
    as [[g|e] s2]; [discriminate Hfail|].
  simpl in *.
  destruct (setup_Ok_log _ _ _ _ _ _ _ _ _ Hs) as (buffers & Hb & Hlog1).
  destruct (setup_Ok _ _ _ _ _ _ _ _ _ Hs) as (Hi & H1 & H2 & _).
  assert (Hk : k = KTexture \/ k = KFramebuffer).
  { simpl in Hin. decompose [or] Hin; try contradiction;
      match goal with E : (_, _) = (_, _) |- _ => injection E as <- _ end; auto. }
  destruct (render_event_surface_untouched k obj evs Hev) as [Hr Hc]; [tauto|].
  destruct (buffers_surface_untouched k obj buffers Hb Hk) as [Hrb Hcb].
  rewrite Hlog, Hlog1. simpl.
  rewrite !times_created_app, !times_released_app, Hr, Hc, Hrb, Hcb.
  cbn in Hi, H1, H2. subst input fbo1 fbo2.
  simpl in Hin.
  decompose [or] Hin; try contradiction;
    match goal with E : (_, _) = (_, _) |- _ => injection E as <- <- end;
    split; reflexivity.
Qed.

Lemma failed_run_keeps_setup_objects_witness :
  success (fst (run failing_compile_device 4 4 "image.png" sample_pipeline)) = false /\
  times_created KFramebuffer 6
    (gl_log (gl (snd (run failing_compile_device 4 4 "image.png" sample_pipeline)))) = 1 /\
  times_released KFramebuffer 6
    (gl_log (gl (snd (run failing_compile_device 4 4 "image.png" sample_pipeline)))) = 0.
Proof.
  assert (Hs : setup failing_compile_device 4 4 sample_image started
               = (Ok (2, {| framebuffer := 4; texture := 3 |},
                         {| framebuffer := 6; texture := 5 |}),
                  snd (setup failing_compile_device 4 4 sample_image started)))
    by (vm_compute; reflexivity).
  assert (Hf : success (fst (run failing_compile_device 4 4 "image.png" sample_pipeline))
               = false) by (vm_compute; reflexivity).
  split; [exact Hf|].
  apply (failed_run_keeps_setup_objects failing_compile_device 4 4 "image.png"
           sample_image sample_pipeline _ _ _ _ eq_refl Hs Hf KFramebuffer 6).
  simpl. auto 10.
Defined.

(** ** The ledger of a successful run *)






Lemma clear_log s : gl_log (gl (snd (clear s))) = (gl_log (gl s) ++ [EvClear])%list.
Proof. unfold clear, bind, set_gl. simpl. rewrite log_write_target. reflexivity. Qed.



(** ** One compilation per source *)

Lemma fragment_compiles_snoc f l e :
  fragment_compiles f (l ++ [e]) =
  fragment_compiles f l + (if compiles_of f e then 1 else 0).
Proof.
  rewrite fragment_compiles_app. unfold fragment_compiles. simpl.
  destruct (compiles_of f e); reflexivity.
Qed.

Lemma setup_extends dev width height img :
  respects (extends is_create) (setup dev width height img).
Proof.
  unfold setup, new_WebGLProcessor, setupGeometry, createTexture, createFramebuffer,
    push_texture, push_framebuffer.
  repeat first
    [ apply create_extends; reflexivity
    | apply set_this_silent
    | apply set_gl_silent; intros ?; reflexivity
    | apply (respects_bind _ (extends_trans is_create)); [|intros ?]
    | apply (respects_ret _ (extends_refl is_create))
    | apply (respects_throw _ (extends_refl is_create))
    | match goal with
      | |- respects _ (match ?x with _ => _ end) => destruct x
      end ].
Qed.

Lemma no_compile_events (P : Event -> bool) evs f :
  (forall e, P e = true -> compiles_of f e = false) ->
  forallb P evs = true -> fragment_compiles f evs = 0.
Proof.
  intros HP. induction evs as [|e evs IH]; simpl; [auto|].
  intros H. apply Bool.andb_true_iff in H. destruct H as [He H].
  unfold fragment_compiles in *. simpl. rewrite (HP e He). auto.
Qed.

Lemma is_create_no_compile f e : is_create e = true -> compiles_of f e = false.
Proof. destruct e; simpl; auto; discriminate. Qed.

Lemma is_delete_no_compile f e : is_delete e = true -> compiles_of f e = false.
Proof. destruct e; simpl; auto; discriminate. Qed.

(** [getProgram] keeps the count of every source at one at most, and keeps
    the invariant when it returns. *)
Lemma getProgram_compiled_once dev g s :
  compiled_once s ->
  (forall f, fragment_compiles f (gl_log (gl (snd (getProgram dev g s)))) <= 1) /\
  (forall program s', getProgram dev g s = (Ok program, s') -> compiled_once s').
Proof.
  intros HI.
  destruct (Map_get g (programs (this s))) as [cached|] eqn:Hget.
  - rewrite (getProgram_hit _ _ _ _ Hget). simpl. split.
    + intros f. apply HI.
    + intros program s' [= _ <-]. exact HI.
  - assert (Hg0 : fragment_compiles g (gl_log (gl s)) = 0) by (apply HI; exact Hget).
    assert (Hcount : forall f sh,
               fragment_compiles f (gl_log (gl s))
               + (if compiles_of f (EvCompile FRAGMENT_SHADER g sh) then 1 else 0) <= 1).
    { intros f sh. simpl. destruct (JSVal_eqb_spec f g) as [->|Hne].
      - rewrite Hg0. lia.
      - destruct (HI f) as [Hle _]. lia. }
    run_gl. rewrite Hget.
    destruct (dev_creates dev KShader (gl_next (gl s))); simpl;
      [|split; [intros f; apply HI | discriminate]].
    destruct (dev_compile_log dev VERTEX_SHADER (JStr basicVertexShader)); simpl.
    { split; [|discriminate]. intros f.
      repeat rewrite fragment_compiles_snoc. simpl. destruct (HI f). lia. }
    destruct (dev_creates dev KShader (S (gl_next (gl s)))); simpl.
    2:{ split; [|discriminate]. intros f.
        repeat rewrite fragment_compiles_snoc. simpl. destruct (HI f). lia. }
    destruct (dev_compile_log dev FRAGMENT_SHADER g); simpl.
    { split; [|discriminate]. intros f.
      repeat rewrite fragment_compiles_snoc.
      specialize (Hcount f (S (gl_next (gl s)))). simpl in *. lia. }
    destruct (dev_creates dev KProgram (S (S (gl_next (gl s))))); simpl.
    2:{ split; [|discriminate]. intros f.
        repeat rewrite fragment_compiles_snoc.
        specialize (Hcount f (S (gl_next (gl s)))). simpl in *. lia. }
    destruct (dev_link_log dev (JStr basicVertexShader) g); simpl.
    { split; [|discriminate]. intros f.
      repeat rewrite fragment_compiles_snoc.
      specialize (Hcount f (S (gl_next (gl s)))). simpl in *. lia. }
    assert (Hall : forall f,
               fragment_compiles f
                 ((((((((gl_log (gl s) ++ [EvCreate KShader (gl_next (gl s))]) ++
                        [EvCompile VERTEX_SHADER (JStr basicVertexShader) (gl_next (gl s))]) ++
                       [EvCreate KShader (S (gl_next (gl s)))]) ++
                      [EvCompile FRAGMENT_SHADER g (S (gl_next (gl s)))]) ++
                     [EvCreate KProgram (S (S (gl_next (gl s))))]) ++
                    [EvLink (S (S (gl_next (gl s))))]) ++
                   [EvDelete KShader (gl_next (gl s))]) ++
                  [EvDelete KShader (S (gl_next (gl s)))])%list
               = fragment_compiles f (gl_log (gl s))
                 + (if JSVal_eqb f g then 1 else 0)).
    { intros f. repeat rewrite fragment_compiles_snoc. simpl. lia. }
    split.
    + intros f. rewrite Hall. specialize (Hcount f 0). simpl in Hcount. exact Hcount.
    + intros program s' [= _ <-]. intros f. simpl. rewrite Hall. split.
      * specialize (Hcount f 0). simpl in Hcount. exact Hcount.
      * intros Hnone. destruct (JSVal_eqb_spec f g) as [->|Hne].
        -- rewrite Map_get_set_same in Hnone. discriminate.
        -- rewrite Map_get_set_other in Hnone.
           ++ destruct (HI f) as [_ H0]. rewrite (H0 Hnone). reflexivity.
           ++ destruct (JSVal_eqb_spec f g); [contradiction|reflexivity].
Qed.

Lemma renderFilter_compiled_once dev input frag uniforms fb width height s :
  compiled_once s ->
  (forall f,
      fragment_compiles f
        (gl_log (gl (snd (renderFilter dev input frag uniforms fb width height s)))) <= 1) /\
  (forall t s',
      renderFilter dev input frag uniforms fb width height s = (Ok t, s') ->
      compiled_once s').
Proof.
  intros HI. destruct (getProgram_compiled_once dev frag s HI) as [Hle Hok].
  unfold renderFilter. rewrite bind_eq.
  destruct (getProgram dev frag s) as [[program|e] s1] eqn:Hg; simpl in Hle.
  - specialize (Hok _ _ eq_refl).
    unfold now, create, bind, get_this, get_gl, set_gl, ret, throw. simpl.
    destruct (ext (this s1)); simpl;
      [destruct (dev_creates dev KQuery (gl_next (gl s1))); simpl|];
      (split;
       [ intros f; rewrite ?log_write_target; simpl;
         repeat rewrite fragment_compiles_snoc; simpl; specialize (Hle f); lia
       | intros t s' [= _ <-];
         (intros f; simpl; rewrite log_write_target; simpl;
          repeat rewrite fragment_compiles_snoc; simpl;
          destruct (Hok f) as [H1 H0]; (split; [lia|]);
          intros Hn; rewrite (H0 Hn); reflexivity) ]).
  - split; [exact Hle | discriminate].
Qed.

Lemma passes_from_compiled_once dev width height count filters :
  forall index v s,
    compiled_once s ->
    (forall f,
        fragment_compiles f
          (gl_log (gl (snd (passes_from dev width height count filters index v s)))) <= 1) /\
    (forall v' s',
        passes_from dev width height count filters index v s = (Ok v', s') ->
        compiled_once s').
Proof.
  induction filters as [|f0 rest IH]; intros index v s HI; simpl.
  - split; [intros f; apply HI | intros v' s' [= _ <-]; exact HI].
  - rewrite bind_eq. unfold pass. rewrite bind_eq.
    match goal with |- context [renderFilter ?d ?i ?fr ?u ?fb ?w ?h s] =>
      destruct (renderFilter_compiled_once d i fr u fb w h s HI) as [Hle Hok];
      destruct (renderFilter d i fr u fb w h s) as [[t|e] s1] eqn:Hr
    end; simpl in Hle.
    + specialize (Hok _ _ eq_refl).
      destruct (negb (Nat.eqb index (count - 1))); unfold ret; apply IH; exact Hok.
    + split; [exact Hle | discriminate].
Qed.

Lemma clear_compiled_once s : compiled_once s -> compiled_once (snd (clear s)).
Proof.
  intros HI f. rewrite clear_log, fragment_compiles_snoc. simpl.
  destruct (HI f) as [H1 H0]. split; [lia|]. intros Hn. rewrite (H0 Hn). reflexivity.
Qed.

(** X5.  Within one run every fragment source is handed to the compiler at most
    once, however many enabled filters resolve to it. *)
Theorem each_source_compiled_at_most_once dev width height imageSrc pipeline source :
  fragment_compiles source
    (gl_log (gl (snd (run dev width height imageSrc pipeline)))) <= 1.
Proof.
  destruct (dev_decode dev imageSrc) as [img|] eqn:Hd.
  2:{ unfold run. rewrite Hd. simpl. unfold fragment_compiles. simpl. lia. }
  rewrite (run_unfold _ _ _ _ _ _ Hd).
  pose proof (setup_extends dev width height img started) as (evs & Hlog & Hev).
  assert (Hs0 : forall f, fragment_compiles f (gl_log (gl (snd (setup dev width height img started)))) = 0).
  { intros f. rewrite Hlog. simpl.
    apply (no_compile_events is_create); [apply is_create_no_compile | exact Hev]. }
  destruct (setup dev width height img started) as [[[[input fbo1] fbo2]|e] s1] eqn:Hs.
  2:{ rewrite (try_block_setup_thrown _ _ _ _ _ _ _ _ _ Hs). simpl.
      simpl in Hs0. rewrite Hs0. lia. }
  rewrite (try_block_after_setup _ _ _ _ _ _ _ _ _ _ _ Hs).
  simpl in Hs0.
  assert (HI1 : compiled_once s1).
  { intros f. rewrite Hs0. split; [lia|auto]. }
  assert (Hrender : forall f,
             fragment_compiles f
               (gl_log (gl (snd (render dev width height (filter enabled pipeline)
                                   input fbo1 fbo2 s1)))) <= 1).
  { intros f. unfold render.
    pose proof (clear_compiled_once s1 HI1) as HIc.
    destruct (filter enabled pipeline) as [|f0 rest]; rewrite bind_eq;
      destruct (clear s1) as [[[]|e] sc] eqn:Ec; try discriminate Ec;
      simpl in HIc; rewrite bind_eq.
    - match goal with |- context [renderFilter ?d ?i ?fr ?u ?fb ?w ?h sc] =>
        destruct (renderFilter_compiled_once d i fr u fb w h sc HIc) as [Hle _];
        destruct (renderFilter d i fr u fb w h sc) as [[t|e] s2]
      end; simpl in *; apply Hle.
    - match goal with |- context [passes_from ?d ?w ?h ?c ?fs ?i ?v sc] =>
        destruct (passes_from_compiled_once d w h c fs i v sc HIc) as [Hle _];
        destruct (passes_from d w h c fs i v sc) as [[v'|e] s2]
      end; simpl in *; apply Hle. }
  destruct (render dev width height (filter enabled pipeline) input fbo1 fbo2 s1)
    as [[g|e] s2]; simpl in *.
  - destruct (destroy_extends {| gl := bump_clock (gl s2); this := this s2 |})
      as (devs & Hdl & Hde).
    rewrite Hdl. simpl. rewrite fragment_compiles_app.
    rewrite (no_compile_events is_delete _ _ (is_delete_no_compile source) Hde).
    specialize (Hrender source). lia.
  - apply Hrender.
Qed.

(** ** What ends up on the canvas *)

(** [clear] after the setup leaves the uploaded image and the attachments
    as they are. *)
Lemma clear_keeps_input dev width height img input fbo1 fbo2 s1 :
  setup dev width height img started = (Ok (input, fbo1, fbo2), s1) ->
  texture_content (gl (snd (clear s1))) input = Uploaded img /\
  gl_attach (gl (snd (clear s1))) = gl_attach (gl s1).
Proof.
  intros Hs.
  destruct (setup_Ok _ _ _ _ _ _ _ _ _ Hs)
    as (Hi & H1 & H2 & _ & Hst & Hsa & Hsb & Hcan & _).
  cbn in Hi, H1, H2. subst input fbo1 fbo2. cbn in Hst, Hsa, Hsb, Hcan.
  rewrite (clear_bound s1 6 5) by (try exact Hsb; rewrite Hsa; reflexivity).
  unfold texture_content. simpl. rewrite Hst. split; reflexivity.
Qed.

(** X6.  [clear] is called while the second render target is still bound from
    its construction: it paints that target's texture and leaves the canvas
    and the other textures as they were. *)
Theorem clear_paints_second_target dev width height img input fbo1 fbo2 s1 :
  setup dev width height img started = (Ok (input, fbo1, fbo2), s1) ->
  let s2 := snd (clear s1) in
  gl_canvas (gl s2) = Blank /\
  texture_content (gl s2) (texture fbo2) = Black /\
  texture_content (gl s2) (texture fbo1) = Blank /\
  texture_content (gl s2) input = Uploaded img /\
  gl_attach (gl s2) = gl_attach (gl s1).
Proof.
  intros Hs.
  destruct (setup_Ok _ _ _ _ _ _ _ _ _ Hs)
    as (Hi & H1 & H2 & _ & Hst & Hsa & Hsb & Hcan & _).
  cbn in Hi, H1, H2. subst input fbo1 fbo2. cbn in Hst, Hsa, Hsb, Hcan.
  rewrite (clear_bound s1 6 5) by (try exact Hsb; rewrite Hsa; reflexivity).
  unfold texture_content. simpl. rewrite Hst, Hcan. repeat split; reflexivity.
Qed.

Lemma clear_paints_second_target_witness :
  gl_canvas (gl (snd (clear (snd (setup working_device 4 4 sample_image started))))) = Blank /\
  texture_content (gl (snd (clear (snd (setup working_device 4 4 sample_image started))))) 5
  = Black.
Proof.
  assert (Hs : setup working_device 4 4 sample_image started
               = (Ok (2, {| framebuffer := 4; texture := 3 |},
                         {| framebuffer := 6; texture := 5 |}),
                  snd (setup working_device 4 4 sample_image started)))
    by (vm_compute; reflexivity).
  destruct (clear_paints_second_target working_device 4 4 sample_image _ _ _ _ Hs)
    as (Hc & Hb & _).
  split; [exact Hc | exact Hb].
Defined.

(** The loop, when it returns, leaves on the canvas the filters applied one
    after the other to the content of the texture it started from. *)
Lemma passes_from_canvas dev width height count input fbo1 fbo2 filters :
  forall index v s v' s' c,
    passes_from dev width height count filters index v s = (Ok v', s') ->
    filters <> [] ->
    index + length filters = count ->
    currentTexture v = input_at input fbo1 fbo2 index ->
    currentFBO v = target_at fbo1 fbo2 index ->
    nextFBO v = target_at fbo1 fbo2 (S index) ->
    lookup_nat (framebuffer fbo1) (gl_attach (gl s)) = Some (texture fbo1) ->
    lookup_nat (framebuffer fbo2) (gl_attach (gl s)) = Some (texture fbo2) ->
    texture_content (gl s) (currentTexture v) = c ->
    gl_canvas (gl s') = chain width height input fbo1 fbo2 filters index c.
Proof.
  induction filters as [|f rest IH];
    intros index v s v' s' c H Hne Hcount Ht Hc Hn Ha1 Ha2 Hcontent; [congruence|].
  simpl in H. rewrite bind_eq in H.
  destruct (pass dev width height count f index v s) as [[v1|e] s1] eqn:Hp; [|discriminate].
  pose proof (pass_draws _ _ _ _ _ _ _ _ _ _ Hp) as (_ & Ht1 & Hc1 & Hn1).
  unfold pass in Hp. rewrite bind_eq in Hp.
  match type of Hp with context [renderFilter ?d ?i ?fr ?u ?fb ?w ?h s] =>
    destruct (renderFilter d i fr u fb w h s) as [[t|e] s2] eqn:Hr; [|discriminate]
  end.
  assert (s1 = s2).
  { destruct (negb (Nat.eqb index (count - 1))); unfold ret in Hp; congruence. }
  subst s2.
  destruct (renderFilter_Ok_surfaces _ _ _ _ _ _ _ _ _ _ Hr) as (Hatt & Htex & Hcan).
  rewrite Hcontent in Htex, Hcan.
  assert (Hindex : match index with
                   | 0 => input
                   | S j => texture (target_at fbo1 fbo2 j)
                   end = currentTexture v) by (rewrite Ht; reflexivity).
  destruct rest as [|f2 rest2].
  - simpl in H. unfold ret in H. injection H as _ <-.
    assert (Hlast : Nat.eqb index (count - 1) = true).
    { apply Nat.eqb_eq. simpl in Hcount. lia. }
    rewrite Hlast in Hcan. simpl in Hcan. simpl. rewrite Hindex. exact Hcan.
  - assert (Hlast : Nat.eqb index (count - 1) = false).
    { apply Nat.eqb_neq. simpl in Hcount. lia. }
    rewrite Hlast in *.
    assert (Hlook : lookup_nat (framebuffer (currentFBO v)) (gl_attach (gl s))
                    = Some (texture (currentFBO v))).
    { rewrite Hc. unfold target_at. destruct (Nat.even index); assumption. }
    simpl in Htex. rewrite Hlook in Htex. simpl in Htex.
    change (chain width height input fbo1 fbo2 (f :: f2 :: rest2) index c)
      with (chain width height input fbo1 fbo2 (f2 :: rest2) (S index)
              (Shaded (getShaderForFilter (id f))
                 (build_uniforms
                    (match index with
                     | 0 => input
                     | S j => texture (target_at fbo1 fbo2 j)
                     end) width height (parameters f))
                 width height c)).
    rewrite Hindex.
    apply (IH (S index) v1 s1 v' s'); try assumption.
    + discriminate.
    + simpl in *. lia.
    + rewrite Ht1, Hc. reflexivity.
    + rewrite Hc1, Hn. reflexivity.
    + rewrite Hn1, Hc, target_at_SS. reflexivity.
    + rewrite Hatt. exact Ha1.
    + rewrite Hatt. exact Ha2.
    + unfold texture_content. rewrite Htex, Ht1. simpl.
      rewrite Nat.eqb_refl. reflexivity.
Qed.

(** X7.  A successful run with at least one enabled filter encodes the image
    obtained by applying the enabled filters in pipeline order, each to the
    output of the one before, starting from the uploaded image.  The
    encoding has the size of the canvas, which is the caller's width and
    height whenever these lie in 0 .. 2^31 - 1. *)
Theorem successful_run_composes_filters
    dev width height imageSrc img pipeline input fbo1 fbo2 s1 :
  dev_decode dev imageSrc = Some img ->
  setup dev width height img started = (Ok (input, fbo1, fbo2), s1) ->
  filter enabled pipeline <> [] ->
  let r := processImageWithPipeline dev width height imageSrc pipeline in
  success r = true ->
  imageDataUrl r =
    Some {| enc_width := canvas_dimension 300 width;
            enc_height := canvas_dimension 150 height;
            enc_content :=
              chain width height input fbo1 fbo2 (filter enabled pipeline) 0
                (Uploaded img) |} /\
  ((0 <= width <= 2147483647)%Z -> canvas_dimension 300 width = width) /\
  ((0 <= height <= 2147483647)%Z -> canvas_dimension 150 height = height).
Proof.
  intros Hd Hs Hne r Hsucc.
  split; [|split; apply canvas_dimension_in_range].
  unfold r, processImageWithPipeline in *. clear r.
  rewrite (run_unfold _ _ _ _ _ _ Hd) in *.
  rewrite (try_block_after_setup _ _ _ _ _ _ _ _ _ _ _ Hs) in *.
  destruct (clear_keeps_input _ _ _ _ _ _ _ _ Hs) as (Hin & Hatt).
  destruct (setup_Ok _ _ _ _ _ _ _ _ _ Hs)
    as (Hi & H1 & H2 & _ & _ & Hsa & _).
  destruct (render dev width height (filter enabled pipeline) input fbo1 fbo2 s1)
    as [[g|e] s2] eqn:Hr; [|discriminate Hsucc].
  simpl. do 2 f_equal.
  unfold render in Hr.
  destruct (filter enabled pipeline) as [|f rest] eqn:Ef; [congruence|].
  rewrite bind_eq in Hr.
  destruct (clear s1) as [[[]|e] sc] eqn:Ec; [|discriminate Ec].
  simpl in Hin, Hatt. rewrite bind_eq in Hr.
  match type of Hr with context [passes_from ?d ?w ?h ?c ?fs ?i ?v sc] =>
    destruct (passes_from d w h c fs i v sc) as [[v'|e] s3] eqn:Hp; [|discriminate]
  end.
  unfold ret in Hr. injection Hr as _ <-.
  apply (passes_from_canvas _ _ _ _ _ _ _ _ _ _ _ _ _ _ Hp); try reflexivity.
  - discriminate.
  - rewrite Hatt, Hsa. cbn in H1, H2. subst fbo1 fbo2. reflexivity.
  - rewrite Hatt, Hsa. cbn in H1, H2. subst fbo1 fbo2. reflexivity.
  - exact Hin.
Qed.

Lemma successful_run_composes_filters_witness :
  imageDataUrl (processImageWithPipeline working_device 4 4 "image.png" [brightness10; blur2])
  = Some {| enc_width := 4; enc_height := 4;
            enc_content :=
              Shaded (JStr shader_blur)
                [("u_image", UTex 3); ("u_resolution", UVec2 4 4);
                 ("u_radius", UNum (2 # 1))] 4 4
                (Shaded (JStr shader_brightness)
                   [("u_image", UTex 2); ("u_resolution", UVec2 4 4);
                    ("u_value", UNum (10 # 1))] 4 4
                   (Uploaded sample_image)) |}.
Proof.
  assert (Hs : setup working_device 4 4 sample_image started
               = (Ok (2, {| framebuffer := 4; texture := 3 |},
                         {| framebuffer := 6; texture := 5 |}),
                  snd (setup working_device 4 4 sample_image started)))
    by (vm_compute; reflexivity).
  assert (Hsucc : success (processImageWithPipeline working_device 4 4 "image.png"
                             [brightness10; blur2]) = true) by (vm_compute; reflexivity).
  rewrite (proj1 (successful_run_composes_filters working_device 4 4 "image.png"
                    sample_image [brightness10; blur2] _ _ _ _ eq_refl Hs
                    ltac:(discriminate) Hsucc)).
  vm_compute. reflexivity.
Defined.

(** * The surface component *)













Lemma destroy_this s :
  this (snd (destroy s)) =
  {| programs := []; framebuffers := []; textures := [];
     positionBuffer := positionBuffer (this s); indexBuffer := indexBuffer (this s);
     ext := ext (this s) |}.
Proof.
  unfold destroy. rewrite bind_eq. simpl. rewrite bind_eq.
  rewrite (forEach_delete KProgram (@snd JSVal nat)). simpl.
  rewrite bind_eq. simpl. rewrite bind_eq. simpl. rewrite bind_eq.
  rewrite (forEach_delete KFramebuffer (fun x => x)). simpl.
  rewrite bind_eq. simpl. rewrite bind_eq. simpl. rewrite bind_eq.
  rewrite (forEach_delete KTexture (fun x => x)). simpl.
  rewrite bind_eq. simpl. rewrite bind_eq. simpl. rewrite bind_eq.
  destruct (positionBuffer (this s)); destruct (indexBuffer (this s)); reflexivity.
Qed.



(** A completed drawing is balanced after cleanup; a shader that does not
    compile leaves one object (the vertex shader) and an incomplete
    framebuffer two. *)
Example surface_cleanup_examples :
  let log d := gl_log (gl (snd (Surface.load_then_cleanup d 4 4 sample_image sample_pipeline))) in
  (allocations (log working_device), releases (log working_device)) = (16, 16) /\
  (allocations (log failing_compile_device), releases (log failing_compile_device)) = (9, 8).
Proof. split; vm_compute; reflexivity. Qed.

(** ** [destroy], twice *)

(** X9.  [destroy] empties the program cache and the two lists but keeps the two
    buffer fields: called again, it deletes the two geometry buffers a second
    time and nothing else. *)
Theorem destroy_twice s :
  let s1 := snd (destroy s) in
  let s2 := snd (destroy s1) in
  programs (this s1) = [] /\ framebuffers (this s1) = [] /\ textures (this s1) = [] /\
  positionBuffer (this s1) = positionBuffer (this s) /\
  indexBuffer (this s1) = indexBuffer (this s) /\
  gl_log (gl s2) =
  (gl_log (gl s1)
   ++ map (EvDelete KBuffer) (option_list (positionBuffer (this s)))
   ++ map (EvDelete KBuffer) (option_list (indexBuffer (this s))))%list.
Proof.
  simpl. rewrite (destroy_log (snd (destroy s))). rewrite (destroy_this s). simpl.
  repeat split.
Qed.

(** * Uniforms *)

(** ** A render target that cannot be built *)

(** X10.  A [createFramebuffer] that throws records nothing and deletes nothing:
    what it had created by then (nothing, the texture, or the texture and
    the framebuffer of an incomplete target) stays on the device, unknown to
    [destroy]. *)
Theorem createFramebuffer_thrown dev width height s e s' :
  createFramebuffer dev width height s = (Thrown e, s') ->
  let n := gl_next (gl s) in
  this s' = this s /\
  ((e = "Failed to create framebuffer texture" /\ gl_log (gl s') = gl_log (gl s)) \/
   (e = "Failed to create framebuffer" /\
    gl_log (gl s') = (gl_log (gl s) ++ [EvCreate KTexture n])%list) \/
   (e = "Framebuffer not complete" /\ dev_fb_complete dev width height = false /\
    gl_log (gl s') =
    (gl_log (gl s) ++ [EvCreate KTexture n; EvCreate KFramebuffer (S n)])%list)).
Proof.
  unfold createFramebuffer, push_texture, push_framebuffer, create, bind, get_gl,
    set_gl, set_this, ret, throw. simpl.
  destruct (dev_creates dev KTexture (gl_next (gl s))); simpl.
  2:{ intros [= <- <-]. simpl. split; [destruct s; reflexivity|]. left. auto. }
  destruct (dev_creates dev KFramebuffer (S (gl_next (gl s)))); simpl.
  2:{ intros [= <- <-]. simpl. split; [reflexivity|]. right; left. auto. }
  destruct (dev_fb_complete dev width height) eqn:Hc; simpl; [discriminate|].
  intros [= <- <-]. simpl. split; [reflexivity|]. right; right.
  rewrite <- app_assoc. auto.
Qed.

Lemma createFramebuffer_thrown_witness :
  exists s',
    createFramebuffer incomplete_fb_device 4 4 st0 = (Thrown "Framebuffer not complete", s') /\
    this s' = this st0 /\
    live (gl_log (gl s')) [] = [(KTexture, 0); (KFramebuffer, 1)].
Proof.
  destruct (createFramebuffer incomplete_fb_device 4 4 st0) as [o s'] eqn:E.
  assert (Ho : o = Thrown "Framebuffer not complete") by (vm_compute in E; congruence).
  subst o. exists s'. split; [reflexivity|].
  destruct (createFramebuffer_thrown incomplete_fb_device 4 4 st0 _ s' E) as (Ht & Hcases).
  split; [exact Ht|].
  destruct Hcases as [[Hm _] | [[Hm _] | (_ & _ & Hlog)]]; try discriminate.
  rewrite Hlog. reflexivity.
Defined.

(** ** The [uniforms] object of a pass *)

Lemma get_set_uniform_same k v o : get_uniform k (set_uniform k v o) = Some v.
Proof.
  induction o as [|[k' v'] o IH]; simpl.
  - rewrite String.eqb_refl. reflexivity.
  - destruct (String.eqb k k') eqn:E; simpl; rewrite E; auto.
Qed.

Lemma get_set_uniform_other k k' v o :
  k' <> k -> get_uniform k' (set_uniform k v o) = get_uniform k' o.
Proof.
  intros Hne. induction o as [|[k0 v0] o IH]; simpl.
  - destruct (String.eqb_spec k' k); [contradiction|reflexivity].
  - destruct (String.eqb_spec k k0) as [->|Hk]; simpl.
    + destruct (String.eqb_spec k' k0); [contradiction|reflexivity].
    + rewrite IH. reflexivity.
Qed.

Lemma keys_set_uniform k v o :
  exists extra, map fst (set_uniform k v o) = (map fst o ++ extra)%list.
Proof.
  induction o as [|[k0 v0] o IH]; simpl.
  - exists [k]. reflexivity.
  - destruct (String.eqb k k0); simpl.
    + exists []. rewrite app_nil_r. reflexivity.
    + destruct IH as (extra & ->). exists extra. reflexivity.
Qed.

Lemma prefixed_inj a b : ("u_" ++ a)%string = ("u_" ++ b)%string -> a = b.
Proof. simpl. intros [= H]. exact H. Qed.

Lemma fold_uniforms_other (params : list (string * Q)) :
  forall acc key,
    (forall k, In k (map fst params) -> ("u_" ++ k)%string <> key) ->
    get_uniform key
      (fold_left (fun u kv => set_uniform ("u_" ++ fst kv) (UNum (snd kv)) u) params acc)
    = get_uniform key acc.
Proof.
  induction params as [|[k0 v0] rest IH]; intros acc key H; simpl; [reflexivity|].
  rewrite IH.
  - apply get_set_uniform_other. intros ->. apply (H k0); simpl; auto.
  - intros k Hk. apply H. simpl. auto.
Qed.

Lemma fold_uniforms_param (params : list (string * Q)) :
  forall acc k v,
    NoDup (map fst params) -> In (k, v) params ->
    get_uniform ("u_" ++ k)
      (fold_left (fun u kv => set_uniform ("u_" ++ fst kv) (UNum (snd kv)) u) params acc)
    = Some (UNum v).
Proof.
  induction params as [|[k0 v0] rest IH]; intros acc k v Hnd Hin; simpl in *; [contradiction|].
  inversion Hnd as [|? ? Hnotin Hnd']; subst.
  destruct Hin as [[= -> ->]|Hin].
  - rewrite fold_uniforms_other.
    + apply get_set_uniform_same.
    + intros k' Hk' E. apply prefixed_inj in E. subst. contradiction.
  - apply IH; assumption.
Qed.

Lemma fold_uniforms_keys (params : list (string * Q)) :
  forall acc,
    exists extra,
      map fst (fold_left (fun u kv => set_uniform ("u_" ++ fst kv) (UNum (snd kv)) u)
                 params acc)
      = (map fst acc ++ extra)%list.
Proof.
  induction params as [|[k0 v0] rest IH]; intros acc; cbn [fold_left fst snd].
  - exists []. rewrite app_nil_r. reflexivity.
  - destruct (IH (set_uniform ("u_" ++ k0) (UNum v0) acc)) as (extra & ->).
    destruct (keys_set_uniform ("u_" ++ k0) (UNum v0) acc) as (extra0 & E).
    rewrite E. exists (extra0 ++ extra)%list. rewrite app_assoc. reflexivity.
Qed.

Lemma build_uniforms_keys currentTexture width height params :
  exists rest,
    map fst (build_uniforms currentTexture width height params)
    = "u_image" :: "u_resolution" :: rest.
Proof.
  unfold build_uniforms.
  destruct (fold_uniforms_keys params
              [("u_image", UTex currentTexture); ("u_resolution", UVec2 width height)])
    as (extra & ->). exists extra. reflexivity.
Qed.

Lemma build_uniforms_entries currentTexture width height params :
  NoDup (map fst params) ->
  let uniforms := build_uniforms currentTexture width height params in
  (forall k v, In (k, v) params ->
               get_uniform ("u_" ++ k) uniforms = Some (UNum v)) /\
  (~ In "image" (map fst params) ->
   get_uniform "u_image" uniforms = Some (UTex currentTexture)) /\
  (~ In "resolution" (map fst params) ->
   get_uniform "u_resolution" uniforms = Some (UVec2 width height)).
Proof.
  intros Hnd uniforms. unfold uniforms, build_uniforms. split.
  { intros k v Hin. apply fold_uniforms_param; assumption. }
  split.
  - intros Hno. rewrite fold_uniforms_other; [reflexivity|].
    intros k Hk E. apply (prefixed_inj k "image") in E. subst. contradiction.
  - intros Hno. rewrite fold_uniforms_other; [reflexivity|].
    intros k Hk E. apply (prefixed_inj k "resolution") in E. subst. contradiction.
Qed.

(** X11.  The uniforms of a pass: the sampler and the resolution come first,
    every parameter [k] of the filter is there as [u_k] with its value, and
    the sampler and resolution entries hold the texture and the size unless
    a parameter is called [image] or [resolution]. *)
Theorem build_uniforms_lookup currentTexture width height params :
  NoDup (map fst params) ->
  let uniforms := build_uniforms currentTexture width height params in
  (exists rest, map fst uniforms = "u_image" :: "u_resolution" :: rest) /\
  (forall k v, In (k, v) params ->
               get_uniform ("u_" ++ k) uniforms = Some (UNum v)) /\
  (~ In "image" (map fst params) ->
   get_uniform "u_image" uniforms = Some (UTex currentTexture)) /\
  (~ In "resolution" (map fst params) ->
   get_uniform "u_resolution" uniforms = Some (UVec2 width height)).
Proof.
  intros Hnd uniforms. unfold uniforms. split.
  { apply build_uniforms_keys. }
  apply (build_uniforms_entries currentTexture width height params Hnd).
Qed.

Lemma build_uniforms_lookup_witness :
  get_uniform "u_radius" (build_uniforms 3 640 480 (parameters blur2))
  = Some (UNum (2 # 1)) /\
  get_uniform "u_resolution" (build_uniforms 3 640 480 (parameters blur2))
  = Some (UVec2 640 480).
Proof.
  assert (Hnd : NoDup (map fst (parameters blur2))).
  { simpl. constructor; [intros []|constructor]. }
  destruct (build_uniforms_lookup 3 640 480 (parameters blur2) Hnd) as (_ & Hp & _ & Hr).
  split.
  - apply (Hp "radius"). simpl. auto.
  - apply Hr. simpl. intros [E|[]]. discriminate.
Defined.

(** ** What reaches the device *)

Lemma get_uniform_In k v o : get_uniform k o = Some v -> In (k, v) o.
Proof.
  induction o as [|[k' v'] o IH]; simpl; [discriminate|].
  destruct (String.eqb_spec k k') as [->|_].
  - intros [= ->]. auto.
  - auto.
Qed.

Lemma upload_In declared uniforms name value c :
  In (name, value) uniforms ->
  In c (upload_uniform declared (name, value)) ->
  In c (upload_uniforms declared uniforms).
Proof.
  intros Hin Hc. unfold upload_uniforms. apply in_flat_map.
  exists (name, value). auto.
Qed.

(** X12.  The upload loop makes calls only for uniforms the program declares, and
    whatever is stored under [u_image], the only call it ever makes for that
    name binds the sampler to texture unit 0. *)
Theorem upload_only_declared declared uniforms c :
  In c (upload_uniforms declared uniforms) ->
  declared (call_name c) = true /\
  (exists value, In (call_name c, value) uniforms) /\
  (call_name c = "u_image" -> c = uniform1i "u_image" 0) /\
  (call_name c = "u_resolution" -> exists x y, c = uniform2f "u_resolution" x y).
Proof.
  unfold upload_uniforms. rewrite in_flat_map.
  intros ([name value] & Hin & Hc). unfold upload_uniform in Hc.
  destruct (declared name) eqn:Hd; [|destruct Hc].
  destruct (String.eqb_spec name "u_image") as [->|Hni].
  { destruct Hc as [<-|[]]. simpl. repeat split; eauto. intros E. discriminate. }
  destruct (String.eqb_spec name "u_resolution") as [->|Hnr].
  { destruct Hc as [<-|[]]. simpl. repeat split; eauto. intros E. discriminate. }
  destruct value; simpl in Hc; try contradiction.
  destruct Hc as [<-|[]]. simpl. repeat split; eauto; intros E; congruence.
Qed.

Lemma upload_only_declared_witness :
  upload_uniforms brightness_declares
    (build_uniforms 2 640 480 [("value", (10 # 1)%Q); ("gamma", (2 # 1)%Q)])
  = [uniform1i "u_image" 0; uniform1f "u_value" (10 # 1)] /\
  brightness_declares "u_value" = true.
Proof.
  assert (E : upload_uniforms brightness_declares
                (build_uniforms 2 640 480 [("value", (10 # 1)%Q); ("gamma", (2 # 1)%Q)])
              = [uniform1i "u_image" 0; uniform1f "u_value" (10 # 1)])
    by (vm_compute; reflexivity).
  split; [exact E|].
  apply (upload_only_declared brightness_declares
           (build_uniforms 2 640 480 [("value", (10 # 1)%Q); ("gamma", (2 # 1)%Q)])
           (uniform1f "u_value" (10 # 1))).
  rewrite E. simpl. auto.
Defined.

(** X13.  For a pass built from a filter's parameters: a declared sampler is
    always bound to unit 0, even when a parameter is called [image]; every
    other parameter [k] whose uniform [u_k] the program declares arrives as
    [uniform1f(u_k, value)]; the resolution arrives as the width and height,
    unless a parameter is called [resolution], in which case both of its
    components are NaN. *)
Theorem pass_uniform_upload declared currentTexture width height params :
  NoDup (map fst params) ->
  let calls :=
    upload_uniforms declared (build_uniforms currentTexture width height params) in
  (declared "u_image" = true -> In (uniform1i "u_image" 0) calls) /\
  (forall k v,
      In (k, v) params -> k <> "image" -> k <> "resolution" ->
      declared ("u_" ++ k) = true -> In (uniform1f ("u_" ++ k) v) calls) /\
  (declared "u_resolution" = true -> ~ In "resolution" (map fst params) ->
   In (uniform2f "u_resolution" (Float (inject_Z width)) (Float (inject_Z height))) calls) /\
  (declared "u_resolution" = true -> In "resolution" (map fst params) ->
   In (uniform2f "u_resolution" NaN NaN) calls).
Proof.
  intros Hnd calls.
  destruct (build_uniforms_keys currentTexture width height params) as (rest & Hkeys).
  destruct (build_uniforms_entries currentTexture width height params Hnd)
    as (Hparam & Himg & Hres).
  set (uniforms := build_uniforms currentTexture width height params) in *.
  split.
  { intros Hd.
    assert (Hin : exists v, In ("u_image", v) uniforms).
    { destruct uniforms as [|[k0 v0] u]; simpl in Hkeys; [discriminate|].
      injection Hkeys as -> _. exists v0. simpl. auto. }
    destruct Hin as (v & Hin).
    apply (upload_In declared uniforms "u_image" v); [exact Hin|].
    unfold upload_uniform. rewrite Hd. simpl. auto. }
  split.
  { intros k v Hin Hni Hnr Hd.
    apply (upload_In declared uniforms ("u_" ++ k) (UNum v)).
    - apply get_uniform_In, Hparam, Hin.
    - unfold upload_uniform. rewrite Hd.
      destruct (String.eqb_spec ("u_" ++ k) "u_image") as [E|_].
      { apply (prefixed_inj k "image") in E. contradiction. }
      destruct (String.eqb_spec ("u_" ++ k) "u_resolution") as [E|_].
      { apply (prefixed_inj k "resolution") in E. contradiction. }
      simpl. auto. }
  split.
  { intros Hd Hno.
    apply (upload_In declared uniforms "u_resolution" (UVec2 width height)).
    - apply get_uniform_In, Hres, Hno.
    - unfold upload_uniform. rewrite Hd. simpl. auto. }
  intros Hd Hyes. apply in_map_iff in Hyes. destruct Hyes as ([k v] & Hk & Hin).
  simpl in Hk. subst k.
  apply (upload_In declared uniforms "u_resolution" (UNum v)).
  - apply get_uniform_In. apply (Hparam "resolution" v Hin).
  - unfold upload_uniform. rewrite Hd. simpl. auto.
Qed.

Lemma pass_uniform_upload_witness :
  In (uniform1f "u_radius" (2 # 1))
    (upload_uniforms (fun _ => true) (build_uniforms 3 640 480 (parameters blur2))) /\
  In (uniform2f "u_resolution" NaN NaN)
    (upload_uniforms (fun _ => true)
       (build_uniforms 3 640 480 [("resolution", (7 # 1)%Q)])).
Proof.
  assert (Hnd : NoDup (map fst (parameters blur2))).
  { simpl. constructor; [intros []|constructor]. }
  assert (Hnd2 : NoDup (map fst [("resolution", (7 # 1)%Q)])).
  { simpl. constructor; [intros []|constructor]. }
  split.
  - apply (pass_uniform_upload (fun _ => true) 3 640 480 (parameters blur2) Hnd);
      try reflexivity; try discriminate. simpl. auto.
  - apply (pass_uniform_upload (fun _ => true) 3 640 480 [("resolution", (7 # 1)%Q)] Hnd2);
      try reflexivity. simpl. auto.
Defined.

(** * The page that edits the pipeline *)

(** ** Adding a filter *)

Lemma baseId_of_suffixed kind suffix :
  occurs "-" kind = false -> baseId_of (kind ++ String "-" suffix) = kind.
Proof.
  unfold baseId_of. induction kind as [|c kind IH]; simpl.
  - reflexivity.
  - intros H. apply Bool.orb_false_iff in H. destruct H as [Hc Hk].
    rewrite Hc. specialize (IH Hk).
    destruct (split "-" (kind ++ String "-" suffix)) as [|piece pieces] eqn:E.
    + exfalso. eapply split_not_nil; eauto.
    + simpl in *. congruence.
Qed.

Lemma find_template filterId t :
  find (fun f => String.eqb (template_id f) filterId) availableFilters = Some t ->
  template_id t = filterId /\ In t availableFilters.
Proof.
  intros H. apply find_some in H. destruct H as [Hin Heq].
  apply String.eqb_eq in Heq. auto.
Qed.

Lemma templates_registered t :
  In t availableFilters ->
  occurs "-" (template_id t) = false /\
  exists source, own_property shaders (template_id t) = Some source.
Proof.
  unfold availableFilters. simpl.
  intros H. repeat (destruct H as [<-|H]; [split; [reflexivity|eexists; reflexivity]|]).
  destruct H.
Qed.

Lemma filter_enabled_app (l1 l2 : list Filter) :
  filter enabled (l1 ++ l2) = (filter enabled l1 ++ filter enabled l2)%list.
Proof. apply filter_app. Qed.

(** X14.  Adding a filter whose kind is not a template changes nothing.  Adding a
    template's kind appends one enabled filter with the template's default
    parameters, and whatever the clock reads, the engine resolves its id to
    the shader registered under that kind: never to the passthrough
    fallback. *)
Theorem addFilterToPipeline_resolves now filterId prev :
  let next := addFilterToPipeline now filterId prev in
  (find (fun f => String.eqb (template_id f) filterId) availableFilters = None ->
   next = prev) /\
  (forall t,
      find (fun f => String.eqb (template_id f) filterId) availableFilters = Some t ->
      exists added source,
        next = (prev ++ [added])%list /\
        id (engine added) = filterId ++ "-" ++ decimal now /\
        parameters (engine added) = defaultParams t /\
        enabled (engine added) = true /\
        own_property shaders filterId = Some source /\
        getShaderForFilter (id (engine added)) = JStr source /\
        length (filter enabled (to_engine next))
        = S (length (filter enabled (to_engine prev)))).
Proof.
  unfold addFilterToPipeline. simpl. split.
  - intros ->. reflexivity.
  - intros t Hfind. rewrite Hfind.
    destruct (find_template _ _ Hfind) as [Hid Hin].
    destruct (templates_registered t Hin) as (Hdash & source & Hsrc).
    rewrite Hid in Hdash, Hsrc.
    eexists. exists source. split; [reflexivity|]. simpl.
    repeat split; auto.
    + apply getShaderForFilter_registered.
      rewrite (baseId_of_suffixed filterId (decimal now) Hdash). exact Hsrc.
    + unfold to_engine. rewrite map_app, filter_enabled_app, length_app. simpl. lia.
Qed.

Lemma addFilterToPipeline_resolves_witness :
  exists added,
    addFilterToPipeline 1700000000000 "blur" [] = [added] /\
    id (engine added) = "blur-1700000000000" /\
    getShaderForFilter (id (engine added)) = JStr shader_blur.
Proof.
  destruct (addFilterToPipeline_resolves 1700000000000 "blur" []) as [_ H].
  destruct (H _ eq_refl) as (added & source & Hn & Hid & _ & _ & Hsrc & Hsh & _).
  exists added. split; [exact Hn|]. split; [exact Hid|].
  rewrite Hsh. f_equal.
  assert (E : own_property shaders "blur" = Some shader_blur) by reflexivity.
  congruence.
Defined.

(** ** Toggling *)

Lemma toggleFilter_cons filterId f rest :
  toggleFilter filterId (f :: rest) =
  (if String.eqb (id (engine f)) filterId
   then {| engine :=
             {| id := id (engine f); name := name (engine f);
                type := type (engine f); parameters := parameters (engine f);
                enabled := negb (enabled (engine f)) |};
           paramConfig := paramConfig f |}
   else f) :: toggleFilter filterId rest.
Proof. reflexivity. Qed.

Lemma toggle_absent filterId prev :
  ~ In filterId (map (fun f => id (engine f)) prev) -> toggleFilter filterId prev = prev.
Proof.
  induction prev as [|f rest IH]; [reflexivity|].
  intros H. rewrite toggleFilter_cons.
  destruct (String.eqb_spec (id (engine f)) filterId) as [E|_].
  - exfalso. apply H. simpl. auto.
  - rewrite IH; [reflexivity|]. intros Hin. apply H. simpl. auto.
Qed.

(** X15.  Toggling a filter twice gives the pipeline back; one toggle keeps every
    id in its place, touches only the filters with that id, and, when ids
    are distinct, changes the number of enabled filters by exactly one. *)
Theorem toggleFilter_involutive filterId prev :
  toggleFilter filterId (toggleFilter filterId prev) = prev /\
  map (fun f => id (engine f)) (toggleFilter filterId prev)
  = map (fun f => id (engine f)) prev /\
  (forall f, In f prev -> id (engine f) <> filterId -> In f (toggleFilter filterId prev)) /\
  (NoDup (map (fun f => id (engine f)) prev) ->
   forall f, In f prev -> id (engine f) = filterId ->
   length (filter enabled (to_engine (toggleFilter filterId prev)))
   + (if enabled (engine f) then 1 else 0)
   = length (filter enabled (to_engine prev))
     + (if enabled (engine f) then 0 else 1)).
Proof.
  split.
  { unfold toggleFilter. rewrite map_map.
    rewrite <- (map_id prev) at 2. apply map_ext. intros [[i n t p e] c]. simpl.
    destruct (String.eqb_spec i filterId) as [->|Hne]; simpl.
    - rewrite String.eqb_refl, Bool.negb_involutive. reflexivity.
    - destruct (String.eqb_spec i filterId); [contradiction|reflexivity]. }
  split.
  { unfold toggleFilter. rewrite map_map. apply map_ext. intros f.
    destruct (String.eqb (id (engine f)) filterId); reflexivity. }
  split.
  { intros f Hin Hne. unfold toggleFilter. apply in_map_iff. exists f.
    destruct (String.eqb_spec (id (engine f)) filterId); [contradiction|auto]. }
  induction prev as [|x rest IH]; intros Hnd f Hin Hid; [destruct Hin|].
  simpl in Hnd. apply NoDup_cons_iff in Hnd. destruct Hnd as [Hnotin Hnd'].
  rewrite toggleFilter_cons.
  destruct Hin as [->|Hin].
  - rewrite Hid, String.eqb_refl.
    rewrite Hid in Hnotin. rewrite (toggle_absent _ _ Hnotin).
    unfold to_engine. simpl.
    destruct (enabled (engine f)); simpl; lia.
  - assert (Hx : id (engine x) <> filterId).
    { intros E. apply Hnotin. rewrite E, <- Hid. apply in_map_iff. exists f. auto. }
    destruct (String.eqb_spec (id (engine x)) filterId); [contradiction|].
    specialize (IH Hnd' f Hin Hid).
    unfold to_engine in *. simpl.
    destruct (enabled (engine x)); simpl; lia.
Qed.

(** ** Removing *)

Lemma filter_enabled_remove filterId prev :
  (forall f, In f prev -> id (engine f) = filterId -> enabled (engine f) = false) ->
  filter enabled (to_engine (removeFilterFromPipeline filterId prev))
  = filter enabled (to_engine prev).
Proof.
  unfold to_engine, removeFilterFromPipeline.
  induction prev as [|x rest IH]; intros H; simpl; [reflexivity|].
  destruct (String.eqb_spec (id (engine x)) filterId) as [E|Hne]; simpl.
  - rewrite (H x (or_introl eq_refl) E). apply IH. intros f Hf. apply H. simpl. auto.
  - rewrite IH; [reflexivity|]. intros f Hf. apply H. simpl. auto.
Qed.

(** X16.  After a removal no filter has that id, the others are there in their
    order, removing again or removing an id that is not there changes
    nothing, and removing filters that were disabled does not change what a
    run does. *)
Theorem removeFilterFromPipeline_spec filterId prev :
  let next := removeFilterFromPipeline filterId prev in
  (forall f, In f next <-> In f prev /\ id (engine f) <> filterId) /\
  Subsequence next prev /\
  removeFilterFromPipeline filterId next = next /\
  (~ In filterId (map (fun f => id (engine f)) prev) -> next = prev) /\
  ((forall f, In f prev -> id (engine f) = filterId -> enabled (engine f) = false) ->
   forall dev width height imageSrc,
     run dev width height imageSrc (to_engine next)
     = run dev width height imageSrc (to_engine prev)).
Proof.
  simpl. split.
  { intros f. unfold removeFilterFromPipeline. rewrite filter_In.
    destruct (String.eqb_spec (id (engine f)) filterId); simpl; split; intros [? ?];
      split; auto; discriminate. }
  split; [apply filter_Subsequence|].
  split; [apply filter_idempotent|].
  split.
  { intros Hno. unfold removeFilterFromPipeline.
    induction prev as [|x rest IH]; simpl; [reflexivity|].
    destruct (String.eqb_spec (id (engine x)) filterId) as [E|_]; simpl.
    - exfalso. apply Hno. simpl. auto.
    - rewrite IH; [reflexivity|]. intros Hin. apply Hno. simpl. auto. }
  intros Hoff dev width height imageSrc.
  apply run_same_enabled. apply filter_enabled_remove. exact Hoff.
Qed.

Lemma removeFilterFromPipeline_spec_witness :
  run working_device 4 4 "image.png"
    (to_engine (removeFilterFromPipeline "contrast-4"
                  [ {| engine := brightness10; paramConfig := None |};
                    {| engine := contrast_off; paramConfig := None |} ]))
  = run working_device 4 4 "image.png"
      (to_engine [ {| engine := brightness10; paramConfig := None |};
                   {| engine := contrast_off; paramConfig := None |} ]).
Proof.
  apply (removeFilterFromPipeline_spec "contrast-4"
           [ {| engine := brightness10; paramConfig := None |};
             {| engine := contrast_off; paramConfig := None |} ]).
  intros f [<-|[<-|[]]]; simpl; intros E; [discriminate|reflexivity].
Defined.

Lemma toggleFilter_involutive_witness :
  length (filter enabled
            (to_engine (toggleFilter "contrast-4"
                          [ {| engine := brightness10; paramConfig := None |};
                            {| engine := contrast_off; paramConfig := None |} ]))) = 2.
Proof.
  pose proof (toggleFilter_involutive "contrast-4"
                [ {| engine := brightness10; paramConfig := None |};
                  {| engine := contrast_off; paramConfig := None |} ])
    as (_ & _ & _ & H).
  assert (Hnd : NoDup (map (fun f => id (engine f))
                         [ {| engine := brightness10; paramConfig := None |};
                           {| engine := contrast_off; paramConfig := None |} ])).
  { simpl. constructor.
    - intros [E|[]]. discriminate.
    - constructor; [intros []|constructor]. }
  specialize (H Hnd {| engine := contrast_off; paramConfig := None |}
                (or_intror (or_introl eq_refl)) eq_refl).
  simpl in H. simpl. lia.
Defined.

(** ** Changing a parameter *)

Lemma get_param_None k o : get_param k o = None <-> ~ In k (map fst o).
Proof.
  induction o as [|[k' v'] o IH]; simpl; [tauto|].
  destruct (String.eqb_spec k k') as [->|Hne].
  - split; [discriminate|]. intros H. exfalso. apply H. auto.
  - rewrite IH. split; [intros H [E|Hin]; [congruence|contradiction] | tauto].
Qed.

Lemma get_param_In k v o : get_param k o = Some v -> In (k, v) o.
Proof.
  induction o as [|[k' v'] o IH]; simpl; [discriminate|].
  destruct (String.eqb_spec k k') as [->|_].
  - intros [= ->]. auto.
  - auto.
Qed.

Lemma replace_param_get k v o k' :
  get_param k' (replace_param k v o) =
  if String.eqb k' k then option_map (fun _ => v) (get_param k o) else get_param k' o.
Proof.
  induction o as [|[k0 v0] o IH]; simpl.
  - destruct (String.eqb k' k); reflexivity.
  - destruct (String.eqb_spec k k0) as [E|Hk]; simpl.
    + subst k0. destruct (String.eqb k' k); reflexivity.
    + rewrite IH. destruct (String.eqb_spec k' k0) as [E1|N1]; [|reflexivity].
      destruct (String.eqb_spec k' k); [congruence|reflexivity].
Qed.

Lemma replace_param_keys k v o : map fst (replace_param k v o) = map fst o.
Proof.
  induction o as [|[k0 v0] o IH]; simpl; [reflexivity|].
  destruct (String.eqb k k0); simpl; [reflexivity|]. rewrite IH. reflexivity.
Qed.

Lemma insert_index_get n k v o k' :
  get_param k o = None ->
  get_param k' (insert_index n k v o) =
  if String.eqb k' k then Some v else get_param k' o.
Proof.
  induction o as [|[k0 v0] o IH]; simpl; intros Hnone.
  - destruct (String.eqb k' k); reflexivity.
  - destruct (String.eqb_spec k k0) as [E|Hk]; [discriminate|].
    specialize (IH Hnone).
    destruct (array_index k0) as [m|]; [destruct (m <? n)%N|]; simpl; try reflexivity.
    rewrite IH.
    destruct (String.eqb_spec k' k0) as [E1|N1];
      destruct (String.eqb_spec k' k) as [E2|N2]; try reflexivity.
    congruence.
Qed.

Lemma insert_index_keys n k v o k' :
  In k' (map fst (insert_index n k v o)) <-> k' = k \/ In k' (map fst o).
Proof.
  induction o as [|[k0 v0] o IH]; simpl.
  - intuition.
  - destruct (array_index k0) as [m|]; [destruct (m <? n)%N|]; simpl;
      rewrite ?IH; intuition.
Qed.

Lemma insert_index_NoDup n k v o :
  ~ In k (map fst o) -> NoDup (map fst o) -> NoDup (map fst (insert_index n k v o)).
Proof.
  induction o as [|[k0 v0] o IH]; simpl; intros Hno Hnd.
  - constructor; [intros []|constructor].
  - apply NoDup_cons_iff in Hnd. destruct Hnd as [H0 Hnd].
    destruct (array_index k0) as [m|]; [destruct (m <? n)%N|]; simpl.
    + constructor.
      * rewrite insert_index_keys. intros [E|Hin]; [subst; apply Hno; auto|contradiction].
      * apply IH; [intros Hin; apply Hno; auto|exact Hnd].
    + constructor; [exact Hno|]. constructor; assumption.
    + constructor; [exact Hno|]. constructor; assumption.
Qed.

Lemma append_get (k : string) (v : Q) o k' :
  get_param k o = None ->
  get_param k' (o ++ [(k, v)]) = if String.eqb k' k then Some v else get_param k' o.
Proof.
  induction o as [|[k0 v0] o IH]; simpl; intros Hnone.
  - destruct (String.eqb k' k); reflexivity.
  - destruct (String.eqb_spec k k0) as [E|Hk]; [discriminate|].
    rewrite (IH Hnone).
    destruct (String.eqb_spec k' k0) as [E1|Hk0]; [|reflexivity].
    destruct (String.eqb_spec k' k); [congruence|reflexivity].
Qed.

(** [o[k] = v] then [o[k']]. *)
Lemma set_param_get k v o k' :
  get_param k' (set_param k v o) = if String.eqb k' k then Some v else get_param k' o.
Proof.
  unfold set_param. destruct (get_param k o) as [old|] eqn:Hget.
  - rewrite replace_param_get, Hget. reflexivity.
  - destruct (array_index k) as [n|].
    + apply insert_index_get. exact Hget.
    + apply append_get. exact Hget.
Qed.

Lemma set_param_NoDup k v o :
  NoDup (map fst o) -> NoDup (map fst (set_param k v o)).
Proof.
  intros Hnd. unfold set_param. destruct (get_param k o) as [old|] eqn:Hget.
  - rewrite replace_param_keys. exact Hnd.
  - apply get_param_None in Hget. destruct (array_index k) as [n|].
    + apply insert_index_NoDup; assumption.
    + rewrite map_app. simpl. apply NoDup_app; [exact Hnd| |].
      * constructor; [intros []|constructor].
      * intros a Ha [E|[]]. subst. contradiction.
Qed.

Lemma spread_fold o :
  forall acc,
    NoDup (map fst acc) ->
    NoDup (map fst (fold_left (fun a kv => set_param (fst kv) (snd kv) a) o acc)) /\
    (NoDup (map fst o) ->
     forall k,
       get_param k (fold_left (fun a kv => set_param (fst kv) (snd kv) a) o acc)
       = match get_param k o with Some v => Some v | None => get_param k acc end).
Proof.
  induction o as [|[k0 v0] o IH]; intros acc Hacc; cbn [fold_left fst snd].
  - split; [exact Hacc|]. intros _ k. reflexivity.
  - destruct (IH (set_param k0 v0 acc) (set_param_NoDup k0 v0 acc Hacc)) as [Hnd Hget].
    split; [exact Hnd|]. intros Ho k. simpl in Ho.
    apply NoDup_cons_iff in Ho. destruct Ho as [Hk0 Ho].
    rewrite (Hget Ho). rewrite set_param_get. simpl.
    destruct (String.eqb_spec k k0) as [->|Hne].
    + apply get_param_None in Hk0. rewrite Hk0. reflexivity.
    + reflexivity.
Qed.

Lemma spread_NoDup o : NoDup (map fst (spread o)).
Proof. apply (spread_fold o []). constructor. Qed.

Lemma spread_get o k :
  NoDup (map fst o) -> get_param k (spread o) = get_param k o.
Proof.
  intros Hnd. unfold spread. rewrite (proj2 (spread_fold o [] (NoDup_nil _)) Hnd).
  destruct (get_param k o); reflexivity.
Qed.

Lemma updateFilterParameter_cons filterId paramName value f rest :
  updateFilterParameter filterId paramName value (f :: rest) =
  (if String.eqb (id (engine f)) filterId
   then {| engine :=
             {| id := id (engine f); name := name (engine f);
                type := type (engine f);
                parameters := set_param paramName value (spread (parameters (engine f)));
                enabled := enabled (engine f) |};
           paramConfig := paramConfig f |}
   else f) :: updateFilterParameter filterId paramName value rest.
Proof. reflexivity. Qed.

(** X17.  After [updateFilterParameter(id, k, v)] the filters with that id hold
    [v] under [k] and keep their other parameters, every filter keeps its
    place, id and enabled flag, filters with other ids are untouched, and
    the next pass built from such a filter carries [u_k = v]. *)
Theorem updateFilterParameter_reaches_pass filterId paramName value prev :
  let next := updateFilterParameter filterId paramName value prev in
  map (fun f => (id (engine f), enabled (engine f))) next
  = map (fun f => (id (engine f), enabled (engine f))) prev /\
  (forall i f f',
      nth_error prev i = Some f -> nth_error next i = Some f' ->
      (id (engine f) <> filterId -> f' = f) /\
      (id (engine f) = filterId ->
       get_param paramName (parameters (engine f')) = Some value /\
       (NoDup (map fst (parameters (engine f))) ->
        forall k, k <> paramName ->
                  get_param k (parameters (engine f')) = get_param k (parameters (engine f))) /\
       (forall currentTexture width height,
           get_uniform ("u_" ++ paramName)
             (build_uniforms currentTexture width height (parameters (engine f')))
           = Some (UNum value)))).
Proof.
  simpl. split.
  { unfold updateFilterParameter. rewrite map_map. apply map_ext. intros f.
    destruct (String.eqb (id (engine f)) filterId); reflexivity. }
  induction prev as [|x rest IH]; intros i f f' Hf Hf'.
  - destruct i; discriminate.
  - rewrite updateFilterParameter_cons in Hf'. destruct i as [|i]; simpl in Hf, Hf'.
    + injection Hf as <-. injection Hf' as <-.
      destruct (String.eqb_spec (id (engine x)) filterId) as [E|Hne].
      * split; [contradiction|]. intros _. simpl.
        assert (Hget : get_param paramName
                         (set_param paramName value (spread (parameters (engine x))))
                       = Some value).
        { rewrite set_param_get, String.eqb_refl. reflexivity. }
        split; [exact Hget|]. split.
        -- intros Hnd k Hk. rewrite set_param_get.
           destruct (String.eqb_spec k paramName); [contradiction|].
           apply spread_get. exact Hnd.
        -- intros currentTexture width height.
           apply build_uniforms_entries.
           ++ apply set_param_NoDup, spread_NoDup.
           ++ apply get_param_In. exact Hget.
      * split; [reflexivity|]. intros E. contradiction.
    + apply (IH i f f' Hf Hf').
Qed.

Lemma updateFilterParameter_reaches_pass_witness :
  exists f',
    nth_error (updateFilterParameter "blur-2" "radius" (3 # 1)
                 [ {| engine := brightness10; paramConfig := None |};
                   {| engine := blur2; paramConfig := None |} ]) 1 = Some f' /\
    get_uniform "u_radius" (build_uniforms 3 640 480 (parameters (engine f')))
    = Some (UNum (3 # 1)).
Proof.
  eexists. split; [reflexivity|].
  pose proof (updateFilterParameter_reaches_pass "blur-2" "radius" (3 # 1)
                [ {| engine := brightness10; paramConfig := None |};
                  {| engine := blur2; paramConfig := None |} ]) as [_ H].
  destruct (H 1 {| engine := blur2; paramConfig := None |} _ eq_refl eq_refl) as [_ H2].
  destruct (H2 eq_refl) as (_ & _ & Hu).
  apply Hu.
Defined.

(** ** The carousel *)

(** X18.  With at least one image and an index in range, both directions stay in
    range and wrap around at the ends, and each undoes the other.  With no
    image, going back leaves the index at -1. *)
Theorem navigateCarousel_wraps images_length index :
  (0 <= index < images_length)%Z ->
  let forward := navigateCarousel next_image images_length index in
  let back := navigateCarousel prev_image images_length index in
  (0 <= forward < images_length)%Z /\
  (0 <= back < images_length)%Z /\
  (index = images_length - 1 -> forward = 0)%Z /\
  (index = 0 -> back = images_length - 1)%Z /\
  navigateCarousel prev_image images_length forward = index /\
  navigateCarousel next_image images_length back = index /\
  navigateCarousel prev_image 0 0 = (-1)%Z.
Proof.
  intros H. unfold navigateCarousel. simpl.
  destruct (Z.ltb_spec index (images_length - 1));
    destruct (Z.gtb_spec index 0);
    repeat match goal with
           | |- context [Z.ltb ?a ?b] => destruct (Z.ltb_spec a b)
           | |- context [Z.gtb ?a ?b] => destruct (Z.gtb_spec a b)
           end;
    repeat split; lia.
Qed.

Lemma navigateCarousel_wraps_witness :
  navigateCarousel next_image 3 2 = 0%Z /\ navigateCarousel prev_image 3 0 = 2%Z.
Proof.
  pose proof (navigateCarousel_wraps 3 2 ltac:(lia)) as (_ & _ & Hf & _).
  pose proof (navigateCarousel_wraps 3 0 ltac:(lia)) as (_ & _ & _ & Hb & _).
  split; [apply Hf | apply Hb]; reflexivity.
Defined.

(** ** Export names *)

Lemma occurs_middle c a b : occurs c (a ++ String c b) = true.
Proof.
  induction a as [|x a IH]; simpl.
  - rewrite Ascii.eqb_refl. reflexivity.
  - rewrite IH. apply Bool.orb_true_r.
Qed.

(** X19.  The download name drops the last extension of the image name and
    nothing else: a name ending in a dot and an extension text (not empty,
    no dot, no slash) loses exactly that ending, and a name that does not end
    so is kept whole. *)
Theorem strip_extension_last base ext name :
  (extension_text ext = true -> strip_extension (base ++ String "." ext) = base) /\
  ((forall b e, name = b ++ String "." e -> extension_text e = false) ->
   strip_extension name = name) /\
  (exists cut, name = strip_extension name ++ cut).
Proof.
  split.
  { intros Hext. induction base as [|c base IH]; simpl.
    - rewrite Hext. reflexivity.
    - replace (extension_text (base ++ String "." ext)) with false.
      + rewrite Bool.andb_false_r, IH. reflexivity.
      + unfold extension_text. rewrite (occurs_middle "." base ext).
        rewrite Bool.andb_false_r. reflexivity. }
  split.
  { induction name as [|c rest IH]; simpl; intros H; [reflexivity|].
    destruct (Ascii.eqb_spec c ".") as [->|Hc]; simpl.
    - rewrite (H "" rest eq_refl). f_equal. apply IH.
      intros b e ->. apply (H (String "." b) e). reflexivity.
    - f_equal. apply IH. intros b e ->. apply (H (String c b) e). reflexivity. }
  induction name as [|c rest IH]; simpl.
  - exists "". reflexivity.
  - destruct (Ascii.eqb c "." && extension_text rest).
    + exists (String c rest). reflexivity.
    + destruct IH as (cut & Hcut). exists cut. simpl. congruence.
Qed.

Lemma strip_extension_last_witness :
  strip_extension "holiday.2024.jpeg" = "holiday.2024" /\
  strip_extension "archive.d/readme" = "archive.d/readme".
Proof.
  split.
  - apply (strip_extension_last "holiday.2024" "jpeg" ""). reflexivity.
  - reflexivity.
Defined.

(** * The preview and the exported function draw the same *)

Ltac creates_only :=
  repeat first
    [ apply create_extends; reflexivity
    | apply set_this_silent
    | apply set_gl_silent; intros ?; reflexivity
    | apply (respects_bind _ (extends_trans is_create)); [|intros ?]
    | apply (respects_ret _ (extends_refl is_create))
    | apply (respects_throw _ (extends_refl is_create))
    | match goal with
      | |- respects _ (match ?x with _ => _ end) => destruct x
      end ].

Lemma setupGeometry_extends dev : respects (extends is_create) (setupGeometry dev).
Proof. unfold setupGeometry. creates_only. Qed.

Lemma createTexture_extends dev img : respects (extends is_create) (createTexture dev img).
Proof. unfold createTexture, push_texture. creates_only. Qed.

Lemma createFramebuffer_extends dev width height :
  respects (extends is_create) (createFramebuffer dev width height).
Proof. unfold createFramebuffer, push_texture, push_framebuffer. creates_only. Qed.

Lemma extends_create_draws s s' :
  extends is_create s s' -> draws (gl_log (gl s')) = draws (gl_log (gl s)).
Proof.
  intros (evs & Hlog & Hev). rewrite Hlog, draws_app, (is_create_no_draw _ Hev).
  apply app_nil_r.
Qed.

Lemma setupGeometry_next dev s :
  fst (setupGeometry dev s) = Ok tt /\
  gl_next (gl (snd (setupGeometry dev s))) = S (S (gl_next (gl s))).
Proof.
  unfold setupGeometry, create, bind, get_gl, set_gl, set_this, ret. simpl.
  destruct (dev_creates dev KBuffer (gl_next (gl s))); simpl;
    destruct (dev_creates dev KBuffer (S (gl_next (gl s)))); simpl; auto.
Qed.

Lemma createTexture_Ok dev img s t s' :
  createTexture dev img s = (Ok t, s') ->
  t = gl_next (gl s) /\ gl_next (gl s') = S (gl_next (gl s)).
Proof.
  unfold createTexture, push_texture, create, bind, get_gl, set_gl, set_this, ret, throw.
  simpl. destruct (dev_creates dev KTexture (gl_next (gl s))); simpl; [|discriminate].
  intros [= <- <-]. auto.
Qed.

Lemma createFramebuffer_Ok dev width height s fbo s' :
  createFramebuffer dev width height s = (Ok fbo, s') ->
  fbo = {| framebuffer := S (gl_next (gl s)); texture := gl_next (gl s) |} /\
  gl_next (gl s') = S (S (gl_next (gl s))).
Proof.
  unfold createFramebuffer, push_texture, push_framebuffer, create, bind, get_gl,
    set_gl, set_this, ret, throw. simpl.
  destruct (dev_creates dev KTexture (gl_next (gl s))); simpl; [|discriminate].
  destruct (dev_creates dev KFramebuffer (S (gl_next (gl s)))); simpl; [|discriminate].
  destruct (dev_fb_complete dev width height); simpl; [|discriminate].
  intros [= <- <-]. auto.
Qed.

Lemma surface_renderFilter_draws dev width height input frag uniforms fb s o s' :
  Surface.renderFilter dev width height input frag uniforms fb s = (o, s') ->
  draws (gl_log (gl s')) =
  (draws (gl_log (gl s)) ++
   match o with
   | Ok _ => [ {| pass_input := input; pass_frag := frag; pass_uniforms := uniforms;
                  pass_target := fb; pass_width := width; pass_height := height |} ]
   | Thrown _ => []
   end)%list.
Proof.
  unfold Surface.renderFilter. rewrite bind_eq.
  pose proof (getProgram_extends dev frag s) as (evs & Hlog & Hev).
  destruct (getProgram dev frag s) as [[program|e] s1]; simpl in Hlog.
  - unfold bind, set_gl. simpl. intros [= <- <-]. simpl.
    rewrite log_write_target. simpl.
    rewrite Hlog. repeat rewrite draws_app.
    rewrite (compile_event_no_draw _ Hev). simpl. rewrite app_nil_r. reflexivity.
  - intros [= <- <-]. rewrite Hlog, draws_app, (compile_event_no_draw _ Hev).
    reflexivity.
Qed.

Lemma surface_passes_from_draws dev width height count input fbo1 fbo2 filters :
  forall index v s o s',
    Surface.passes_from dev width height count filters index v s = (o, s') ->
    index + length filters = count ->
    Surface.cursorTexture v = input_at input fbo1 fbo2 index ->
    Surface.cursorFBO v = target_at fbo1 fbo2 index ->
    Surface.otherFBO v = target_at fbo1 fbo2 (S index) ->
    exists k,
      k <= length filters /\
      draws (gl_log (gl s')) =
      (draws (gl_log (gl s)) ++
       firstn k (plan width height count input fbo1 fbo2 filters index))%list /\
      (forall v', o = Ok v' -> k = length filters).
Proof.
  induction filters as [|f rest IH]; intros index v s o s' H Hcount Ht Hc Hn; simpl in *.
  - unfold ret in H. injection H as <- <-. exists 0. simpl. rewrite app_nil_r. auto.
  - rewrite bind_eq in H. unfold Surface.pass in H. rewrite bind_eq in H.
    match type of H with context [Surface.renderFilter ?d ?w ?h ?i ?fr ?u ?fb s] =>
      pose proof (surface_renderFilter_draws d w h i fr u fb s) as Hr;
      destruct (Surface.renderFilter d w h i fr u fb s) as [[[]|e] s1]
    end; specialize (Hr _ _ eq_refl).
    + destruct rest as [|f2 rest2].
      * assert (Hlast : Nat.eqb index (count - 1) = true).
        { apply Nat.eqb_eq. simpl in Hcount. lia. }
        rewrite Hlast in *. simpl in H. unfold ret in H. injection H as <- <-.
        exists 1. simpl. split; [lia|]. split; [|auto].
        rewrite Hr. unfold planned_pass. rewrite Ht, Hlast. reflexivity.
      * assert (Hlast : Nat.eqb index (count - 1) = false).
        { apply Nat.eqb_neq. simpl in Hcount. lia. }
        rewrite Hlast in *. simpl negb in H. cbv iota in H. unfold ret at 1 in H.
        destruct (IH (S index) _ s1 o s' H) as (k & Hk & Hdr & Hall).
        -- simpl in *. lia.
        -- simpl. rewrite Hc. reflexivity.
        -- simpl. rewrite Hn. reflexivity.
        -- simpl. rewrite Hc, target_at_SS. reflexivity.
        -- exists (S k). split; [simpl in *; lia|]. split.
           ++ rewrite Hdr, Hr, <- app_assoc. simpl. unfold planned_pass at 2.
              rewrite Ht, Hc, Hlast. reflexivity.
           ++ intros v' Ho. simpl. f_equal. apply (Hall v' Ho).
    + injection H as <- <-. exists 0. simpl. rewrite app_nil_r.
      split; [lia|]. split; [rewrite Hr, app_nil_r; reflexivity|]. intros v' Hv. discriminate.
Qed.

Lemma firstn_plan_all width height count input fbo1 fbo2 filters index :
  firstn (length filters) (plan width height count input fbo1 fbo2 filters index) =
  plan width height count input fbo1 fbo2 filters index.
Proof.
  revert index. induction filters as [|f rest IH]; intros index; simpl; [reflexivity|].
  f_equal. apply IH.
Qed.

Lemma surface_onload_draws dev width height img pipeline :
  let outcome := Surface.onload dev width height true img pipeline st0 in
  Surface.fell_back (fst outcome) = false ->
  draws (gl_log (gl (snd outcome))) =
  complete_rendering width height (filter enabled pipeline).
Proof.
  unfold Surface.onload, Surface.new_WebGLProcessor.
  change (negb true) with false. cbv beta iota.
  destruct (dev_webgl dev); [|simpl; discriminate].
  change (negb true) with false. cbv beta iota.
  destruct (setupGeometry_next dev st0) as [Hok Hn].
  pose proof (extends_create_draws _ _ (setupGeometry_extends dev st0)) as Hd0.
  destruct (setupGeometry dev st0) as [[[]|e] s1]; simpl in Hok, Hn, Hd0;
    [|discriminate Hok].
  unfold Surface.draw. rewrite bind_eq.
  pose proof (extends_create_draws _ _ (createTexture_extends dev img s1)) as Hd1.
  destruct (createTexture dev img s1) as [[input|e] s2] eqn:E1; simpl in Hd1;
    [|simpl; discriminate].
  destruct (createTexture_Ok _ _ _ _ _ E1) as [-> Hn2]. rewrite Hn in *.
  rewrite bind_eq.
  pose proof (extends_create_draws _ _ (createFramebuffer_extends dev width height s2)) as Hd2.
  destruct (createFramebuffer dev width height s2) as [[fbo1|e] s3] eqn:E2; simpl in Hd2;
    [|simpl; discriminate].
  destruct (createFramebuffer_Ok _ _ _ _ _ _ E2) as [-> Hn3]. rewrite Hn2 in *.
  rewrite bind_eq.
  pose proof (extends_create_draws _ _ (createFramebuffer_extends dev width height s3)) as Hd3.
  destruct (createFramebuffer dev width height s3) as [[fbo2|e] s4] eqn:E3; simpl in Hd3;
    [|simpl; discriminate].
  destruct (createFramebuffer_Ok _ _ _ _ _ _ E3) as [-> Hn4]. rewrite Hn3 in *.
  assert (H4 : draws (gl_log (gl s4)) = []) by congruence.
  pose proof (clear_draws s4) as Hc.
  destruct (filter enabled pipeline) as [|f rest]; rewrite bind_eq;
    destruct (clear s4) as [[[]|e] s5] eqn:Ec; try discriminate Ec; simpl in Hc.
  - match goal with
    | |- context [Surface.renderFilter ?d ?w ?h ?i ?fr ?u ?fb s5] =>
        pose proof (surface_renderFilter_draws d w h i fr u fb s5) as Hr;
        destruct (Surface.renderFilter d w h i fr u fb s5) as [[[]|e] s6]
    end; specialize (Hr _ _ eq_refl); simpl; [|discriminate].
    intros _. rewrite Hr, Hc, H4. reflexivity.
  - rewrite bind_eq.
    match goal with
    | |- context [Surface.passes_from ?d ?w ?h ?n ?fs 0 ?v s5] =>
        destruct (Surface.passes_from d w h n fs 0 v s5) as [[v'|e] s6] eqn:Ep
    end; simpl; [|discriminate].
    intros _.
    destruct (surface_passes_from_draws dev width height (length (f :: rest)) 2
                {| framebuffer := 4; texture := 3 |} {| framebuffer := 6; texture := 5 |}
                (f :: rest) 0 _ s5 _ _ Ep) as (k & _ & Hd & Hall); try reflexivity.
    rewrite Hd, Hc, H4, (Hall v' eq_refl), firstn_plan_all. reflexivity.
Qed.

Lemma run_success_draws dev width height imageSrc pipeline :
  let outcome := run dev width height imageSrc pipeline in
  success (fst outcome) = true ->
  draws (gl_log (gl (snd outcome))) =
  complete_rendering width height (filter enabled pipeline).
Proof.
  intros outcome Hsucc. unfold outcome in *. clear outcome.
  destruct (success_setup _ _ _ _ _ Hsucc) as (img & input & fbo1 & fbo2 & s1 & Hd & Hs).
  destruct (setup_Ok _ _ _ _ _ _ _ _ _ Hs) as (Hi & H1 & H2 & _).
  simpl in Hi, H1, H2. subst input fbo1 fbo2.
  destruct (filter enabled pipeline) as [|f rest] eqn:Ef.
  - rewrite (run_unfold _ _ _ _ _ _ Hd) in *.
    rewrite (try_block_after_setup _ _ _ _ _ _ _ _ _ _ _ Hs) in *.
    rewrite Ef in *. unfold render in *. rewrite bind_eq in *.
    pose proof (clear_draws s1) as Hc.
    destruct (clear s1) as [[[]|e] s2] eqn:Ec; try discriminate Ec. simpl in Hc.
    rewrite bind_eq in *.
    match goal with
    | |- context [renderFilter ?d ?i ?fr ?u ?fb ?w ?h s2] =>
        pose proof (renderFilter_draws d i fr u fb w h s2) as Hr;
        destruct (renderFilter d i fr u fb w h s2) as [[g|e] s3]
    end; specialize (Hr _ _ eq_refl); simpl in Hsucc |- *; [|discriminate Hsucc].
    rewrite destroy_draws. simpl. rewrite Hr, Hc, (setup_no_draw _ _ _ _ _ _ _ _ Hs).
    reflexivity.
  - assert (Hne : filter enabled pipeline <> []) by (rewrite Ef; discriminate).
    destruct (run_draws _ _ _ _ _ _ _ _ _ _ Hd Hs Hne) as (k & _ & Hdr & Hall).
    rewrite Hdr, (Hall Hsucc), Ef, firstn_plan_all. reflexivity.
Qed.

(** X20.  The live preview and the exported function route alike: when the
    preview of an image did not fall back to the 2D canvas and the exported
    function succeeds on the same device, image, pipeline and size, the two
    issue the same draw calls, with the same shaders, uniforms and targets
    in the same order. *)
Theorem preview_draws_as_export dev width height imageSrc img pipeline :
  dev_decode dev imageSrc = Some img ->
  Surface.fell_back (fst (Surface.onload dev width height true img pipeline st0)) = false ->
  success (fst (run dev width height imageSrc pipeline)) = true ->
  draws (gl_log (gl (snd (Surface.onload dev width height true img pipeline st0)))) =
  draws (gl_log (gl (snd (run dev width height imageSrc pipeline)))).
Proof.
  intros _ Hp He.
  rewrite (surface_onload_draws _ _ _ _ _ Hp), (run_success_draws _ _ _ _ _ He).
  reflexivity.
Qed.

Lemma preview_draws_as_export_witness :
  draws (gl_log (gl (snd (Surface.onload working_device 2 2 true sample_image
                            sample_pipeline st0)))) =
  draws (gl_log (gl (snd (run working_device 2 2 "photo.png" sample_pipeline)))).
Proof.
  apply (preview_draws_as_export working_device 2 2 "photo.png" sample_image
           sample_pipeline); vm_compute; reflexivity.
Defined.
